(** * spatialdata: the [SpatialData] container and its [QueryManager]

    A shallow embedding of [src/spatialdata/_core/_spatialdata.py].

    Python objects live in a heap keyed by their identity ([id()]); the five
    element collections are insertion-ordered dictionaries from names to object
    references; Zarr stores live in a file system keyed by their location.
    Every method is a computation in a state-and-exception monad: an
    exception leaves the mutations made before it in place, as in Python. *)

From stdpp Require Import gmap strings list fin_maps.
From Stdlib Require Import ZArith.

Local Open Scope string_scope.

(** ** Values *)

(** [BaseTransformation] is an opaque value object for the container: only
    its equality is observed here. *)
Inductive BaseTransformation :=
  | Identity
  | Scale (scale : list Z)
  | Translation (translation : list Z).

Global Instance BaseTransformation_eq_dec : EqDecision BaseTransformation.
Proof. solve_decision. Defined.

(** The classes the container tells apart with [isinstance]. *)
Inductive PyClass :=
  | SpatialImage
  | MultiscaleSpatialImage
  | PaTable
  | GeoDataFrame
  | AnnData
  | OtherClass.

Global Instance PyClass_eq_dec : EqDecision PyClass.
Proof. solve_decision. Defined.

(** An element object: its class, its declared axes ([get_dims]), the
    transformation recorded in its metadata and its rows of coordinates. *)
Record PyObj := mkObj {
  py_class : PyClass;
  dims : list string;
  transform : option BaseTransformation;
  rows : list (list Z)
}.

Global Instance PyObj_eq_dec : EqDecision PyObj.
Proof. solve_decision. Defined.

(** Object identity, as returned by [id()]. *)
Definition obj_id := nat.

(** ** Insertion-ordered dictionaries

    A Python [dict] keeps its keys in insertion order: assigning to an
    existing key keeps its position, a new key goes last, and deleting then
    re-inserting a key moves it to the end. *)

Module PyDict.

(** [d.get(k)] *)
Fixpoint get {V} (k : string) (d : list (string * V)) : option V :=
  match d with
  | [] => None
  | (k', v) :: d' => if String.eqb k k' then Some v else get k d'
  end.

(** [k in d] *)
Definition contains {V} (k : string) (d : list (string * V)) : bool :=
  match get k d with Some _ => true | None => false end.

(** [del d[k]] *)
Fixpoint del {V} (k : string) (d : list (string * V)) : list (string * V) :=
  match d with
  | [] => []
  | (k', v) :: d' => if String.eqb k k' then del k d' else (k', v) :: del k d'
  end.

(** [d[k] = v] *)
Fixpoint set {V} (k : string) (v : V) (d : list (string * V)) : list (string * V) :=
  match d with
  | [] => [(k, v)]
  | (k', v') :: d' =>
      if String.eqb k k' then (k', v) :: d' else (k', v') :: set k v d'
  end.

(** [list(d.keys())] *)
Definition keys {V} (d : list (string * V)) : list string := map fst d.

End PyDict.

(** ** Exceptions *)

Inductive Error :=
  | DuplicateName        (* ValueError: "<Kind> <name> already exists in the dataset." *)
  | UnsupportedShape     (* ValueError: "Only czyx and cyx images supported" / "Only yx and zyx labels supported" *)
  | SchemaViolation      (* raised by a schema's [validate] *)
  | NotBacked            (* RuntimeError: "The data is not backed by a Zarr storage. ..." *)
  | ElementExists        (* ValueError: "Element <name> already exists, use overwrite=True to overwrite it" *)
  | ElementNotFound      (* ValueError: "Element not found in the SpatialData object" *)
  | AmbiguousElement     (* ValueError: "Element found multiple times in the SpatialData object" *)
  | SelfOverwrite        (* ValueError: "Can't overwrite the original file" *)
  | AlreadyExists        (* ValueError: "The Zarr store already exists. Use overwrite=True to overwrite the store." *)
  | NotImplementedError  (* NotImplementedError("TODO") *)
  | UnknownElementType   (* ValueError: "Unknown element type" *)
  | UnknownRequestType   (* TypeError: "unknown request type" *)
  | TypeError            (* an operation on an object that does not support it *)
  | KeyError             (* a missing dictionary key or group member *)
  | UnboundLocalError    (* a local variable read before assignment *)
  | AssertionError       (* a failed [assert] *)
  | AttributeError       (* [parse_url] returned [None] and [.store] was read *)
  | ContainsGroupError   (* zarr: [create_group] on an existing group *)
  | IOError.             (* a writer or reader of the store failed *)

Global Instance Error_eq_dec : EqDecision Error.
Proof. solve_decision. Defined.

Inductive Result (A : Type) :=
  | Ok (a : A)
  | Raise (e : Error).
Arguments Ok {A} a.
Arguments Raise {A} e.

(** ** The container *)

(** A collection attribute is either the class-level default
    [MappingProxyType({})], an empty read-only mapping, or a [dict] of the
    instance. *)
Inductive Mapping :=
  | MappingProxyType_empty
  | Dict (d : list (string * obj_id)).

Record SpatialData := mkSpatialData {
  _images : Mapping;
  _labels : Mapping;
  _points : Mapping;
  _polygons : Mapping;
  _shapes : Mapping;
  _table : option obj_id;
  path : option string
}.

(** The class attributes, which an instance shows until it assigns its own. *)
Definition class_attributes : SpatialData :=
  {| _images := MappingProxyType_empty; _labels := MappingProxyType_empty;
     _points := MappingProxyType_empty; _polygons := MappingProxyType_empty;
     _shapes := MappingProxyType_empty; _table := None; path := None |}.

Definition set_images (m : Mapping) (sd : SpatialData) : SpatialData :=
  {| _images := m; _labels := _labels sd; _points := _points sd;
     _polygons := _polygons sd; _shapes := _shapes sd; _table := _table sd;
     path := path sd |}.
Definition set_labels (m : Mapping) (sd : SpatialData) : SpatialData :=
  {| _images := _images sd; _labels := m; _points := _points sd;
     _polygons := _polygons sd; _shapes := _shapes sd; _table := _table sd;
     path := path sd |}.
Definition set_points (m : Mapping) (sd : SpatialData) : SpatialData :=
  {| _images := _images sd; _labels := _labels sd; _points := m;
     _polygons := _polygons sd; _shapes := _shapes sd; _table := _table sd;
     path := path sd |}.
Definition set_polygons (m : Mapping) (sd : SpatialData) : SpatialData :=
  {| _images := _images sd; _labels := _labels sd; _points := _points sd;
     _polygons := m; _shapes := _shapes sd; _table := _table sd;
     path := path sd |}.
Definition set_shapes (m : Mapping) (sd : SpatialData) : SpatialData :=
  {| _images := _images sd; _labels := _labels sd; _points := _points sd;
     _polygons := _polygons sd; _shapes := m; _table := _table sd;
     path := path sd |}.
Definition set_table (t : option obj_id) (sd : SpatialData) : SpatialData :=
  {| _images := _images sd; _labels := _labels sd; _points := _points sd;
     _polygons := _polygons sd; _shapes := _shapes sd; _table := t;
     path := path sd |}.
Definition set_path (p : option string) (sd : SpatialData) : SpatialData :=
  {| _images := _images sd; _labels := _labels sd; _points := _points sd;
     _polygons := _polygons sd; _shapes := _shapes sd; _table := _table sd;
     path := p |}.

(** A collection attribute together with its assignment. *)
Record Attr := mkAttr {
  attr_get : SpatialData -> Mapping;
  attr_set : Mapping -> SpatialData -> SpatialData
}.

Definition images : Attr := mkAttr _images set_images.
Definition labels : Attr := mkAttr _labels set_labels.
Definition points : Attr := mkAttr _points set_points.
Definition polygons : Attr := mkAttr _polygons set_polygons.
Definition shapes : Attr := mkAttr _shapes set_shapes.

Definition items (m : Mapping) : list (string * obj_id) :=
  match m with MappingProxyType_empty => [] | Dict d => d end.

(** ** Zarr stores *)

(** A named subgroup of a store: created empty by [require_group], or
    holding what a writer put there. *)
Inductive ZNode :=
  | EmptyGroup
  | Written (o : PyObj).

(** A store is a root group of top-level groups ([images], [labels],
    [points], [polygons], [shapes], [table]) of named subgroups. *)
Abbreviation Store := (gmap string (gmap string ZNode)).

(** A [zarr.Group] handle: the store it belongs to ([.store.path]) and its
    position below the root ([.path]). *)
Inductive ZarrGroup :=
  | Root (store : string)
  | Sub (store : string) (group : string)
  | Leaf (store : string) (group : string) (name : string).

Definition store_path (g : ZarrGroup) : string :=
  match g with Root s | Sub s _ | Leaf s _ _ => s end.

Definition group_path (g : ZarrGroup) : string :=
  match g with
  | Root _ => ""
  | Sub _ t => t
  | Leaf _ t n => t ++ "/" ++ n
  end.

(** ** Program state *)

Record State := mkState {
  self : SpatialData;
  heap : gmap obj_id PyObj;
  fs : gmap string Store
}.

Definition with_self (f : SpatialData -> SpatialData) (s : State) : State :=
  {| self := f (self s); heap := heap s; fs := fs s |}.
Definition with_heap (f : gmap obj_id PyObj -> gmap obj_id PyObj) (s : State) : State :=
  {| self := self s; heap := f (heap s); fs := fs s |}.
Definition with_fs (f : gmap string Store -> gmap string Store) (s : State) : State :=
  {| self := self s; heap := heap s; fs := f (fs s) |}.

(** ** The state-and-exception monad *)

Definition M (A : Type) : Type := State -> Result A * State.

Definition ret {A} (a : A) : M A := fun s => (Ok a, s).

(** [raise e]: the state reached so far stays as it is. *)
Definition raise {A} (e : Error) : M A := fun s => (Raise e, s).

Definition bind {A B} (m : M A) (k : A -> M B) : M B :=
  fun s =>
    match m s with
    | (Ok a, s') => k a s'
    | (Raise e, s') => (Raise e, s')
    end.

Declare Scope monad_scope.
Delimit Scope monad_scope with monad.
Notation "x <- m ;; k" := (bind m (fun x => k))
  (at level 100, m at next level, right associativity) : monad_scope.
Notation "m ;; k" := (bind m (fun _ => k))
  (at level 100, right associativity) : monad_scope.
Local Open Scope monad_scope.

(** [try: m except Exception as e: h e] *)
Definition try_except {A} (m : M A) (h : Error -> M A) : M A :=
  fun s =>
    match m s with
    | (Ok a, s') => (Ok a, s')
    | (Raise e, s') => h e s'
    end.

(** [for x in l: body x] *)
Fixpoint for_each {A} (l : list A) (body : A -> M unit) : M unit :=
  match l with
  | [] => ret tt
  | x :: l' => bind (body x) (fun _ => for_each l' body)
  end.

Definition gets {A} (f : State -> A) : M A := fun s => (Ok (f s), s).
Definition modify (f : State -> State) : M unit := fun s => (Ok tt, f s).

(** [assert b] *)
Definition assert_ (b : bool) : M unit :=
  if b then ret tt else raise AssertionError.

(** Reading a local variable that may not have been assigned. *)
Definition local {A} (v : option A) : M A :=
  match v with Some a => ret a | None => raise UnboundLocalError end.

(** ** Objects *)

(** The object a reference denotes. *)
Definition deref (r : obj_id) : M PyObj :=
  h <- gets heap ;;
  match h !! r with
  | Some o => ret o
  | None => raise TypeError
  end.

(** A new object, with an identity no live object has. *)
Definition alloc (o : PyObj) : M obj_id :=
  h <- gets heap ;;
  let r := fresh (dom h) in
  modify (with_heap (insert r o));;
  ret r.

(** ** Collection attributes of [self] *)

(** [name in self.<attr>] *)
Definition attr_contains (a : Attr) (name : string) : M bool :=
  sd <- gets self ;;
  ret (PyDict.contains name (items (attr_get a sd))).

(** [len(self.<attr>)] *)
Definition attr_len (a : Attr) : M nat :=
  sd <- gets self ;;
  ret (length (items (attr_get a sd))).

(** [list(self.<attr>.keys())] *)
Definition attr_keys (a : Attr) : M (list string) :=
  sd <- gets self ;;
  ret (PyDict.keys (items (attr_get a sd))).

(** [self.<attr>[name]] *)
Definition attr_getitem (a : Attr) (name : string) : M obj_id :=
  sd <- gets self ;;
  match PyDict.get name (items (attr_get a sd)) with
  | Some v => ret v
  | None => raise KeyError
  end.

(** [del self.<attr>[name]] *)
Definition attr_delitem (a : Attr) (name : string) : M unit :=
  sd <- gets self ;;
  match attr_get a sd with
  | MappingProxyType_empty => raise TypeError
  | Dict d =>
      if PyDict.contains name d
      then modify (with_self (attr_set a (Dict (PyDict.del name d))))
      else raise KeyError
  end.

(** [self.<attr>[name] = v] *)
Definition attr_setitem (a : Attr) (name : string) (v : obj_id) : M unit :=
  sd <- gets self ;;
  match attr_get a sd with
  | MappingProxyType_empty => raise TypeError
  | Dict d => modify (with_self (attr_set a (Dict (PyDict.set name v d))))
  end.

(** ** Zarr groups *)

Definition root_of (f : gmap string Store) (store : string) : Store :=
  default ∅ (f !! store).

Definition members (f : gmap string Store) (store group : string) : gmap string ZNode :=
  default ∅ (root_of f store !! group).

(** [parse_url(path, mode="r+").store] followed by [zarr.group(store=store)]:
    [parse_url] returns [None] for a location that does not exist. *)
Definition open_root (store : string) : M ZarrGroup :=
  f <- gets fs ;;
  match f !! store with
  | Some _ => ret (Root store)
  | None => raise AttributeError
  end.

(** Zarr takes the name of a member as a path below the group: the empty
    name is the group itself, slashes separate the steps and are dropped at
    both ends, a backslash (character 92) is read as a slash (character 47),
    and [.] and [..] are refused. A simple name is one of a single step,
    which names a direct member and nothing else. *)
Fixpoint has_char (c : Ascii.ascii) (name : string) : bool :=
  match name with
  | EmptyString => false
  | String c' name' => Ascii.eqb c c' || has_char c name'
  end.

Definition simple_name (name : string) : bool :=
  negb (String.eqb name "") &&
  negb (has_char (Ascii.ascii_of_nat 47) name) &&
  negb (has_char (Ascii.ascii_of_nat 92) name) &&
  negb (String.eqb name ".") &&
  negb (String.eqb name "..").

(** [key in group]. The members of a group are kept under their names as
    they are given: this is zarr's lookup for [simple_name]s, and the paths
    zarr makes of other names are not modelled. *)
Definition group_contains (g : ZarrGroup) (key : string) : M bool :=
  f <- gets fs ;;
  match g with
  | Root st => ret (bool_decide (is_Some (root_of f st !! key)))
  | Sub st t => ret (bool_decide (is_Some (members f st t !! key)))
  | Leaf _ _ _ => ret false
  end.

(** [group[key]] *)
Definition group_getitem (g : ZarrGroup) (key : string) : M ZarrGroup :=
  b <- group_contains g key ;;
  if b then
    match g with
    | Root st => ret (Sub st key)
    | Sub st t => ret (Leaf st t key)
    | Leaf _ _ _ => raise KeyError
    end
  else raise KeyError.

(** [group.create_group(name=key)]: zarr refuses an existing member. *)
Definition create_group (g : ZarrGroup) (key : string) : M ZarrGroup :=
  b <- group_contains g key ;;
  if b then raise ContainsGroupError
  else
    match g with
    | Root st =>
        modify (with_fs (fun f => <[st := <[key := (∅ : gmap string ZNode)]> (root_of f st)]> f));;
        ret (Sub st key)
    | Sub st t =>
        modify (with_fs (fun f =>
          <[st := <[t := <[key := EmptyGroup]> (members f st t)]> (root_of f st)]> f));;
        ret (Leaf st t key)
    | Leaf _ _ _ => raise TypeError
    end.

(** [group.require_group(key)] *)
Definition require_group (g : ZarrGroup) (key : string) : M ZarrGroup :=
  b <- group_contains g key ;;
  if b then group_getitem g key else create_group g key.

(** [del group[key]], for a [simple_name]: the one member is removed (zarr
    removes the group itself for the empty name). *)
Definition group_delitem (g : ZarrGroup) (key : string) : M unit :=
  b <- group_contains g key ;;
  if b then
    match g with
    | Root st => modify (with_fs (fun f => <[st := delete key (root_of f st)]> f))
    | Sub st t =>
        modify (with_fs (fun f =>
          <[st := <[t := delete key (members f st t)]> (root_of f st)]> f))
    | Leaf _ _ _ => raise KeyError
    end
  else raise KeyError.

(** What [group] holds under [key], put there by a writer. *)
Definition put_node (g : ZarrGroup) (key : string) (n : ZNode) : M unit :=
  match g with
  | Sub st t =>
      modify (with_fs (fun f =>
        <[st := <[t := <[key := n]> (members f st t)]> (root_of f st)]> f))
  | _ => raise TypeError
  end.

(** ** Collaborators

    The schemas of [spatialdata._core.models], the writers and readers of
    [spatialdata._io], the spatial query of [spatialdata._core._spatial_query]
    and the store libraries are not part of these sources. What the container
    needs of them is taken as a parameter: every theorem below holds for every
    choice of them. *)

(** The schema instances [Label2D_s], [Label3D_s], ... of the module. *)
Inductive Schema :=
  | Label2D_s
  | Label3D_s
  | Image2D_s
  | Image3D_s
  | Polygon_s
  | Point_s
  | Shape_s
  | Table_s.

Inductive RasterType :=
  | raster_image
  | raster_labels.

Record BoundingBoxRequest := mkRequest {
  axes : list string;
  min_coordinate : list Z;
  max_coordinate : list Z
}.

Inductive BaseSpatialRequest :=
  | IsBoundingBoxRequest (r : BoundingBoxRequest)
  | OtherRequest.

Record Collaborators := mkCollaborators {
  (** [schema.validate(obj)] returns ([true]) or raises ([false]). *)
  validates : Schema -> PyObj -> bool;
  (** What a writer leaves in the store for an element of a kind under a
      name, or [None] when it raises. *)
  encode : string -> string -> PyObj -> option ZNode;
  (** The object [_read_multiscale] builds from a named subgroup. *)
  decode_multiscale : RasterType -> ZNode -> option PyObj;
  (** The object [_read_points] builds from the store it is given. *)
  decode_points : Store -> option PyObj;
  (** The rewritten subgroup after
      [_overwrite_coordinate_transformations_raster] ([true]) or
      [_overwrite_coordinate_transformations_non_raster] ([false]). *)
  rewrite_transformations :
    bool -> list string -> BaseTransformation -> ZNode -> option ZNode;
  (** The root group [zarr.group] gives for a location opened with
      [mode="w"], from what was there before. *)
  group_w : option Store -> Store;
  (** The elements [_bounding_box_query_points_dict] returns, from the
      elements of the points dictionary. *)
  query_points :
    list (string * PyObj) -> BoundingBoxRequest -> option (list (string * PyObj))
}.

Section SpatialData.

Variable C : Collaborators.

(** Modelled from the spec: [validate] of the schemas of
    [spatialdata._core.models]; a validation failure raises a structural
    error. *)
Definition validate (schema : Schema) (element : obj_id) : M unit :=
  o <- deref element ;;
  if validates C schema o then ret tt else raise SchemaViolation.

(** Modelled from the spec: [get_dims] of [spatialdata._core.core_utils],
    which is not part of these sources; it returns the element's declared
    axes. *)
Definition get_dims (element : obj_id) : M (list string) :=
  o <- deref element ;;
  ret (dims o).

(** Modelled from the spec: [_get_transform] of
    [spatialdata._core.core_utils]; it is a pure projection reading the
    transformation recorded in the element's own metadata. *)
Definition _get_transform (element : obj_id) : M (option BaseTransformation) :=
  o <- deref element ;;
  ret (transform o).

Definition _add_image_in_memory (name : string) (image : obj_id) (overwrite : bool) : M unit :=
  present <- attr_contains images name ;;
  (if present then
     if negb overwrite then raise DuplicateName
     else attr_delitem images name
   else ret tt) ;;
  d <- get_dims image ;;
  let ndim := length d in
  if Nat.eqb ndim 3 then
    validate Image2D_s image ;;
    attr_setitem images name image
  else if Nat.eqb ndim 4 then
    validate Image3D_s image ;;
    attr_setitem images name image
  else raise UnsupportedShape.

Definition _add_labels_in_memory (name : string) (labels_ : obj_id) (overwrite : bool) : M unit :=
  present <- attr_contains labels name ;;
  (if present then
     if negb overwrite then raise DuplicateName
     else attr_delitem labels name
   else ret tt) ;;
  d <- get_dims labels_ ;;
  let ndim := length d in
  if Nat.eqb ndim 2 then
    validate Label2D_s labels_ ;;
    attr_setitem labels name labels_
  else if Nat.eqb ndim 3 then
    validate Label3D_s labels_ ;;
    attr_setitem labels name labels_
  else raise UnsupportedShape.

Definition _add_polygons_in_memory (name : string) (polygons_ : obj_id) (overwrite : bool) : M unit :=
  present <- attr_contains polygons name ;;
  (if present then
     if negb overwrite then raise DuplicateName
     else attr_delitem polygons name
   else ret tt) ;;
  validate Polygon_s polygons_ ;;
  attr_setitem polygons name polygons_.

Definition _add_shapes_in_memory (name : string) (shapes_ : obj_id) (overwrite : bool) : M unit :=
  present <- attr_contains shapes name ;;
  (if present then
     if negb overwrite then raise DuplicateName
     else attr_delitem shapes name
   else ret tt) ;;
  validate Shape_s shapes_ ;;
  attr_setitem shapes name shapes_.

Definition _add_points_in_memory (name : string) (points_ : obj_id) (overwrite : bool) : M unit :=
  present <- attr_contains points name ;;
  (if present then
     if negb overwrite then raise DuplicateName
     else attr_delitem points name
   else ret tt) ;;
  validate Point_s points_ ;;
  attr_setitem points name points_.

(** [self.path is not None] *)
Definition is_backed : M bool :=
  sd <- gets self ;;
  ret (match path sd with Some _ => true | None => false end).

Definition element_types : list string :=
  ["images"; "labels"; "points"; "polygons"; "shapes"].

Definition in_element_types (element_type : string) : bool :=
  existsb (String.eqb element_type) element_types.

Definition _get_group_for_element (name element_type : string) : M ZarrGroup :=
  sd <- gets self ;;
  match path sd with
  | None => raise AttributeError
  | Some p =>
      root <- open_root p ;;
      assert_ (in_element_types element_type) ;;
      element_type_group <- require_group root element_type ;;
      element_group <- require_group element_type_group name ;;
      ret element_group
  end.

Definition _init_add_element (name element_type : string) (overwrite : bool) : M ZarrGroup :=
  sd <- gets self ;;
  match path sd with
  | None => raise NotBacked
  | Some p =>
      root <- open_root p ;;
      assert_ (in_element_types element_type) ;;
      elem_group <-
        (if negb (String.eqb element_type "labels") then
           present <- group_contains root element_type ;;
           if negb present then
             g <- create_group root element_type ;; ret (Some g)
           else
             g <- group_getitem root element_type ;; ret (Some g)
         else ret None) ;;
      elem_group <-
        (if overwrite then
           elem_group <-
             (if String.eqb element_type "labels" then
                present <- group_contains root element_type ;;
                if present then
                  g <- group_getitem root element_type ;; ret (Some g)
                else ret elem_group
              else ret elem_group) ;;
           g <- local elem_group ;;
           present <- group_contains g name ;;
           (if present then group_delitem g name else ret tt) ;;
           ret elem_group
         else
           bypass_elem_group <-
             (if String.eqb element_type "labels" then
                present <- group_contains root element_type ;;
                if present then
                  g <- group_getitem root element_type ;; ret (false, Some g)
                else ret (true, elem_group)
              else ret (false, elem_group)) ;;
           let bypass := fst bypass_elem_group in
           let elem_group := snd bypass_elem_group in
           (if negb bypass then
              g <- local elem_group ;;
              present <- group_contains g name ;;
              if present then raise ElementExists else ret tt
            else ret tt) ;;
           ret elem_group) ;;
      if negb (String.eqb element_type "labels") then local elem_group
      else ret root
  end.

(** The body of this static method is its docstring alone: it returns
    without touching [element]. *)
Definition set_transformation_in_memory (element : obj_id) (transformation : BaseTransformation) : M unit :=
  ret tt.

(** Modelled from the spec: [_overwrite_coordinate_transformations_raster]
    and [_overwrite_coordinate_transformations_non_raster] of
    [spatialdata._io.write], which rewrite the transformation metadata in the
    persisted store for that specific element group. *)
Definition _overwrite_coordinate_transformations (raster : bool) (group : ZarrGroup) (axes_ : list string) (transformation : BaseTransformation) : M unit :=
  match group with
  | Leaf st t n =>
      f <- gets fs ;;
      match members f st t !! n with
      | Some node =>
          match rewrite_transformations C raster axes_ transformation node with
          | Some node' => put_node (Sub st t) n node'
          | None => raise IOError
          end
      | None => raise KeyError
      end
  | _ => raise TypeError
  end.

(** The two loops of [set_transformation]: the matches found so far, and the
    element type and name of the last one. *)
Definition find_element (sd : SpatialData) (element : obj_id) : list obj_id * string * string :=
  foldl
    (fun acc element_type_attr =>
       foldl
         (fun acc element_name_value =>
            if Nat.eqb (snd element_name_value) element
            then ((fst (fst acc) ++ [snd element_name_value])%list,
                  fst element_type_attr, fst element_name_value)
            else acc)
         acc (items (attr_get (snd element_type_attr) sd)))
    ([], "", "")
    [("images", images); ("labels", labels); ("points", points);
     ("polygons", polygons); ("shapes", shapes)].

Definition set_transformation (element : obj_id) (transformation : BaseTransformation) : M unit :=
  set_transformation_in_memory element transformation ;;
  sd <- gets self ;;
  let found := fst (fst (find_element sd element)) in
  let found_element_type := snd (fst (find_element sd element)) in
  let found_element_name := snd (find_element sd element) in
  (if Nat.eqb (length found) 0 then raise ElementNotFound
   else if Nat.ltb 1 (length found) then raise AmbiguousElement
   else ret tt) ;;
  match path sd with
  | None => ret tt
  | Some _ =>
      group <- _get_group_for_element found_element_name found_element_type ;;
      axes_ <- get_dims element ;;
      o <- deref element ;;
      match py_class o with
      | SpatialImage =>
          _overwrite_coordinate_transformations true group axes_ transformation
      | MultiscaleSpatialImage => raise NotImplementedError
      | PaTable | GeoDataFrame | AnnData =>
          _overwrite_coordinate_transformations false group axes_ transformation
      | OtherClass => raise UnknownElementType
      end
  end.

Definition get_transformation (element : obj_id) : M (option BaseTransformation) :=
  _get_transform element.

(** Modelled from the spec: the writers [write_image], [write_points],
    [write_polygons], [write_shapes] and [write_table] of
    [spatialdata._io.write], which write the new payload under [name] in the
    group they are given, or fail. *)
Definition write_element (element_type : string) (element : obj_id) (group : ZarrGroup) (name : string) : M unit :=
  o <- deref element ;;
  match encode C element_type name o with
  | Some node => put_node group name node
  | None => raise IOError
  end.

Definition write_image := write_element "images".
Definition write_points := write_element "points".
Definition write_polygons := write_element "polygons".
Definition write_shapes := write_element "shapes".
Definition write_table := write_element "table".

(** Modelled from the spec: [write_labels] is given the root group and
    keeps the [labels] group itself (see [_init_add_element]). *)
Definition write_labels (labels_ : obj_id) (group : ZarrGroup) (name : string) : M unit :=
  labels_group <- require_group group "labels" ;;
  write_element "labels" labels_ labels_group name.

(** Modelled from the spec: [_read_multiscale] of [spatialdata._io.read],
    given [os.path.join(store.path, group, name)]; it returns a new,
    lazily-evaluated handle on what is stored there. *)
Definition _read_multiscale (store group name : string) (raster_type : RasterType) : M obj_id :=
  f <- gets fs ;;
  match members f store group !! name with
  | Some node =>
      match decode_multiscale C raster_type node with
      | Some o => alloc o
      | None => raise IOError
      end
  | None => raise IOError
  end.

(** Modelled from the spec: [_read_points] of [spatialdata._io.read], given
    the store of the group. *)
Definition _read_points (store : string) : M obj_id :=
  f <- gets fs ;;
  match decode_points C (root_of f store) with
  | Some o => alloc o
  | None => raise IOError
  end.

Definition add_image (name : string) (image : obj_id) (overwrite _add_in_memory : bool) : M unit :=
  (if _add_in_memory then _add_image_in_memory name image overwrite else ret tt) ;;
  backed <- is_backed ;;
  if backed then
    elem_group <- _init_add_element name "images" overwrite ;;
    image <- attr_getitem images name ;;
    write_image image elem_group name ;;
    assert_ (String.eqb (group_path elem_group) "images") ;;
    image <- _read_multiscale (store_path elem_group) "images" name raster_image ;;
    _add_image_in_memory name image true
  else ret tt.

Definition add_labels (name : string) (labels_ : obj_id) (overwrite _add_in_memory : bool) : M unit :=
  (if _add_in_memory then _add_labels_in_memory name labels_ overwrite else ret tt) ;;
  backed <- is_backed ;;
  if backed then
    elem_group <- _init_add_element name "labels" overwrite ;;
    labels_ <- attr_getitem labels name ;;
    write_labels labels_ elem_group name ;;
    assert_ (String.eqb (group_path elem_group) "") ;;
    labels_ <- _read_multiscale (store_path elem_group) "labels" name raster_labels ;;
    _add_labels_in_memory name labels_ true
  else ret tt.

Definition add_points (name : string) (points_ : obj_id) (overwrite _add_in_memory : bool) : M unit :=
  (if _add_in_memory then _add_points_in_memory name points_ overwrite else ret tt) ;;
  backed <- is_backed ;;
  if backed then
    elem_group <- _init_add_element name "points" overwrite ;;
    points_ <- attr_getitem points name ;;
    write_points points_ elem_group name ;;
    points_ <- _read_points (store_path elem_group) ;;
    _add_points_in_memory name points_ true
  else ret tt.

(** No reloading: the [GeoDataFrame] is not lazy loaded. *)
Definition add_polygons (name : string) (polygons_ : obj_id) (overwrite _add_in_memory : bool) : M unit :=
  (if _add_in_memory then _add_polygons_in_memory name polygons_ overwrite else ret tt) ;;
  backed <- is_backed ;;
  if backed then
    elem_group <- _init_add_element name "polygons" overwrite ;;
    polygons_ <- attr_getitem polygons name ;;
    write_polygons polygons_ elem_group name
  else ret tt.

(** No reloading: the [AnnData] is not lazy loaded. *)
Definition add_shapes (name : string) (shapes_ : obj_id) (overwrite _add_in_memory : bool) : M unit :=
  (if _add_in_memory then _add_shapes_in_memory name shapes_ overwrite else ret tt) ;;
  backed <- is_backed ;;
  if backed then
    elem_group <- _init_add_element name "shapes" overwrite ;;
    shapes_ <- attr_getitem shapes name ;;
    write_shapes shapes_ elem_group name
  else ret tt.

(** [parse_url(file_path, mode="r") is not None] *)
Definition store_exists (file_path : string) : M bool :=
  f <- gets fs ;;
  ret (bool_decide (is_Some (f !! file_path))).

(** [parse_url(file_path, mode="w").store], [zarr.group(store=store)] and
    [store.close()]. *)
Definition open_w (file_path : string) : M ZarrGroup :=
  modify (with_fs (fun f => <[file_path := group_w C (f !! file_path)]> f)) ;;
  ret (Root file_path).

(** One of the five blocks of the [try] of [write]. *)
Definition write_collection (root : ZarrGroup) (element_type : string) (a : Attr) (add : string -> obj_id -> bool -> bool -> M unit) : M unit :=
  n <- attr_len a ;;
  if Nat.ltb 0 n then
    create_group root element_type ;;
    keys <- attr_keys a ;;
    for_each keys (fun el =>
      element <- attr_getitem a el ;;
      add el element false false)
  else ret tt.

(** The [try] block of [write]. *)
Definition write_elements (root : ZarrGroup) : M unit :=
  write_collection root "images" images add_image ;;
  write_collection root "labels" labels add_labels ;;
  write_collection root "points" points add_points ;;
  write_collection root "polygons" polygons add_polygons ;;
  write_collection root "shapes" shapes add_shapes ;;
  sd <- gets self ;;
  match _table sd with
  | Some table =>
      elem_group <- create_group root "table" ;;
      write_table table elem_group "table"
  | None => ret tt
  end.

(** Everything [write] does before [self.path = file_path]. *)
Definition write_checks (file_path : string) (overwrite : bool) : M ZarrGroup :=
  backed <- is_backed ;;
  (if backed then
     sd <- gets self ;;
     if bool_decide (path sd = Some file_path) then raise SelfOverwrite
     else ret tt
   else ret tt) ;;
  exists_ <- (if negb overwrite then store_exists file_path else ret false) ;;
  if negb overwrite && exists_ then raise AlreadyExists
  else open_w file_path.

Definition write (file_path : string) (overwrite : bool) : M unit :=
  root <- write_checks file_path overwrite ;;
  modify (with_self (set_path (Some file_path))) ;;
  try_except (write_elements root)
    (fun e => modify (with_self (set_path None)) ;; raise e).

Definition __init__ (images_ labels_ points_ polygons_ shapes_ : option (list (string * obj_id))) (table : option obj_id) : M unit :=
  modify (with_self (set_path None)) ;;
  match images_ with
  | Some images_ =>
      modify (with_self (set_images (Dict []))) ;;
      for_each images_ (fun kv => _add_image_in_memory (fst kv) (snd kv) false)
  | None => ret tt
  end ;;
  match labels_ with
  | Some labels_ =>
      modify (with_self (set_labels (Dict []))) ;;
      for_each labels_ (fun kv => _add_labels_in_memory (fst kv) (snd kv) false)
  | None => ret tt
  end ;;
  match polygons_ with
  | Some polygons_ =>
      modify (with_self (set_polygons (Dict []))) ;;
      for_each polygons_ (fun kv => _add_polygons_in_memory (fst kv) (snd kv) false)
  | None => ret tt
  end ;;
  match shapes_ with
  | Some shapes_ =>
      modify (with_self (set_shapes (Dict []))) ;;
      for_each shapes_ (fun kv => _add_shapes_in_memory (fst kv) (snd kv) false)
  | None => ret tt
  end ;;
  match points_ with
  | Some points_ =>
      modify (with_self (set_points (Dict []))) ;;
      for_each points_ (fun kv => _add_points_in_memory (fst kv) (snd kv) false)
  | None => ret tt
  end ;;
  match table with
  | Some t =>
      validate Table_s t ;;
      modify (with_self (set_table (Some t)))
  | None => ret tt
  end.

(** [SpatialData(...)]: [__init__] runs on a new instance, which shows the
    class attributes; the caller's [self] is not the new instance. *)
Definition SpatialData_ (images_ labels_ points_ polygons_ shapes_ : option (list (string * obj_id))) (table : option obj_id) : M SpatialData :=
  fun s =>
    let rs := __init__ images_ labels_ points_ polygons_ shapes_ table
                {| self := class_attributes; heap := heap s; fs := fs s |} in
    let s' := {| self := self s; heap := heap (snd rs); fs := fs (snd rs) |} in
    match fst rs with
    | Ok _ => (Ok (self (snd rs)), s')
    | Raise e => (Raise e, s')
    end.

(** [for x in l: out.append(f x)] *)
Fixpoint map_M {A B} (f : A -> M B) (l : list A) : M (list B) :=
  match l with
  | [] => ret []
  | x :: l' => y <- f x ;; ys <- map_M f l' ;; ret (y :: ys)
  end.

(** Modelled from the spec: [_bounding_box_query_points_dict] of
    [spatialdata._core._spatial_query]; it reads the elements of the
    dictionary, keeps of each the rows inside the box, and returns a
    dictionary of new elements. *)
Definition _bounding_box_query_points_dict (points_dict : Mapping) (request : BoundingBoxRequest) : M (list (string * obj_id)) :=
  elements <- map_M (fun kv => o <- deref (snd kv) ;; ret (fst kv, o)) (items points_dict) ;;
  match query_points C elements request with
  | Some requested =>
      map_M (fun ko => r <- alloc (snd ko) ;; ret (fst ko, r)) requested
  | None => raise TypeError
  end.

(** [QueryManager.bounding_box], with [self._sdata] the container of the
    state. *)
Definition bounding_box (request : BoundingBoxRequest) : M SpatialData :=
  sd <- gets self ;;
  requested_points <- _bounding_box_query_points_dict (_points sd) request ;;
  SpatialData_ (Some []) (Some []) (Some requested_points) (Some []) (Some []) None.

(** [QueryManager.__call__] *)
Definition __call__ (request : BaseSpatialRequest) : M SpatialData :=
  match request with
  | IsBoundingBoxRequest r => bounding_box r
  | OtherRequest => raise UnknownRequestType
  end.

(** [_gen_elements]: the values of the five collections, images first. *)
Definition _gen_elements : M (list obj_id) :=
  sd <- gets self ;;
  ret (flat_map (fun a => map snd (items (attr_get a sd)))
         [images; labels; points; polygons; shapes]).

(** [_non_empty_elements]: the names, in the order of [all_elements], of the
    attributes that are not [None] and have a positive [len]; the [len] of a
    table is its number of rows. *)
Definition _non_empty_elements : M (list string) :=
  sd <- gets self ;;
  table_len <-
    match _table sd with
    | Some table => o <- deref table ;; ret (Some (length (rows o)))
    | None => ret None
    end ;;
  ret (map fst
         (filter (fun element => 0 < length (items (attr_get (snd element) sd)))
            [("images", images); ("labels", labels); ("points", points);
             ("polygons", polygons); ("shapes", shapes)])
       ++ match table_len with
          | Some n => if Nat.ltb 0 n then ["table"] else []
          | None => []
          end)%list.

End SpatialData.

(** ** Element kinds *)

Inductive Kind :=
  | KImages
  | KLabels
  | KPoints
  | KPolygons
  | KShapes.

Definition kind_attr (k : Kind) : Attr :=
  match k with
  | KImages => images
  | KLabels => labels
  | KPoints => points
  | KPolygons => polygons
  | KShapes => shapes
  end.

Definition kind_name (k : Kind) : string :=
  match k with
  | KImages => "images"
  | KLabels => "labels"
  | KPoints => "points"
  | KPolygons => "polygons"
  | KShapes => "shapes"
  end.

(** [_add_<kind>_in_memory] *)
Definition _add_in_memory (C : Collaborators) (k : Kind) : string -> obj_id -> bool -> M unit :=
  match k with
  | KImages => _add_image_in_memory C
  | KLabels => _add_labels_in_memory C
  | KPoints => _add_points_in_memory C
  | KPolygons => _add_polygons_in_memory C
  | KShapes => _add_shapes_in_memory C
  end.

(** [add_<kind>] *)
Definition add (C : Collaborators) (k : Kind) : string -> obj_id -> bool -> bool -> M unit :=
  match k with
  | KImages => add_image C
  | KLabels => add_labels C
  | KPoints => add_points C
  | KPolygons => add_polygons C
  | KShapes => add_shapes C
  end.

(** [self.<kind>.get(name)] in a state. *)
Definition entry (k : Kind) (name : string) (s : State) : option obj_id :=
  PyDict.get name (items (attr_get (kind_attr k) (self s))).

(** The state after the name check of [_add_<kind>_in_memory] has passed:
    an entry under [name] has been deleted. *)
Definition cleared (k : Kind) (name : string) (s : State) : State :=
  if PyDict.contains name (items (attr_get (kind_attr k) (self s)))
  then with_self (attr_set (kind_attr k)
         (Dict (PyDict.del name (items (attr_get (kind_attr k) (self s)))))) s
  else s.

(** What the reader of a kind makes of the store at [p] for [name]; the
    polygons and shapes have no reader in [add_<kind>]. *)
Definition reloaded (C : Collaborators) (k : Kind) (f : gmap string Store) (p name : string) : option PyObj :=
  match k with
  | KImages => (members f p "images" !! name) ≫= decode_multiscale C raster_image
  | KLabels => (members f p "labels" !! name) ≫= decode_multiscale C raster_labels
  | KPoints => decode_points C (root_of f p)
  | KPolygons | KShapes => None
  end.

(** ** Calls in sequence *)

Inductive Op :=
  | OpAdd (k : Kind) (name : string) (element : obj_id) (overwrite _add_in_memory : bool)
  | OpSetTransformation (element : obj_id) (transformation : BaseTransformation)
  | OpQuery (request : BaseSpatialRequest)
  | OpWrite (file_path : string) (overwrite : bool).

Definition is_ok {A} (r : Result A) : bool :=
  match r with Ok _ => true | Raise _ => false end.

(** The state a call leaves, whether it returns or raises. *)
Definition run_op (C : Collaborators) (op : Op) (s : State) : State :=
  match op with
  | OpAdd k name element overwrite _add_in_memory =>
      snd (add C k name element overwrite _add_in_memory s)
  | OpSetTransformation element transformation =>
      snd (set_transformation C element transformation s)
  | OpQuery request => snd (__call__ C request s)
  | OpWrite file_path overwrite => snd (write C file_path overwrite s)
  end.

(** A [write] that passes its checks and then raises from its [try]. *)
Definition fails_midway (C : Collaborators) (op : Op) (s : State) : bool :=
  match op with
  | OpWrite file_path overwrite =>
      is_ok (fst (write_checks C file_path overwrite s))
      && negb (is_ok (fst (write C file_path overwrite s)))
  | _ => false
  end.

Fixpoint run_ops (C : Collaborators) (ops : list Op) (s : State) : State :=
  match ops with
  | [] => s
  | op :: ops' => run_ops C ops' (run_op C op s)
  end.

Fixpoint no_midway_failure (C : Collaborators) (ops : list Op) (s : State) : bool :=
  match ops with
  | [] => true
  | op :: ops' =>
      negb (fails_midway C op s) && no_midway_failure C ops' (run_op C op s)
  end.

(** ** A concrete set of collaborators *)

Module Demo.

(** Modelled from the spec: the structural constraints of the schemas: two
    or three axes for labels, three or four for images, a recorded
    transformation for points, polygons and shapes. *)
Definition validates (schema : Schema) (o : PyObj) : bool :=
  match schema with
  | Label2D_s => Nat.eqb (length (dims o)) 2
  | Label3D_s => Nat.eqb (length (dims o)) 3
  | Image2D_s => Nat.eqb (length (dims o)) 3
  | Image3D_s => Nat.eqb (length (dims o)) 4
  | Polygon_s | Point_s | Shape_s =>
      match transform o with Some _ => true | None => false end
  | Table_s => true
  end.

(** A writer that fails on the element named [broken]. *)
Definition encode (element_type name : string) (o : PyObj) : option ZNode :=
  if String.eqb name "broken" then None else Some (Written o).

Definition decode_multiscale (raster_type : RasterType) (node : ZNode) : option PyObj :=
  match node with
  | Written o => Some o
  | EmptyGroup => None
  end.

Definition decode_points (store : Store) : option PyObj :=
  match map_to_list (default ∅ (store !! "points")) with
  | (_, Written o) :: _ => Some o
  | _ => None
  end.

Definition rewrite_transformations (raster : bool) (axes_ : list string) (t : BaseTransformation) (node : ZNode) : option ZNode :=
  match node with
  | Written o => Some (Written (mkObj (py_class o) (dims o) (Some t) (rows o)))
  | EmptyGroup => None
  end.

(** Modelled from the spec: a fresh empty store is created at the
    location. *)
Definition group_w (previous : option Store) : Store := ∅.

(** The coordinate of a row on an axis. *)
Fixpoint coordinate (dims_ : list string) (row : list Z) (axis : string) : option Z :=
  match dims_, row with
  | d :: dims', c :: row' =>
      if String.eqb d axis then Some c else coordinate dims' row' axis
  | _, _ => None
  end.

Fixpoint row_in_box (dims_ : list string) (row : list Z) (axes_ : list string) (lo hi : list Z) : bool :=
  match axes_, lo, hi with
  | a :: axes', l :: lo', h :: hi' =>
      match coordinate dims_ row a with
      | Some c => (l <=? c)%Z && (c <=? h)%Z && row_in_box dims_ row axes' lo' hi'
      | None => false
      end
  | _, _, _ => true
  end.

(** Modelled from the spec: every row of a points element is tested for
    [min <= coordinate <= max] on each axis of the request, rows failing any
    axis are dropped, and an element left without rows is omitted. *)
Fixpoint query_points (elements : list (string * PyObj)) (request : BoundingBoxRequest) : option (list (string * PyObj)) :=
  match elements with
  | [] => Some []
  | (name, o) :: elements' =>
      let kept :=
        filter (fun row => Is_true (row_in_box (dims o) row (axes request)
                  (min_coordinate request) (max_coordinate request))) (rows o) in
      match query_points elements' request with
      | Some rest =>
          match kept with
          | [] => Some rest
          | _ => Some ((name, mkObj (py_class o) (dims o) (transform o) kept) :: rest)
          end
      | None => None
      end
  end.

Definition collaborators : Collaborators :=
  mkCollaborators validates encode decode_multiscale decode_points
    rewrite_transformations group_w query_points.

Definition cyx : list string := ["c"; "y"; "x"].
Definition xy : list string := ["x"; "y"].

Definition image0 : PyObj := mkObj SpatialImage cyx (Some Identity) [].
Definition table0 : PyObj := mkObj PaTable xy (Some Identity) [[1; 1]; [6; 6]; [5; 5]]%Z.
Definition frame0 : PyObj := mkObj GeoDataFrame xy (Some Identity) [].

Definition empty_container : SpatialData :=
  mkSpatialData (Dict []) (Dict []) (Dict []) (Dict []) (Dict []) None None.

(** An unbacked container with one points element. *)
Definition unbacked_points : State :=
  mkState
    (mkSpatialData (Dict []) (Dict []) (Dict [("p", 0)]) (Dict []) (Dict []) None None)
    {[ 0 := table0 ]} ∅.

(** An unbacked, empty container, an image object, and a store at
    [store.zarr]. *)
Definition unbacked_empty : State :=
  mkState empty_container {[ 0 := image0 ]} {[ "store.zarr" := ∅ ]}.

(** The box [x in [0, 5], y in [0, 5]]. *)
Definition box : BoundingBoxRequest := mkRequest xy [0; 0]%Z [5; 5]%Z.

(** The container the query for [box] on [unbacked_points] returns. *)
Definition queried : SpatialData :=
  mkSpatialData (Dict []) (Dict []) (Dict [("p", 1)]) (Dict []) (Dict []) None None.

(** A container backed by the store at [store.zarr], and two objects not
    yet in it. *)
Definition backed : State :=
  mkState (set_path (Some "store.zarr") empty_container)
    {[ 0 := frame0; 1 := image0 ]} {[ "store.zarr" := ∅ ]}.

Definition backed_with_image : State :=
  snd (add collaborators KImages "a" 1 false true backed).

(** An unbacked container with two images; the writer fails on the
    second. *)
Definition unbacked_two_images : State :=
  mkState
    (mkSpatialData (Dict [("a", 0); ("broken", 1)]) (Dict []) (Dict []) (Dict [])
       (Dict []) None None)
    {[ 0 := image0; 1 := image0 ]} ∅.

(** An unbacked container with one image, and the calls that back it by
    [old.zarr], add in memory an image the writer fails on, and write to
    [new.zarr]. *)
Definition unbacked_one_image : State :=
  mkState
    (mkSpatialData (Dict [("a", 0)]) (Dict []) (Dict []) (Dict []) (Dict []) None None)
    {[ 0 := image0; 1 := image0 ]} ∅.

Definition backed_by_write : State :=
  run_op collaborators (OpWrite "old.zarr" false) unbacked_one_image.

Definition failing_calls : list Op :=
  [ OpAdd KImages "broken" 1 false true; OpWrite "new.zarr" false ].

(** Calls on [backed]: two adds, a transformation, a query, a [write] that
    is rejected and a [write] that succeeds. *)
Definition calls : list Op :=
  [ OpAdd KImages "a" 1 false true;
    OpAdd KImages "a" 1 false true;
    OpSetTransformation 2 (Scale [2; 2]%Z);
    OpQuery (IsBoundingBoxRequest box);
    OpWrite "store.zarr" true;
    OpWrite "new.zarr" false ].

End Demo.

(** ** Relations between the state before and after a call

    [respects R m]: the state [m] leaves, returning or raising, is related by
    [R] to the state it started from. *)

Definition respects (R : State -> State -> Prop) {A} (m : M A) : Prop :=
  ∀ s, R s (snd (m s)).

(** The elementary mutations a relation may allow: assigning a collection
    attribute, allocating an object, changing the stores. *)
Definition assignable (R : State -> State -> Prop) (a : Attr) : Prop :=
  ∀ m s, R s (with_self (attr_set a m) s).

Definition allocating (R : State -> State -> Prop) : Prop :=
  ∀ o s, R s (with_heap (insert (fresh (dom (heap s))) o) s).

Definition storing (R : State -> State -> Prop) : Prop :=
  ∀ f s, R s (with_fs f s).

Definition same_path (s s' : State) : Prop := path (self s') = path (self s).

Definition same_self (s s' : State) : Prop := self s' = self s.

Definition heap_grows (s s' : State) : Prop := heap s ⊆ heap s'.

(** The source of a query is left alone: its container and the stores are
    the same and no object it can reach has changed. *)
Definition source_unchanged (s s' : State) : Prop :=
  self s' = self s ∧ fs s' = fs s ∧ heap s ⊆ heap s'.

(** The parts of the container [write] does not reload. *)
Definition same_polygons_shapes_table (s s' : State) : Prop :=
  _polygons (self s') = _polygons (self s) ∧
  _shapes (self s') = _shapes (self s) ∧
  _table (self s') = _table (self s).

Definition unbacked_stays (s s' : State) : Prop :=
  path (self s) = None → path (self s') = None.

Definition same_self_heap (s s' : State) : Prop :=
  self s' = self s ∧ heap s' = heap s.

(** Everything of the container but its points. *)
Definition same_but_points (s s' : State) : Prop :=
  _images (self s') = _images (self s) ∧ _labels (self s') = _labels (self s) ∧
  _polygons (self s') = _polygons (self s) ∧ _shapes (self s') = _shapes (self s) ∧
  _table (self s') = _table (self s) ∧ path (self s') = path (self s).

Definition same_fs_heap_grows (s s' : State) : Prop :=
  fs s' = fs s ∧ heap s ⊆ heap s'.

(** Since state [si], objects have only been added, and every entry is the
    entry [si] had under that name or an object made since. *)
Definition entries_old_or_new (si s : State) : Prop :=
  heap si ⊆ heap s ∧
  ∀ k n r, entry k n s = Some r → entry k n si = Some r ∨ r ∉ dom (heap si).

Definition keeps_old_or_new (si s s' : State) : Prop :=
  entries_old_or_new si s → entries_old_or_new si s'.

(** The elements of a dictionary, as [_bounding_box_query_points_dict]
    reads them. *)
Definition element_objects (h : gmap obj_id PyObj) (d : list (string * obj_id)) : list (string * PyObj) :=
  omap (fun kv => o ← h !! snd kv; Some (fst kv, o)) d.

(** ** Outcomes of a backed add

    From state [s] to state [s'], for the element the caller gave under
    [name], in a container backed by the store at [p]. *)

(** The payload of the caller's element is in the store under the kind's
    group. *)
Definition persisted (C : Collaborators) (name p : string) (element : obj_id) (s s' : State) (k : Kind) : Prop :=
  ∃ o node, heap s !! element = Some o ∧
    encode C (kind_name k) name o = Some node ∧
    members (fs s') p (kind_name k) !! name = Some node.

(** The entry is a new handle, reloaded from the store. *)
Definition entry_reloaded (C : Collaborators) (name p : string) (element : obj_id) (s s' : State) (k : Kind) : Prop :=
  ∃ r o', entry k name s' = Some r ∧ r ≠ element ∧ (r ∉ dom (heap s)) ∧
    reloaded C k (fs s') p name = Some o' ∧ heap s' = <[r := o']> (heap s).

(** The entry is the caller's object, and no handle was made. *)
Definition entry_kept (name : string) (element : obj_id) (s s' : State) (k : Kind) : Prop :=
  entry k name s' = Some element ∧ heap s' = heap s.

(** ** Outcomes of the operations *)

(** The values of the five collections, as [_gen_elements] yields them. *)
Definition elements_of (sd : SpatialData) : list obj_id :=
  flat_map (fun a => map snd (items (attr_get a sd)))
    [images; labels; points; polygons; shapes].

(** One collection scanned by the inner loop of [set_transformation]. *)
Definition scan (element : obj_id) (element_type : string) (acc : list obj_id * string * string) (d : list (string * obj_id)) : list obj_id * string * string :=
  foldl
    (fun acc element_name_value =>
       if Nat.eqb (snd element_name_value) element
       then ((fst (fst acc) ++ [snd element_name_value])%list,
             element_type, fst element_name_value)
       else acc)
    acc d.

(** How often the object is a value of the collections: the [len(found)] of
    [set_transformation]. *)
Definition occurrences (element : obj_id) (sd : SpatialData) : nat :=
  length (filter (fun v => v = element) (elements_of sd)).

(** The node a transformation is rewritten in: what the store has under the
    element's name, or the empty group [require_group] makes. *)
Definition element_node (f : gmap string Store) (p : string) (k : Kind) (name : string) : ZNode :=
  default EmptyGroup (members f p (kind_name k) !! name).

(** The state after a successful add: the old entry of the name is gone and
    the new one is the last of the dictionary. *)
Definition added (k : Kind) (name : string) (element : obj_id) (s : State) : State :=
  with_self (attr_set (kind_attr k)
    (Dict (PyDict.del name (items (attr_get (kind_attr k) (self s)))
           ++ [(name, element)])%list)) s.

(** [self.<kind>[name] = element] once the name check of
    [_add_<kind>_in_memory] has passed: the element is the entry of the name,
    the last of the dictionary; the class attribute, a [mappingproxy], does
    not support item assignment. *)
Definition inserted (k : Kind) (name : string) (element : obj_id) (s : State) : Result unit * State :=
  match attr_get (kind_attr k) (self s) with
  | Dict _ => (Ok tt, added k name element s)
  | MappingProxyType_empty => (Raise TypeError, s)
  end.

(** The container of [added]. *)
Definition add_entry (k : Kind) (name : string) (element : obj_id) (sd : SpatialData) : SpatialData :=
  attr_set (kind_attr k)
    (Dict (PyDict.del name (items (attr_get (kind_attr k) sd)) ++ [(name, element)])%list) sd.

(** What [add_<kind>(name, _, overwrite=False, _add_in_memory=False)] has done
    when it returns on a backed container. *)
Definition stored (C : Collaborators) (k : Kind) (name p : string) (s s' : State) : Prop :=
  ∃ r0 o node,
    entry k name s = Some r0 ∧ heap s !! r0 = Some o ∧
    encode C (kind_name k) name o = Some node ∧
    members (fs s') p (kind_name k) !! name = Some node ∧
    (∀ t n, t ≠ kind_name k ∨ n ≠ name →
       members (fs s') p t !! n = members (fs s) p t !! n) ∧
    match k with
    | KPolygons | KShapes => self s' = self s ∧ heap s' = heap s
    | _ => ∃ o', reloaded C k (fs s') p name = Some o' ∧
             self s' = add_entry k name (fresh (dom (heap s))) (self s) ∧
             heap s' = <[fresh (dom (heap s)) := o']> (heap s)
    end.

(** The kinds whose entry [add_<kind>] replaces by a handle read back from
    the store. *)
Definition reloads (k : Kind) : bool :=
  match k with KPolygons | KShapes => false | _ => true end.

(** What a returned [write] has made of an entry [old] of a collection, in
    the end state [s'] ([h0] are the objects there were before): the payload
    of the object is in the store at [p] under the same name, and the entry
    [new] is the same object for polygons and shapes and a handle made since
    for the other kinds, for images and labels on the object decoded from
    what was stored. *)
Definition written (C : Collaborators) (k : Kind) (p : string) (h0 : gmap obj_id PyObj) (s' : State) (old new : string * obj_id) : Prop :=
  fst new = fst old ∧
  ∃ o node,
    heap s' !! snd old = Some o ∧
    encode C (kind_name k) (fst old) o = Some node ∧
    members (fs s') p (kind_name k) !! fst old = Some node ∧
    match k with
    | KImages =>
        (snd new ∉ dom h0) ∧
        ∃ o', decode_multiscale C raster_image node = Some o' ∧
              heap s' !! snd new = Some o'
    | KLabels =>
        (snd new ∉ dom h0) ∧
        ∃ o', decode_multiscale C raster_labels node = Some o' ∧
              heap s' !! snd new = Some o'
    | KPoints => (snd new ∉ dom h0) ∧ is_Some (heap s' !! snd new)
    | KPolygons | KShapes => snd new = snd old
    end.

(** The body of the loop of [write_collection] over a collection. *)
Definition write_one (C : Collaborators) (k : Kind) (el : string) : M unit :=
  element <- attr_getitem (kind_attr k) el ;;
  add C k el element false false.

(** One block of the [try] of [write], when it returns. *)
Definition collection_written (C : Collaborators) (k : Kind) (p : string) (s s' : State) : Prop :=
  Forall2 (written C k p (heap s) s')
    (items (attr_get (kind_attr k) (self s)))
    (items (attr_get (kind_attr k) (self s'))) ∧
  self s' = attr_set (kind_attr k) (attr_get (kind_attr k) (self s')) (self s) ∧
  heap s ⊆ heap s' ∧
  (∀ t n, t ≠ kind_name k → members (fs s') p t !! n = members (fs s) p t !! n).

(** The table block of the [try] of [write]. *)
Definition table_written (C : Collaborators) (p : string) (s s' : State) : Prop :=
  match _table (self s) with
  | Some table =>
      ∃ o node, heap s' !! table = Some o ∧
        encode C "table" "table" o = Some node ∧
        members (fs s') p "table" !! "table" = Some node
  | None => True
  end.

(** The group [_init_add_element] returns for a kind: the root for labels. *)
Definition element_type_group (k : Kind) (p : string) : ZarrGroup :=
  match k with KLabels => Root p | _ => Sub p (kind_name k) end.

(** What [_add_<kind>_in_memory] asks of an object: the schema selected for
    it validates it. *)
Definition accepts (C : Collaborators) (k : Kind) (o : PyObj) : bool :=
  match k with
  | KImages =>
      if Nat.eqb (length (dims o)) 3 then validates C Image2D_s o
      else if Nat.eqb (length (dims o)) 4 then validates C Image3D_s o
      else false
  | KLabels =>
      if Nat.eqb (length (dims o)) 2 then validates C Label2D_s o
      else if Nat.eqb (length (dims o)) 3 then validates C Label3D_s o
      else false
  | KPoints => validates C Point_s o
  | KPolygons => validates C Polygon_s o
  | KShapes => validates C Shape_s o
  end.

(** The collection [__init__] leaves for an argument: the class attribute
    when it is [None]. *)
Definition collection_of (a : option (list (string * obj_id))) : Mapping :=
  match a with Some l => Dict l | None => MappingProxyType_empty end.

(** An argument of [__init__] for a kind: the names are distinct, as the
    keys of a dictionary are, and every element is an object the kind
    accepts. *)
Definition acceptable (C : Collaborators) (k : Kind) (h : gmap obj_id PyObj) (a : option (list (string * obj_id))) : Prop :=
  NoDup (map fst (default [] a)) ∧
  Forall (fun kv => ∃ o, h !! snd kv = Some o ∧ accepts C k o = true) (default [] a).

(** The store at [q] is left alone and [path] is not assigned. *)
Definition store_untouched (q : string) (s s' : State) : Prop :=
  fs s' !! q = fs s !! q ∧ path (self s') = path (self s).

(** Further example states. *)
Module Example.

(** An unbacked container with two images, a points element, a polygons
    element and a table. *)
Definition mixed : State :=
  mkState
    (mkSpatialData (Dict [("a", 0); ("b", 1)]) (Dict []) (Dict [("p", 2)])
       (Dict [("g", 3)]) (Dict []) (Some 4) None)
    {[ 0 := Demo.image0; 1 := Demo.image0; 2 := Demo.table0; 3 := Demo.frame0;
       4 := Demo.table0 ]} ∅.

(** A backed, empty container whose store holds an image under [a]. *)
Definition stale_store : State :=
  mkState (set_path (Some "store.zarr") Demo.empty_container)
    {[ 0 := Demo.frame0; 1 := Demo.image0 ]}
    {[ "store.zarr" := {[ "images" := {[ "a" := Written Demo.image0 ]} ]} ]}.

(** A container backed by [store.zarr], beside a store it does not use. *)
Definition two_stores : State :=
  mkState (set_path (Some "store.zarr") Demo.empty_container)
    {[ 0 := Demo.frame0; 1 := Demo.image0 ]}
    {[ "store.zarr" := ∅;
       "other.zarr" := {[ "images" := {[ "a" := Written Demo.image0 ]} ]} ]}.

End Example.

(** * Properties *)

(** ** Dictionaries *)

Lemma get_set_eq {V} k (v : V) d : PyDict.get k (PyDict.set k v d) = Some v.
Proof.
  induction d as [|[k' v'] d IH]; simpl.
  - by rewrite String.eqb_refl.
  - destruct (String.eqb k k') eqn:E; simpl; rewrite E; done.
Qed.

Lemma get_set_ne {V} k k' (v : V) d :
  k ≠ k' → PyDict.get k' (PyDict.set k v d) = PyDict.get k' d.
Proof.
  intros Hne. induction d as [|[k0 v0] d IH]; simpl.
  - destruct (String.eqb k' k) eqn:E; [|done].
    apply String.eqb_eq in E. congruence.
  - destruct (String.eqb k k0) eqn:E; simpl.
    + apply String.eqb_eq in E. subst k0.
      destruct (String.eqb k' k) eqn:E'; [|done].
      apply String.eqb_eq in E'. congruence.
    + by rewrite IH.
Qed.

Lemma get_del_eq {V} k (d : list (string * V)) : PyDict.get k (PyDict.del k d) = None.
Proof.
  induction d as [|[k' v'] d IH]; simpl; [done|].
  destruct (String.eqb k k') eqn:E; simpl; [done|]. by rewrite E.
Qed.

Lemma get_del_ne {V} k k' (d : list (string * V)) :
  k ≠ k' → PyDict.get k' (PyDict.del k d) = PyDict.get k' d.
Proof.
  intros Hne. induction d as [|[k0 v0] d IH]; simpl; [done|].
  destruct (String.eqb k k0) eqn:E; simpl.
  - apply String.eqb_eq in E. subst k0.
    destruct (String.eqb k' k) eqn:E'; [|done].
    apply String.eqb_eq in E'. congruence.
  - by rewrite IH.
Qed.

Lemma contains_false {V} k (d : list (string * V)) :
  PyDict.contains k d = false ↔ PyDict.get k d = None.
Proof. unfold PyDict.contains. by destruct (PyDict.get k d). Qed.

Lemma contains_true {V} k (d : list (string * V)) :
  PyDict.contains k d = true ↔ is_Some (PyDict.get k d).
Proof.
  unfold PyDict.contains. destruct (PyDict.get k d) eqn:E; split; intros H; try done.
  all: first [by eexists | by destruct H].
Qed.

(** ** The monad *)

Lemma bind_Ok {A B} (m : M A) (k : A -> M B) s b s' :
  bind m k s = (Ok b, s') → ∃ a s1, m s = (Ok a, s1) ∧ k a s1 = (Ok b, s').
Proof.
  unfold bind. destruct (m s) as [[a|e] s1]; [eauto | discriminate].
Qed.

Lemma bind_Raise {A B} (m : M A) (k : A -> M B) s e s' :
  bind m k s = (Raise e, s') →
  m s = (Raise e, s') ∨ ∃ a s1, m s = (Ok a, s1) ∧ k a s1 = (Raise e, s').
Proof.
  unfold bind. destruct (m s) as [[a|e0] s1]; intros H.
  - right. by exists a, s1.
  - left. by injection H as -> ->.
Qed.

Lemma bind_eq_Ok {A B} (m : M A) (k : A -> M B) s a s1 :
  m s = (Ok a, s1) → bind m k s = k a s1.
Proof. unfold bind. by intros ->. Qed.

Lemma bind_eq_Raise {A B} (m : M A) (k : A -> M B) s e s1 :
  m s = (Raise e, s1) → bind m k s = (Raise e, s1).
Proof. unfold bind. by intros ->. Qed.

(** ** Frames

    [respects R m]: the state [m] leaves, returning or raising, is related by
    [R] to the state it started from. For a preorder [R] that allows a set
    of elementary mutations, every computation built from those mutations
    respects [R]. *)

Section Frame.

Variable C : Collaborators.
Variable R : State -> State -> Prop.
Hypothesis R_refl : ∀ s, R s s.
Hypothesis R_trans : ∀ s1 s2 s3, R s1 s2 → R s2 s3 → R s1 s3.

Lemma respects_ret {A} (a : A) : respects R (ret a).
Proof. intros s. apply R_refl. Qed.

Lemma respects_raise {A} e : respects R (@raise A e).
Proof. intros s. apply R_refl. Qed.

Lemma respects_gets {A} (f : State -> A) : respects R (gets f).
Proof. intros s. apply R_refl. Qed.

Lemma respects_bind {A B} (m : M A) (k : A -> M B) :
  respects R m → (∀ a, respects R (k a)) → respects R (bind m k).
Proof.
  intros Hm Hk s. unfold bind. specialize (Hm s).
  destruct (m s) as [[a|e] s1]; simpl in *; [|exact Hm].
  eapply R_trans; [exact Hm | apply Hk].
Qed.

Lemma respects_try_except {A} (m : M A) (h : Error -> M A) :
  respects R m → (∀ e, respects R (h e)) → respects R (try_except m h).
Proof.
  intros Hm Hh s. unfold try_except. specialize (Hm s).
  destruct (m s) as [[a|e] s1]; simpl in *; [exact Hm|].
  eapply R_trans; [exact Hm | apply Hh].
Qed.

Lemma respects_for_each {A} (l : list A) (body : A -> M unit) :
  (∀ x, respects R (body x)) → respects R (for_each l body).
Proof.
  intros Hb. induction l as [|x l IH]; simpl.
  - apply respects_ret.
  - apply respects_bind; [apply Hb | intros _; exact IH].
Qed.

Lemma respects_map_M {A B} (f : A -> M B) (l : list A) :
  (∀ x, respects R (f x)) → respects R (map_M f l).
Proof.
  intros Hf. induction l as [|x l IH]; simpl.
  - apply respects_ret.
  - apply respects_bind; [apply Hf | intros y].
    apply respects_bind; [exact IH | intros ys; apply respects_ret].
Qed.

Lemma respects_modify (f : State -> State) :
  (∀ s, R s (f s)) → respects R (modify f).
Proof. intros Hf s. apply Hf. Qed.

Ltac frame_step :=
  match goal with
  | |- respects _ (bind _ _) => apply respects_bind; [|intros ?]
  | |- respects _ (ret _) => apply respects_ret
  | |- respects _ (raise _) => apply respects_raise
  | |- respects _ (gets _) => apply respects_gets
  | |- respects _ (for_each _ _) => apply respects_for_each; intros ?
  | |- respects _ (map_M _ _) => apply respects_map_M; intros ?
  | |- respects _ (try_except _ _) => apply respects_try_except; [|intros ?]
  | |- respects _ (if ?b then _ else _) => destruct b
  | |- respects _ (match ?x with _ => _ end) => destruct x
  | |- _ => progress cbv zeta
  end.

Ltac frame := repeat frame_step; eauto.

(** *** Computations that only read *)

Lemma respects_assert b : respects R (assert_ b).
Proof. unfold assert_. frame. Qed.

Lemma respects_local {A} (v : option A) : respects R (local v).
Proof. unfold local. frame. Qed.

Lemma respects_deref r : respects R (deref r).
Proof. unfold deref. frame. Qed.

Lemma respects_validate schema element : respects R (validate C schema element).
Proof. unfold validate. frame. apply respects_deref. Qed.

Lemma respects_get_dims element : respects R (get_dims element).
Proof. unfold get_dims. frame. apply respects_deref. Qed.

Lemma respects_get_transformation element : respects R (get_transformation element).
Proof. unfold get_transformation, _get_transform. frame. apply respects_deref. Qed.

Lemma respects_is_backed : respects R is_backed.
Proof. unfold is_backed. frame. Qed.

Lemma respects_attr_contains a name : respects R (attr_contains a name).
Proof. unfold attr_contains. frame. Qed.

Lemma respects_attr_len a : respects R (attr_len a).
Proof. unfold attr_len. frame. Qed.

Lemma respects_attr_keys a : respects R (attr_keys a).
Proof. unfold attr_keys. frame. Qed.

Lemma respects_attr_getitem a name : respects R (attr_getitem a name).
Proof. unfold attr_getitem. frame. Qed.

Lemma respects_open_root store : respects R (open_root store).
Proof. unfold open_root. frame. Qed.

Lemma respects_group_contains g key : respects R (group_contains g key).
Proof. unfold group_contains. frame. Qed.

Lemma respects_group_getitem g key : respects R (group_getitem g key).
Proof. unfold group_getitem. frame. apply respects_group_contains. Qed.

Lemma respects_store_exists file_path : respects R (store_exists file_path).
Proof. unfold store_exists. frame. Qed.

Lemma respects_set_transformation_in_memory element t :
  respects R (set_transformation_in_memory element t).
Proof. unfold set_transformation_in_memory. frame. Qed.

(** *** Assignments to a collection attribute *)

Lemma respects_attr_delitem a name :
  assignable R a → respects R (attr_delitem a name).
Proof.
  intros Ha. unfold attr_delitem. frame. apply respects_modify. intros s. apply Ha.
Qed.

Lemma respects_attr_setitem a name v :
  assignable R a → respects R (attr_setitem a name v).
Proof.
  intros Ha. unfold attr_setitem. frame. apply respects_modify. intros s. apply Ha.
Qed.

#[local] Hint Resolve respects_assert respects_local respects_deref respects_validate
  respects_get_dims respects_is_backed respects_attr_contains respects_attr_len
  respects_attr_keys respects_attr_getitem respects_open_root
  respects_group_contains respects_group_getitem respects_store_exists
  respects_attr_delitem respects_attr_setitem
  respects_set_transformation_in_memory respects_get_transformation : core.

Lemma respects__add_image_in_memory name image overwrite :
  assignable R images → respects R (_add_image_in_memory C name image overwrite).
Proof. intros Ha. unfold _add_image_in_memory. frame. Qed.

Lemma respects__add_labels_in_memory name labels_ overwrite :
  assignable R labels → respects R (_add_labels_in_memory C name labels_ overwrite).
Proof. intros Ha. unfold _add_labels_in_memory. frame. Qed.

Lemma respects__add_polygons_in_memory name polygons_ overwrite :
  assignable R polygons → respects R (_add_polygons_in_memory C name polygons_ overwrite).
Proof. intros Ha. unfold _add_polygons_in_memory. frame. Qed.

Lemma respects__add_shapes_in_memory name shapes_ overwrite :
  assignable R shapes → respects R (_add_shapes_in_memory C name shapes_ overwrite).
Proof. intros Ha. unfold _add_shapes_in_memory. frame. Qed.

Lemma respects__add_points_in_memory name points_ overwrite :
  assignable R points → respects R (_add_points_in_memory C name points_ overwrite).
Proof. intros Ha. unfold _add_points_in_memory. frame. Qed.

(** *** Allocation *)

Lemma respects_alloc o : allocating R → respects R (alloc o).
Proof. intros Ha s. unfold alloc, bind, gets, modify. simpl. apply Ha. Qed.

(** *** Mutations of the stores *)

Lemma respects_create_group g key : storing R → respects R (create_group g key).
Proof.
  intros Hf. unfold create_group. frame; apply respects_modify; intros s; apply Hf.
Qed.

Lemma respects_require_group g key : storing R → respects R (require_group g key).
Proof. intros Hf. unfold require_group. frame. by apply respects_create_group. Qed.

Lemma respects_group_delitem g key : storing R → respects R (group_delitem g key).
Proof.
  intros Hf. unfold group_delitem. frame; apply respects_modify; intros s; apply Hf.
Qed.

Lemma respects_put_node g key n : storing R → respects R (put_node g key n).
Proof.
  intros Hf. unfold put_node. frame; apply respects_modify; intros s; apply Hf.
Qed.

Lemma respects_open_w file_path : storing R → respects R (open_w C file_path).
Proof.
  intros Hf. unfold open_w. frame. apply respects_modify; intros s; apply Hf.
Qed.

#[local] Hint Resolve respects_alloc respects_create_group respects_require_group
  respects_group_delitem respects_put_node respects_open_w : core.

Lemma respects__get_group_for_element name element_type :
  storing R → respects R (_get_group_for_element name element_type).
Proof. intros Hf. unfold _get_group_for_element. frame. Qed.

Lemma respects__init_add_element name element_type overwrite :
  storing R → respects R (_init_add_element name element_type overwrite).
Proof. intros Hf. unfold _init_add_element. frame. Qed.

Lemma respects_write_element element_type element group name :
  storing R → respects R (write_element C element_type element group name).
Proof. intros Hf. unfold write_element. frame. Qed.

Lemma respects_write_labels labels_ group name :
  storing R → respects R (write_labels C labels_ group name).
Proof.
  intros Hf. unfold write_labels. frame. by apply respects_write_element.
Qed.

Lemma respects__overwrite_coordinate_transformations raster group axes_ t :
  storing R → respects R (_overwrite_coordinate_transformations C raster group axes_ t).
Proof. intros Hf. unfold _overwrite_coordinate_transformations. frame. Qed.

Lemma respects__read_multiscale store group name raster_type :
  allocating R → respects R (_read_multiscale C store group name raster_type).
Proof. intros Ha. unfold _read_multiscale. frame. Qed.

Lemma respects__read_points store :
  allocating R → respects R (_read_points C store).
Proof. intros Ha. unfold _read_points. frame. Qed.

#[local] Hint Resolve respects__add_image_in_memory respects__add_labels_in_memory
  respects__add_polygons_in_memory respects__add_shapes_in_memory
  respects__add_points_in_memory respects__get_group_for_element
  respects__init_add_element respects_write_element respects_write_labels
  respects__overwrite_coordinate_transformations respects__read_multiscale
  respects__read_points : core.

(** *** The public methods *)

Lemma respects_add_image name image overwrite _add_in_memory :
  assignable R images → storing R → allocating R →
  respects R (add_image C name image overwrite _add_in_memory).
Proof. intros Ha Hf Hh. unfold add_image, write_image. frame. Qed.

Lemma respects_add_labels name labels_ overwrite _add_in_memory :
  assignable R labels → storing R → allocating R →
  respects R (add_labels C name labels_ overwrite _add_in_memory).
Proof. intros Ha Hf Hh. unfold add_labels. frame. Qed.

Lemma respects_add_points name points_ overwrite _add_in_memory :
  assignable R points → storing R → allocating R →
  respects R (add_points C name points_ overwrite _add_in_memory).
Proof. intros Ha Hf Hh. unfold add_points, write_points. frame. Qed.

Lemma respects_add_polygons name polygons_ overwrite _add_in_memory :
  assignable R polygons → storing R →
  respects R (add_polygons C name polygons_ overwrite _add_in_memory).
Proof. intros Ha Hf. unfold add_polygons, write_polygons. frame. Qed.

Lemma respects_add_shapes name shapes_ overwrite _add_in_memory :
  assignable R shapes → storing R →
  respects R (add_shapes C name shapes_ overwrite _add_in_memory).
Proof. intros Ha Hf. unfold add_shapes, write_shapes. frame. Qed.

(** Called by [write] with [_add_in_memory=False], [add_polygons] and
    [add_shapes] touch the store alone. *)
Lemma respects_add_polygons_persist name polygons_ overwrite :
  storing R → respects R (add_polygons C name polygons_ overwrite false).
Proof. intros Hf. unfold add_polygons, write_polygons. frame. Qed.

Lemma respects_add_shapes_persist name shapes_ overwrite :
  storing R → respects R (add_shapes C name shapes_ overwrite false).
Proof. intros Hf. unfold add_shapes, write_shapes. frame. Qed.

Lemma respects_add k name element overwrite _add_in_memory :
  assignable R (kind_attr k) → storing R → allocating R →
  respects R (add C k name element overwrite _add_in_memory).
Proof.
  intros Ha Hf Hh. destruct k; simpl in *.
  - by apply respects_add_image.
  - by apply respects_add_labels.
  - by apply respects_add_points.
  - by apply respects_add_polygons.
  - by apply respects_add_shapes.
Qed.

Lemma respects_set_transformation element t :
  storing R → respects R (set_transformation C element t).
Proof. intros Hf. unfold set_transformation. frame. Qed.

Lemma respects_write_checks file_path overwrite :
  storing R → respects R (write_checks C file_path overwrite).
Proof. intros Hf. unfold write_checks. frame. Qed.

Lemma respects_write_collection root element_type a add_ :
  storing R → (∀ el element, respects R (add_ el element false false)) →
  respects R (write_collection root element_type a add_).
Proof. intros Hf Hadd. unfold write_collection. frame. Qed.

(** [write] in terms of the three adds that reload. *)
Lemma respects_write_elements_with root :
  (∀ el element, respects R (add_image C el element false false)) →
  (∀ el element, respects R (add_labels C el element false false)) →
  (∀ el element, respects R (add_points C el element false false)) →
  storing R →
  respects R (write_elements C root).
Proof.
  intros Hi Hl Hp Hf. unfold write_elements, write_table.
  pose proof respects_add_polygons_persist.
  pose proof respects_add_shapes_persist.
  frame; apply respects_write_collection; eauto.
Qed.

Lemma respects_write_elements root :
  assignable R images → assignable R labels → assignable R points →
  storing R → allocating R →
  respects R (write_elements C root).
Proof.
  intros Hi Hl Hp Hf Hh. apply respects_write_elements_with; try done; intros el element.
  - by apply respects_add_image.
  - by apply respects_add_labels.
  - by apply respects_add_points.
Qed.

Lemma respects_write_with file_path overwrite :
  (∀ p s, R s (with_self (set_path p) s)) →
  (∀ el element, respects R (add_image C el element false false)) →
  (∀ el element, respects R (add_labels C el element false false)) →
  (∀ el element, respects R (add_points C el element false false)) →
  storing R →
  respects R (write C file_path overwrite).
Proof.
  intros Hpath Hi Hl Hp Hf. unfold write.
  pose proof respects_write_checks. pose proof respects_write_elements_with.
  frame; apply respects_modify; intros s; apply Hpath.
Qed.

Lemma respects___init__ images_ labels_ points_ polygons_ shapes_ table :
  (∀ s, R s (with_self (set_path None) s)) →
  (∀ t s, R s (with_self (set_table t) s)) →
  assignable R images → assignable R labels → assignable R points →
  assignable R polygons → assignable R shapes →
  respects R (__init__ C images_ labels_ points_ polygons_ shapes_ table).
Proof.
  intros Hpath Htable Hi Hl Hp Hg Hs. unfold __init__.
  frame; apply respects_modify; intros s; first [apply Hpath | apply Htable | idtac].
  - apply (Hi (Dict [])).
  - apply (Hl (Dict [])).
  - apply (Hg (Dict [])).
  - apply (Hs (Dict [])).
  - apply (Hp (Dict [])).
Qed.

Lemma respects_write file_path overwrite :
  (∀ p s, R s (with_self (set_path p) s)) →
  assignable R images → assignable R labels → assignable R points →
  storing R → allocating R →
  respects R (write C file_path overwrite).
Proof.
  intros Hpath Hi Hl Hp Hf Hh. unfold write.
  pose proof respects_write_checks. pose proof respects_write_elements.
  frame; apply respects_modify; intros s; apply Hpath.
Qed.

Lemma respects__bounding_box_query_points_dict points_dict request :
  allocating R → respects R (_bounding_box_query_points_dict C points_dict request).
Proof. intros Hh. unfold _bounding_box_query_points_dict. frame. Qed.

End Frame.


Lemma same_self_refl_ s : same_self s s.
Proof. done. Qed.

Lemma same_self_trans_ s1 s2 s3 : same_self s1 s2 → same_self s2 s3 → same_self s1 s3.
Proof. unfold same_self. congruence. Qed.

Lemma heap_grows_alloc o s :
  heap s ⊆ heap (with_heap (insert (fresh (dom (heap s))) o) s).
Proof.
  simpl. apply insert_subseteq. apply not_elem_of_dom. apply is_fresh.
Qed.

(** ** Duplicate names *)

(** C7: for every kind, adding under a name the kind's collection already
    has, without [overwrite], raises the duplicate-name error from both
    [_add_<kind>_in_memory] and [add_<kind>], and the state is the one before
    the call: the collection still maps the name to the same element. *)
Theorem add_existing_name_fails (C : Collaborators) (k : Kind) (name : string) (element existing : obj_id) (s : State) :
  entry k name s = Some existing →
  _add_in_memory C k name element false s = (Raise DuplicateName, s) ∧
  add C k name element false true s = (Raise DuplicateName, s) ∧
  entry k name (snd (add C k name element false true s)) = Some existing.
Proof.
  intros H.
  assert (Hmem : _add_in_memory C k name element false s = (Raise DuplicateName, s)).
  { destruct k; unfold entry in H; simpl in H; simpl;
      [unfold _add_image_in_memory | unfold _add_labels_in_memory
      | unfold _add_points_in_memory | unfold _add_polygons_in_memory
      | unfold _add_shapes_in_memory];
      unfold bind, attr_contains, gets, ret, PyDict.contains; simpl;
      rewrite H; reflexivity. }
  assert (Hadd : add C k name element false true s = (Raise DuplicateName, s)).
  { destruct k; simpl in *;
      [unfold add_image | unfold add_labels | unfold add_points
      | unfold add_polygons | unfold add_shapes];
      apply bind_eq_Raise; exact Hmem. }
  split; [exact Hmem|]. split; [exact Hadd|]. rewrite Hadd. exact H.
Qed.

Lemma add_existing_name_fails_witness :
  entry KPoints "p" Demo.unbacked_points = Some 0 ∧
  add Demo.collaborators KPoints "p" 1 false true Demo.unbacked_points
    = (Raise DuplicateName, Demo.unbacked_points).
Proof.
  split; [reflexivity|].
  apply (add_existing_name_fails Demo.collaborators KPoints "p" 1 0 Demo.unbacked_points).
  reflexivity.
Defined.

(** ** Writing to a location that exists *)

(** C9: on an unbacked container, [write(location, overwrite=False)] to a
    location that already holds a store raises the already-exists error and
    leaves the state, and so the unset [path], as it was. *)
Theorem write_existing_location_fails (C : Collaborators) (file_path : string) (s : State) :
  path (self s) = None →
  is_Some (fs s !! file_path) →
  write C file_path false s = (Raise AlreadyExists, s) ∧
  path (self (snd (write C file_path false s))) = None.
Proof.
  intros Hpath Hex.
  assert (H : write C file_path false s = (Raise AlreadyExists, s)).
  { unfold write, write_checks. apply bind_eq_Raise.
    unfold bind, is_backed, store_exists, gets, ret, raise. simpl.
    rewrite Hpath. simpl. by rewrite bool_decide_true. }
  split; [exact H|]. rewrite H. exact Hpath.
Qed.

(** ** Construction *)

Section Unbacked.

Variable C : Collaborators.

Lemma unbacked_stays_refl s : unbacked_stays s s.
Proof. by intros H. Qed.

Lemma unbacked_stays_trans s1 s2 s3 :
  unbacked_stays s1 s2 → unbacked_stays s2 s3 → unbacked_stays s1 s3.
Proof. unfold unbacked_stays. auto. Qed.

(** [__init__] starts with [self.path = None] and nothing after it assigns
    [path]. *)
Lemma __init___path images_ labels_ points_ polygons_ shapes_ table s :
  path (self (snd (__init__ C images_ labels_ points_ polygons_ shapes_ table s))) = None.
Proof.
  change (__init__ C images_ labels_ points_ polygons_ shapes_ table s)
    with (__init__ C images_ labels_ points_ polygons_ shapes_ table
            (with_self (set_path None) s)).
  apply (respects___init__ C unbacked_stays unbacked_stays_refl unbacked_stays_trans);
    try (intros ? ? ?; assumption); try (intros ? ?; assumption); try done.
Qed.

Lemma SpatialData__path images_ labels_ points_ polygons_ shapes_ table s sd s' :
  SpatialData_ C images_ labels_ points_ polygons_ shapes_ table s = (Ok sd, s') →
  path sd = None.
Proof.
  unfold SpatialData_. intros H.
  pose proof (__init___path images_ labels_ points_ polygons_ shapes_ table
                {| self := class_attributes; heap := heap s; fs := fs s |}) as Hp.
  destruct (__init__ C images_ labels_ points_ polygons_ shapes_ table _) as [[[]|e] s1];
    simpl in *; [|discriminate].
  by injection H as <- _.
Qed.

End Unbacked.

(** C10: whatever the arguments, the object [__init__] has run on has
    [path] unset, so every container the constructor returns, also the one
    a bounding-box query returns, is unbacked: [is_backed()] is false. *)
Theorem constructed_container_is_unbacked (C : Collaborators) (images_ labels_ points_ polygons_ shapes_ : option (list (string * obj_id))) (table : option obj_id) (request : BoundingBoxRequest) (s : State) :
  path (self (snd (__init__ C images_ labels_ points_ polygons_ shapes_ table s))) = None ∧
  fst (is_backed (snd (__init__ C images_ labels_ points_ polygons_ shapes_ table s)))
    = Ok false ∧
  (∀ sd, fst (SpatialData_ C images_ labels_ points_ polygons_ shapes_ table s) = Ok sd
         ∨ fst (bounding_box C request s) = Ok sd →
     path sd = None ∧
     fst (is_backed {| self := sd; heap := heap s; fs := fs s |}) = Ok false).
Proof.
  assert (Hb : ∀ s0 : State, path (self s0) = None → fst (is_backed s0) = Ok false).
  { intros s0 H0. unfold is_backed, bind, gets, ret. simpl. by rewrite H0. }
  split; [apply __init___path|]. split; [apply Hb, __init___path|].
  intros sd H.
  assert (Hp : path sd = None).
  { destruct H as [H|H].
    - destruct (SpatialData_ C _ _ _ _ _ _ s) as [r s'] eqn:E. simpl in H. subst r.
      eapply SpatialData__path; eauto.
    - destruct (bounding_box C request s) as [r s'] eqn:E. simpl in H. subst r.
      unfold bounding_box in E.
      apply bind_Ok in E as (sd0 & s0 & _ & E).
      apply bind_Ok in E as (pts & s1 & _ & E).
      eapply SpatialData__path; eauto. }
  split; [exact Hp|]. by apply Hb.
Qed.

(** ** Kinds of images and labels *)

Lemma cleared_entry k name s : entry k name (cleared k name s) = None.
Proof.
  unfold cleared, entry.
  destruct (PyDict.contains name _) eqn:E.
  - destruct k; simpl; apply get_del_eq.
  - by apply contains_false.
Qed.

Lemma del_absent {V} k (d : list (string * V)) :
  PyDict.get k d = None → PyDict.del k d = d.
Proof.
  induction d as [|[k' v'] d IH]; simpl; [done|].
  destruct (String.eqb k k'); [done|]. intros H. by rewrite IH.
Qed.

Lemma set_absent {V} k (v : V) (d : list (string * V)) :
  PyDict.get k d = None → PyDict.set k v d = (d ++ [(k, v)])%list.
Proof.
  induction d as [|[k' v'] d IH]; simpl; [done|].
  destruct (String.eqb k k'); [done|]. intros H. by rewrite IH.
Qed.

Lemma set_del {V} k (v : V) (d : list (string * V)) :
  PyDict.set k v (PyDict.del k d) = (PyDict.del k d ++ [(k, v)])%list.
Proof. apply set_absent, get_del_eq. Qed.

Lemma get_app_absent {V} k (d1 d2 : list (string * V)) :
  PyDict.get k (d1 ++ d2) =
    match PyDict.get k d1 with Some v => Some v | None => PyDict.get k d2 end.
Proof.
  induction d1 as [|[k' v'] d1 IH]; simpl; [done|].
  by destruct (String.eqb k k').
Qed.

Lemma entry_added_eq k name element s : entry k name (added k name element s) = Some element.
Proof.
  unfold entry, added. destruct k; simpl;
    rewrite get_app_absent, get_del_eq; simpl; by rewrite String.eqb_refl.
Qed.

Lemma entry_added_ne k name element n s :
  n ≠ name → entry k n (added k name element s) = entry k n s.
Proof.
  intros Hn. unfold entry, added.
  assert (E : String.eqb n name = false) by by apply String.eqb_neq.
  destruct k; simpl; rewrite get_app_absent, get_del_ne by done; simpl; rewrite E;
    by case_match.
Qed.

Lemma attr_set_set k m1 m2 sd :
  attr_set (kind_attr k) m2 (attr_set (kind_attr k) m1 sd) = attr_set (kind_attr k) m2 sd.
Proof. by destruct k. Qed.

Lemma attr_get_set k m sd : attr_get (kind_attr k) (attr_set (kind_attr k) m sd) = m.
Proof. by destruct k. Qed.

Lemma cleared_entry_ne k name n s :
  n ≠ name → entry k n (cleared k name s) = entry k n s.
Proof.
  intros Hn. unfold cleared, entry.
  destruct (PyDict.contains name _); [|done].
  destruct k; simpl; by apply get_del_ne.
Qed.

Lemma setitem_inserted k name element overwrite s :
  overwrite = true ∨ entry k name s = None →
  attr_setitem (kind_attr k) name element
    (if PyDict.contains name (items (attr_get (kind_attr k) (self s)))
     then with_self (attr_set (kind_attr k)
            (Dict (PyDict.del name (items (attr_get (kind_attr k) (self s)))))) s
     else s)
  = inserted k name element s.
Proof.
  intros _. unfold inserted, added, attr_setitem, bind, gets, ret, raise, modify.
  destruct (PyDict.contains name _) eqn:E; simpl.
  - rewrite attr_get_set. simpl.
    destruct (attr_get (kind_attr k) (self s)) as [|d] eqn:Ed; [discriminate|].
    simpl. rewrite set_del. unfold with_self. simpl. by rewrite attr_set_set.
  - destruct (attr_get (kind_attr k) (self s)) as [|d] eqn:Ed; [done|]. simpl in *.
    apply contains_false in E. by rewrite (set_absent _ _ _ E), (del_absent _ _ E).
Qed.

(** C8: when an image or labels are added in memory, the number of declared
    axes selects the schema: an image with 3 axes is validated against
    [Image2D_s] and with 4 axes against [Image3D_s], labels with 2 axes
    against [Label2D_s] and with 3 axes against [Label3D_s]; when the
    validation passes the element is inserted, as the entry of the name and
    the last of the collection, and any other number of axes raises the
    unsupported-shape error with nothing inserted: the name has no entry
    and the other names keep theirs. Each of the two functions is taken
    past its own name check, which looks at its own collection only: the
    name is free there, or [overwrite] is set and the old entry is
    deleted. *)
Theorem kind_inferred_from_axes (C : Collaborators) (name : string) (element : obj_id) (o : PyObj) (overwrite : bool) (s : State) :
  heap s !! element = Some o →
  (overwrite = true ∨ entry KImages name s = None →
   _add_image_in_memory C name element overwrite s =
     match length (dims o) with
     | 3 => if validates C Image2D_s o then inserted KImages name element s
            else (Raise SchemaViolation, cleared KImages name s)
     | 4 => if validates C Image3D_s o then inserted KImages name element s
            else (Raise SchemaViolation, cleared KImages name s)
     | _ => (Raise UnsupportedShape, cleared KImages name s)
     end) ∧
  (overwrite = true ∨ entry KLabels name s = None →
   _add_labels_in_memory C name element overwrite s =
     match length (dims o) with
     | 2 => if validates C Label2D_s o then inserted KLabels name element s
            else (Raise SchemaViolation, cleared KLabels name s)
     | 3 => if validates C Label3D_s o then inserted KLabels name element s
            else (Raise SchemaViolation, cleared KLabels name s)
     | _ => (Raise UnsupportedShape, cleared KLabels name s)
     end) ∧
  (∀ k,
     entry k name (added k name element s) = Some element ∧
     entry k name (cleared k name s) = None ∧
     ∀ n, n ≠ name →
       entry k n (added k name element s) = entry k n s ∧
       entry k n (cleared k name s) = entry k n s).
Proof.
  intros Ho.
  split; [|split].
  - intros Hpre.
    pose proof (setitem_inserted KImages name element overwrite s Hpre) as Hset.
    assert (Hi : overwrite = true ∨ PyDict.contains name (items (_images (self s))) = false).
    { destruct Hpre as [?|H]; [by left|right]. by apply contains_false. }
    unfold _add_image_in_memory, cleared, attr_contains, attr_delitem, get_dims,
      validate, deref, bind, gets, ret, raise, modify. simpl in *.
    destruct (PyDict.contains name (items (_images (self s)))) eqn:E.
    + destruct Hi as [->|?]; [|congruence]. simpl.
      destruct (_images (self s)) as [|d] eqn:Ed; [discriminate|]. simpl in *.
      rewrite E. simpl. rewrite Ho.
      destruct (length (dims o)) as [|[|[|[|[|n]]]]]; simpl; try reflexivity;
        rewrite ?Ho; simpl; destruct (validates C _ o); try reflexivity; exact Hset.
    + simpl. rewrite Ho.
      destruct (length (dims o)) as [|[|[|[|[|n]]]]]; simpl; try reflexivity;
        rewrite ?Ho; simpl; destruct (validates C _ o); try reflexivity; exact Hset.
  - intros Hpre.
    pose proof (setitem_inserted KLabels name element overwrite s Hpre) as Hset.
    assert (Hl : overwrite = true ∨ PyDict.contains name (items (_labels (self s))) = false).
    { destruct Hpre as [?|H]; [by left|right]. by apply contains_false. }
    unfold _add_labels_in_memory, cleared, attr_contains, attr_delitem, get_dims,
      validate, deref, bind, gets, ret, raise, modify. simpl in *.
    destruct (PyDict.contains name (items (_labels (self s)))) eqn:E.
    + destruct Hl as [->|?]; [|congruence]. simpl.
      destruct (_labels (self s)) as [|d] eqn:Ed; [discriminate|]. simpl in *.
      rewrite E. simpl. rewrite Ho.
      destruct (length (dims o)) as [|[|[|[|n]]]]; simpl; try reflexivity;
        rewrite ?Ho; simpl; destruct (validates C _ o); try reflexivity; exact Hset.
    + simpl. rewrite Ho.
      destruct (length (dims o)) as [|[|[|[|n]]]]; simpl; try reflexivity;
        rewrite ?Ho; simpl; destruct (validates C _ o); try reflexivity; exact Hset.
  - intros k. split; [apply entry_added_eq|]. split; [apply cleared_entry|].
    intros n Hn. split; [by apply entry_added_ne | by apply cleared_entry_ne].
Qed.

Lemma kind_inferred_from_axes_witness :
  let s := snd (_add_labels_in_memory Demo.collaborators "a" 0 false Demo.unbacked_empty) in
  entry KLabels "a" s = Some 0 ∧
  _add_image_in_memory Demo.collaborators "a" 0 false s = (Ok tt, added KImages "a" 0 s) ∧
  entry KImages "a" (added KImages "a" 0 s) = Some 0.
Proof.
  intros s.
  destruct (kind_inferred_from_axes Demo.collaborators "a" 0 Demo.image0 false s)
    as (H1 & _ & H2).
  - vm_compute. reflexivity.
  - split; [vm_compute; reflexivity|]. split; [|apply (H2 KImages)].
    rewrite H1; [vm_compute; reflexivity | right; vm_compute; reflexivity].
Defined.

Lemma write_existing_location_fails_witness :
  path (self Demo.unbacked_empty) = None ∧
  is_Some (fs Demo.unbacked_empty !! "store.zarr") ∧
  write Demo.collaborators "store.zarr" false Demo.unbacked_empty
    = (Raise AlreadyExists, Demo.unbacked_empty).
Proof.
  split; [reflexivity|]. split; [by eexists|].
  apply (write_existing_location_fails Demo.collaborators "store.zarr"
           Demo.unbacked_empty); [reflexivity | by eexists].
Defined.

Lemma constructed_container_is_unbacked_witness :
  fst (bounding_box Demo.collaborators Demo.box Demo.unbacked_points) = Ok Demo.queried ∧
  path Demo.queried = None.
Proof.
  split; [vm_compute; reflexivity|].
  destruct (constructed_container_is_unbacked Demo.collaborators None None None None None
              None Demo.box Demo.unbacked_points) as (_ & _ & H).
  apply (H Demo.queried). right. vm_compute. reflexivity.
Defined.

(** ** Adding to an unbacked container *)

Lemma same_path_refl s : same_path s s.
Proof. done. Qed.

Lemma same_path_trans s1 s2 s3 : same_path s1 s2 → same_path s2 s3 → same_path s1 s3.
Proof. unfold same_path. congruence. Qed.

Lemma _add_in_memory_path C k name element overwrite s :
  path (self (snd (_add_in_memory C k name element overwrite s))) = path (self s).
Proof.
  destruct k; simpl.
  - by apply (respects__add_image_in_memory C same_path same_path_refl same_path_trans).
  - by apply (respects__add_labels_in_memory C same_path same_path_refl same_path_trans).
  - by apply (respects__add_points_in_memory C same_path same_path_refl same_path_trans).
  - by apply (respects__add_polygons_in_memory C same_path same_path_refl same_path_trans).
  - by apply (respects__add_shapes_in_memory C same_path same_path_refl same_path_trans).
Qed.

(** The in-memory part never asks for a store. *)
Lemma _add_in_memory_not_NotBacked C k name element overwrite s :
  fst (_add_in_memory C k name element overwrite s) ≠ Raise NotBacked.
Proof.
  destruct k; simpl;
    [unfold _add_image_in_memory | unfold _add_labels_in_memory
    | unfold _add_points_in_memory | unfold _add_polygons_in_memory
    | unfold _add_shapes_in_memory];
    unfold attr_contains, attr_delitem, attr_setitem, get_dims, validate, deref,
      bind, gets, ret, raise, modify; simpl;
    repeat (case_match; simpl in *; simplify_eq; try discriminate).
Qed.

Lemma add_unbacked C k name element overwrite _add_in_memory_ s :
  path (self s) = None →
  add C k name element overwrite _add_in_memory_ s =
    if _add_in_memory_ then _add_in_memory C k name element overwrite s
    else (Ok tt, s).
Proof.
  intros Hp.
  assert (Hback : ∀ s1 : State, path (self s1) = None → is_backed s1 = (Ok false, s1)).
  { intros s1 H1. unfold is_backed, bind, gets, ret. by rewrite H1. }
  destruct _add_in_memory_.
  - pose proof (_add_in_memory_path C k name element overwrite s) as Hp1.
    rewrite Hp in Hp1.
    destruct k; simpl in *;
      [unfold add_image | unfold add_labels | unfold add_points
      | unfold add_polygons | unfold add_shapes];
      unfold bind at 1;
      match goal with |- context [?m name element overwrite s] =>
        destruct (m name element overwrite s) as [[[]|e] s1] eqn:E end;
      simpl in *; try reflexivity;
      (erewrite bind_eq_Ok; [|by apply Hback]); reflexivity.
  - destruct k; simpl;
      [unfold add_image | unfold add_labels | unfold add_points
      | unfold add_polygons | unfold add_shapes];
      unfold bind at 1; unfold ret at 1;
      (erewrite bind_eq_Ok; [|by apply Hback]); reflexivity.
Qed.

(** C4, amended: on an unbacked container [add_<kind>] never raises the
    not-backed error: it does the in-memory part alone (validate and insert
    when [_add_in_memory] is set, nothing otherwise), the container stays
    unbacked, and the not-backed error is what the persistence step
    [_init_add_element], which [add_<kind>] guards with [is_backed()], raises
    when it is called with [path] unset. *)
Theorem add_on_unbacked_stays_in_memory (C : Collaborators) (k : Kind) (name : string) (element : obj_id) (overwrite _add_in_memory_ : bool) (s : State) :
  path (self s) = None →
  add C k name element overwrite _add_in_memory_ s =
    (if _add_in_memory_ then _add_in_memory C k name element overwrite s
     else (Ok tt, s)) ∧
  fst (add C k name element overwrite _add_in_memory_ s) ≠ Raise NotBacked ∧
  path (self (snd (add C k name element overwrite _add_in_memory_ s))) = None ∧
  fs (snd (add C k name element overwrite _add_in_memory_ s)) = fs s ∧
  _init_add_element name (kind_name k) overwrite s = (Raise NotBacked, s).
Proof.
  intros Hp. rewrite (add_unbacked C k name element overwrite _add_in_memory_ s Hp).
  split; [reflexivity|]. split; [|split; [|split]].
  - destruct _add_in_memory_; [apply _add_in_memory_not_NotBacked | discriminate].
  - destruct _add_in_memory_; [|exact Hp].
    by rewrite _add_in_memory_path.
  - destruct _add_in_memory_; [|reflexivity].
    destruct k; simpl.
    + by apply (respects__add_image_in_memory C (λ s s', fs s' = fs s));
        [|intros; congruence|].
    + by apply (respects__add_labels_in_memory C (λ s s', fs s' = fs s));
        [|intros; congruence|].
    + by apply (respects__add_points_in_memory C (λ s s', fs s' = fs s));
        [|intros; congruence|].
    + by apply (respects__add_polygons_in_memory C (λ s s', fs s' = fs s));
        [|intros; congruence|].
    + by apply (respects__add_shapes_in_memory C (λ s s', fs s' = fs s));
        [|intros; congruence|].
  - unfold _init_add_element, bind, gets, raise. simpl. by rewrite Hp.
Qed.

(** C4 as stated does not hold: on an unbacked container [add_image]
    returns, with the image added in memory (or with nothing done when
    [_add_in_memory] is unset); it does not raise the not-backed error. *)
Lemma add_on_unbacked_returns :
  path (self Demo.unbacked_empty) = None ∧
  add Demo.collaborators KImages "a" 0 false true Demo.unbacked_empty
    = (Ok tt, with_self (set_images (Dict [("a", 0)])) Demo.unbacked_empty) ∧
  add Demo.collaborators KImages "a" 0 false false Demo.unbacked_empty
    = (Ok tt, Demo.unbacked_empty) ∧
  fst (add Demo.collaborators KImages "a" 0 false true Demo.unbacked_empty)
    ≠ Raise NotBacked.
Proof.
  split; [reflexivity|]. split; [reflexivity|]. split; [reflexivity|].
  discriminate.
Qed.

Lemma add_on_unbacked_stays_in_memory_witness :
  path (self Demo.unbacked_empty) = None ∧
  fst (add Demo.collaborators KImages "a" 0 false true Demo.unbacked_empty)
    ≠ Raise NotBacked ∧
  _init_add_element "a" "images" false Demo.unbacked_empty
    = (Raise NotBacked, Demo.unbacked_empty).
Proof.
  split; [reflexivity|].
  pose proof (add_on_unbacked_stays_in_memory Demo.collaborators KImages "a" 0 false
                true Demo.unbacked_empty eq_refl) as (_ & H1 & _ & _ & H2).
  split; [exact H1 | exact H2].
Defined.

(** ** What the steps of a backed add do when they return *)

Tactic Notation "inv_bind" hyp(H) "as" ident(a) ident(s) ident(E) :=
  apply bind_Ok in H as (a & s & E & H).

Ltac unfold_in_memory H :=
  unfold _add_in_memory, _add_image_in_memory, _add_labels_in_memory,
    _add_points_in_memory, _add_polygons_in_memory, _add_shapes_in_memory,
    attr_contains, attr_delitem, attr_setitem, get_dims, validate, deref,
    bind, gets, ret, raise, modify in H.

Lemma _add_in_memory_Ok C k name element overwrite s s' :
  _add_in_memory C k name element overwrite s = (Ok tt, s') →
  entry k name s' = Some element ∧ heap s' = heap s ∧ fs s' = fs s ∧
  path (self s') = path (self s) ∧ is_Some (heap s !! element).
Proof.
  intros H. unfold entry.
  destruct k; unfold_in_memory H; simpl in H;
    repeat (case_match; simpl in *; simplify_eq);
    simpl; rewrite get_set_eq; eauto 10.
Qed.


Lemma same_self_heap_refl s : same_self_heap s s.
Proof. done. Qed.

Lemma same_self_heap_trans s1 s2 s3 :
  same_self_heap s1 s2 → same_self_heap s2 s3 → same_self_heap s1 s3.
Proof. unfold same_self_heap. intros [] []. split; congruence. Qed.

Lemma same_self_heap_storing : storing same_self_heap.
Proof. done. Qed.

Lemma _init_add_element_Ok k name overwrite s g s' p :
  path (self s) = Some p →
  _init_add_element name (kind_name k) overwrite s = (Ok g, s') →
  self s' = self s ∧ heap s' = heap s ∧
  g = match k with KLabels => Root p | _ => Sub p (kind_name k) end.
Proof.
  intros Hp H.
  pose proof (respects__init_add_element same_self_heap same_self_heap_refl
                same_self_heap_trans name (kind_name k) overwrite
                same_self_heap_storing s) as [Hs Hh].
  rewrite H in Hs, Hh. simpl in Hs, Hh. split; [done|]. split; [done|].
  clear Hs Hh.
  unfold _init_add_element, open_root, create_group, group_getitem, group_delitem,
    group_contains, local, assert_, bind, gets, ret, raise, modify in H.
  rewrite Hp in H.
  destruct k, overwrite; simpl in H;
    repeat (case_match; simpl in *; simplify_eq); reflexivity.
Qed.

Lemma members_put f (p t name : string) (node : ZNode) :
  members (<[p := <[t := <[name := node]> (members f p t)]> (root_of f p)]> f) p t
    !! name = Some node.
Proof.
  unfold members at 1, root_of at 1.
  rewrite lookup_insert_eq. simpl. rewrite lookup_insert_eq. simpl.
  apply lookup_insert_eq.
Qed.

Lemma write_element_Ok C element_type element p t name s s' :
  write_element C element_type element (Sub p t) name s = (Ok tt, s') →
  ∃ o node, heap s !! element = Some o ∧ encode C element_type name o = Some node ∧
    self s' = self s ∧ heap s' = heap s ∧
    members (fs s') p t !! name = Some node.
Proof.
  unfold write_element, put_node, deref, bind, gets, ret, raise, modify.
  simpl. intros H.
  destruct (heap s !! element) as [o|] eqn:Ho; simpl in H; [|discriminate].
  destruct (encode C element_type name o) as [node|] eqn:Hn; simpl in H; [|discriminate].
  injection H as <-. exists o, node. simpl.
  repeat split; try done. apply members_put.
Qed.

Lemma write_labels_Ok C labels_ p name s s' :
  write_labels C labels_ (Root p) name s = (Ok tt, s') →
  ∃ o node, heap s !! labels_ = Some o ∧ encode C "labels" name o = Some node ∧
    self s' = self s ∧ heap s' = heap s ∧
    members (fs s') p "labels" !! name = Some node.
Proof.
  unfold write_labels. intros H. inv_bind H as a s0 E.
  assert (a = Sub p "labels" ∧ self s0 = self s ∧ heap s0 = heap s) as (-> & Hs & Hh).
  { unfold require_group, create_group, group_getitem, group_contains, bind, gets,
      ret, raise, modify in E. simpl in E.
    repeat (case_match; simpl in *; simplify_eq); done. }
  apply write_element_Ok in H as (o & node & ? & ? & ? & ? & ?).
  exists o, node. repeat split; congruence.
Qed.

Lemma _read_multiscale_Ok C p t name raster_type s r s' :
  _read_multiscale C p t name raster_type s = (Ok r, s') →
  ∃ node o, members (fs s) p t !! name = Some node ∧
    decode_multiscale C raster_type node = Some o ∧
    r = fresh (dom (heap s)) ∧ heap s' = <[r := o]> (heap s) ∧
    self s' = self s ∧ fs s' = fs s.
Proof.
  unfold _read_multiscale, alloc, bind, gets, ret, raise, modify. simpl. intros H.
  destruct (members (fs s) p t !! name) as [node|] eqn:Hn; simpl in H; [|discriminate].
  destruct (decode_multiscale C raster_type node) as [o|] eqn:Ho; simpl in H;
    [|discriminate].
  injection H as <- <-. exists node, o. simpl. done.
Qed.

Lemma _read_points_Ok C p s r s' :
  _read_points C p s = (Ok r, s') →
  ∃ o, decode_points C (root_of (fs s) p) = Some o ∧
    r = fresh (dom (heap s)) ∧ heap s' = <[r := o]> (heap s) ∧
    self s' = self s ∧ fs s' = fs s.
Proof.
  unfold _read_points, alloc, bind, gets, ret, raise, modify. simpl. intros H.
  destruct (decode_points C (root_of (fs s) p)) as [o|] eqn:Ho; simpl in H;
    [|discriminate].
  injection H as <- <-. exists o. simpl. done.
Qed.

Lemma attr_getitem_Ok a name s r s' :
  attr_getitem a name s = (Ok r, s') →
  s' = s ∧ PyDict.get name (items (attr_get a (self s))) = Some r.
Proof.
  unfold attr_getitem, bind, gets, ret, raise. simpl.
  destruct (PyDict.get name _); simpl; intros H; by simplify_eq.
Qed.

Lemma is_backed_Ok b s s' :
  is_backed s = (Ok b, s') →
  s' = s ∧ b = match path (self s) with Some _ => true | None => false end.
Proof. unfold is_backed, bind, gets, ret. simpl. intros H. by simplify_eq. Qed.

Lemma fresh_not_live (h : gmap obj_id PyObj) (r : obj_id) :
  is_Some (h !! r) → fresh (dom h) ≠ r.
Proof.
  intros Hr Heq. apply elem_of_dom in Hr. rewrite <- Heq in Hr.
  by apply is_fresh in Hr.
Qed.

(** ** Backed adds *)

Section BackedAdd.

Variable C : Collaborators.
Variables (name p : string) (element : obj_id) (overwrite : bool) (s s' : State).
Hypothesis Hpath : path (self s) = Some p.

Lemma add_image_backed_Ok :
  add_image C name element overwrite true s = (Ok tt, s') →
  persisted C name p element s s' KImages ∧
  entry_reloaded C name p element s s' KImages.
Proof.
  intros H. unfold add_image in H.
  inv_bind H as u s1 E. destruct u.
  apply (_add_in_memory_Ok C KImages) in E as (He & Hh1 & Hf1 & Hp1 & Hlive).
  inv_bind H as b s2 E. apply is_backed_Ok in E as [-> ->].
  rewrite Hp1, Hpath in H.
  inv_bind H as g s2 E.
  apply (_init_add_element_Ok KImages _ _ _ _ _ p) in E as (Hs2 & Hh2 & ->);
    [|congruence].
  inv_bind H as r s3 E. apply attr_getitem_Ok in E as [-> Hget].
  rewrite Hs2 in Hget. unfold entry in He. simpl in He, Hget.
  rewrite He in Hget. injection Hget as <-.
  inv_bind H as u s3 E. destruct u.
  apply write_element_Ok in E as (o & node & Ho & Hn & Hs3 & Hh3 & Hm3).
  inv_bind H as u s4 E. injection E as _ <-.
  inv_bind H as r s4 E.
  apply _read_multiscale_Ok in E as (node' & o' & Hm4 & Hd & Hr & Hh4 & Hs4 & Hf4).
  apply (_add_in_memory_Ok C KImages) in H as (He' & Hh' & Hf' & _ & _).
  simpl in Hm3, Hm4. rewrite Hm3 in Hm4. injection Hm4 as <-.
  assert (Ha : r = fresh (dom (heap s))) by congruence.
  split.
  - exists o, node. repeat split; [congruence | done |]. by rewrite Hf', Hf4.
  - exists r, o'. split; [done|].
    split; [|split; [|split]].
    + rewrite Ha. by apply fresh_not_live.
    + rewrite Ha. apply is_fresh.
    + simpl. rewrite Hf', Hf4, Hm3. simpl. done.
    + rewrite Hh', Hh4. congruence.
Qed.

Lemma add_labels_backed_Ok :
  add_labels C name element overwrite true s = (Ok tt, s') →
  persisted C name p element s s' KLabels ∧
  entry_reloaded C name p element s s' KLabels.
Proof.
  intros H. unfold add_labels in H.
  inv_bind H as u s1 E. destruct u.
  apply (_add_in_memory_Ok C KLabels) in E as (He & Hh1 & Hf1 & Hp1 & Hlive).
  inv_bind H as b s2 E. apply is_backed_Ok in E as [-> ->].
  rewrite Hp1, Hpath in H.
  inv_bind H as g s2 E.
  apply (_init_add_element_Ok KLabels _ _ _ _ _ p) in E as (Hs2 & Hh2 & ->);
    [|congruence].
  inv_bind H as r s3 E. apply attr_getitem_Ok in E as [-> Hget].
  rewrite Hs2 in Hget. unfold entry in He. simpl in He, Hget.
  rewrite He in Hget. injection Hget as <-.
  inv_bind H as u s3 E. destruct u.
  apply write_labels_Ok in E as (o & node & Ho & Hn & Hs3 & Hh3 & Hm3).
  inv_bind H as u s4 E. injection E as _ <-.
  inv_bind H as r s4 E.
  apply _read_multiscale_Ok in E as (node' & o' & Hm4 & Hd & Hr & Hh4 & Hs4 & Hf4).
  apply (_add_in_memory_Ok C KLabels) in H as (He' & Hh' & Hf' & _ & _).
  simpl in Hm3, Hm4. rewrite Hm3 in Hm4. injection Hm4 as <-.
  assert (Ha : r = fresh (dom (heap s))) by congruence.
  split.
  - exists o, node. repeat split; [congruence | done |]. by rewrite Hf', Hf4.
  - exists r, o'. split; [done|].
    split; [|split; [|split]].
    + rewrite Ha. by apply fresh_not_live.
    + rewrite Ha. apply is_fresh.
    + simpl. rewrite Hf', Hf4, Hm3. simpl. done.
    + rewrite Hh', Hh4. congruence.
Qed.

Lemma add_points_backed_Ok :
  add_points C name element overwrite true s = (Ok tt, s') →
  persisted C name p element s s' KPoints ∧
  entry_reloaded C name p element s s' KPoints.
Proof.
  intros H. unfold add_points in H.
  inv_bind H as u s1 E. destruct u.
  apply (_add_in_memory_Ok C KPoints) in E as (He & Hh1 & Hf1 & Hp1 & Hlive).
  inv_bind H as b s2 E. apply is_backed_Ok in E as [-> ->].
  rewrite Hp1, Hpath in H.
  inv_bind H as g s2 E.
  apply (_init_add_element_Ok KPoints _ _ _ _ _ p) in E as (Hs2 & Hh2 & ->);
    [|congruence].
  inv_bind H as r s3 E. apply attr_getitem_Ok in E as [-> Hget].
  rewrite Hs2 in Hget. unfold entry in He. simpl in He, Hget.
  rewrite He in Hget. injection Hget as <-.
  inv_bind H as u s3 E. destruct u.
  apply write_element_Ok in E as (o & node & Ho & Hn & Hs3 & Hh3 & Hm3).
  inv_bind H as r s4 E.
  apply _read_points_Ok in E as (o' & Hd & Hr & Hh4 & Hs4 & Hf4).
  apply (_add_in_memory_Ok C KPoints) in H as (He' & Hh' & Hf' & _ & _).
  assert (Ha : r = fresh (dom (heap s))) by congruence.
  split.
  - exists o, node. repeat split; [congruence | done |]. by rewrite Hf', Hf4.
  - exists r, o'. split; [done|].
    split; [|split; [|split]].
    + rewrite Ha. by apply fresh_not_live.
    + rewrite Ha. apply is_fresh.
    + simpl in *. by rewrite Hf', Hf4.
    + rewrite Hh', Hh4. congruence.
Qed.

Lemma add_polygons_backed_Ok :
  add_polygons C name element overwrite true s = (Ok tt, s') →
  persisted C name p element s s' KPolygons ∧
  entry_kept name element s s' KPolygons.
Proof.
  intros H. unfold add_polygons in H.
  inv_bind H as u s1 E. destruct u.
  apply (_add_in_memory_Ok C KPolygons) in E as (He & Hh1 & Hf1 & Hp1 & Hlive).
  inv_bind H as b s2 E. apply is_backed_Ok in E as [-> ->].
  rewrite Hp1, Hpath in H.
  inv_bind H as g s2 E.
  apply (_init_add_element_Ok KPolygons _ _ _ _ _ p) in E as (Hs2 & Hh2 & ->);
    [|congruence].
  inv_bind H as r s3 E. apply attr_getitem_Ok in E as [-> Hget].
  rewrite Hs2 in Hget. unfold entry in He. simpl in He, Hget.
  rewrite He in Hget. injection Hget as <-.
  apply write_element_Ok in H as (o & node & Ho & Hn & Hs3 & Hh3 & Hm3).
  split.
  - exists o, node. repeat split; [congruence | done | done].
  - split; [|congruence]. unfold entry. simpl. by rewrite Hs3, Hs2.
Qed.

Lemma add_shapes_backed_Ok :
  add_shapes C name element overwrite true s = (Ok tt, s') →
  persisted C name p element s s' KShapes ∧
  entry_kept name element s s' KShapes.
Proof.
  intros H. unfold add_shapes in H.
  inv_bind H as u s1 E. destruct u.
  apply (_add_in_memory_Ok C KShapes) in E as (He & Hh1 & Hf1 & Hp1 & Hlive).
  inv_bind H as b s2 E. apply is_backed_Ok in E as [-> ->].
  rewrite Hp1, Hpath in H.
  inv_bind H as g s2 E.
  apply (_init_add_element_Ok KShapes _ _ _ _ _ p) in E as (Hs2 & Hh2 & ->);
    [|congruence].
  inv_bind H as r s3 E. apply attr_getitem_Ok in E as [-> Hget].
  rewrite Hs2 in Hget. unfold entry in He. simpl in He, Hget.
  rewrite He in Hget. injection Hget as <-.
  apply write_element_Ok in H as (o & node & Ho & Hn & Hs3 & Hh3 & Hm3).
  split.
  - exists o, node. repeat split; [congruence | done | done].
  - split; [|congruence]. unfold entry. simpl. by rewrite Hs3, Hs2.
Qed.

End BackedAdd.

(** C3, amended: a backed [add_<kind>(name, element)] that returns has
    written the payload of the element under the kind's group of the store;
    for images, labels and points the in-memory entry is then a new handle
    reloaded from the store, not the caller's object; for polygons and shapes
    nothing is reloaded and the entry stays the caller's object. *)
Theorem backed_add_reloads_rasters_and_points (C : Collaborators) (k : Kind) (name p : string) (element : obj_id) (overwrite : bool) (s s' : State) :
  path (self s) = Some p →
  add C k name element overwrite true s = (Ok tt, s') →
  persisted C name p element s s' k ∧
  match k with
  | KImages | KLabels | KPoints => entry_reloaded C name p element s s' k
  | KPolygons | KShapes => entry_kept name element s s' k
  end.
Proof.
  intros Hp H. destruct k; simpl in H.
  - exact (add_image_backed_Ok C name p element overwrite s s' Hp H).
  - exact (add_labels_backed_Ok C name p element overwrite s s' Hp H).
  - exact (add_points_backed_Ok C name p element overwrite s s' Hp H).
  - exact (add_polygons_backed_Ok C name p element overwrite s s' Hp H).
  - exact (add_shapes_backed_Ok C name p element overwrite s s' Hp H).
Qed.

(** C3 as stated does not hold for every kind: after a backed
    [add_polygons] the entry is the caller's object and no handle has been
    made. *)
Lemma backed_add_polygons_keeps_caller_object :
  path (self Demo.backed) = Some "store.zarr" ∧
  fst (add Demo.collaborators KPolygons "g" 0 false true Demo.backed) = Ok tt ∧
  entry KPolygons "g" (snd (add Demo.collaborators KPolygons "g" 0 false true Demo.backed))
    = Some 0 ∧
  heap (snd (add Demo.collaborators KPolygons "g" 0 false true Demo.backed))
    = heap Demo.backed.
Proof. repeat split; vm_compute; reflexivity. Qed.

Lemma backed_add_reloads_rasters_and_points_witness :
  path (self Demo.backed) = Some "store.zarr" ∧
  add Demo.collaborators KImages "a" 1 false true Demo.backed
    = (Ok tt, Demo.backed_with_image) ∧
  entry_reloaded Demo.collaborators "a" "store.zarr" 1 Demo.backed
    Demo.backed_with_image KImages.
Proof.
  split; [reflexivity|]. split; [vm_compute; reflexivity|].
  apply (backed_add_reloads_rasters_and_points Demo.collaborators KImages "a"
           "store.zarr" 1 false Demo.backed Demo.backed_with_image);
    [reflexivity | vm_compute; reflexivity].
Defined.

(** ** Entries after a write *)

Section OldOrNew.

Variable C : Collaborators.
Variable si : State.

Lemma keeps_old_or_new_refl s : keeps_old_or_new si s s.
Proof. by intros H. Qed.

Lemma keeps_old_or_new_trans s1 s2 s3 :
  keeps_old_or_new si s1 s2 → keeps_old_or_new si s2 s3 → keeps_old_or_new si s1 s3.
Proof. unfold keeps_old_or_new. auto. Qed.

Lemma keeps_old_or_new_grows s s' :
  self s' = self s → heap s ⊆ heap s' → keeps_old_or_new si s s'.
Proof.
  intros Hs Hh [H1 H2]. split; [by etrans|].
  intros k n r. unfold entry. rewrite Hs. apply H2.
Qed.

Lemma keeps_old_or_new_storing : storing (keeps_old_or_new si).
Proof. intros f s. by apply keeps_old_or_new_grows. Qed.

Lemma keeps_old_or_new_allocating : allocating (keeps_old_or_new si).
Proof. intros o s. apply keeps_old_or_new_grows; [done|apply heap_grows_alloc]. Qed.

Lemma keeps_old_or_new_path p s : keeps_old_or_new si s (with_self (set_path p) s).
Proof.
  intros [H1 H2]. split; [done|]. intros k n r. specialize (H2 k n r).
  by destruct k.
Qed.

(** Whatever [_add_<kind>_in_memory] does, an entry afterwards is an entry
    from before or the element given. *)
Lemma _add_in_memory_entries k name element overwrite s :
  heap (snd (_add_in_memory C k name element overwrite s)) = heap s ∧
  ∀ k' n r, entry k' n (snd (_add_in_memory C k name element overwrite s)) = Some r →
    entry k' n s = Some r ∨ r = element.
Proof.
  split.
  - destruct k; simpl.
    + by apply (respects__add_image_in_memory C (fun s s' => heap s' = heap s));
        [|intros; congruence|].
    + by apply (respects__add_labels_in_memory C (fun s s' => heap s' = heap s));
        [|intros; congruence|].
    + by apply (respects__add_points_in_memory C (fun s s' => heap s' = heap s));
        [|intros; congruence|].
    + by apply (respects__add_polygons_in_memory C (fun s s' => heap s' = heap s));
        [|intros; congruence|].
    + by apply (respects__add_shapes_in_memory C (fun s s' => heap s' = heap s));
        [|intros; congruence|].
  - intros k' n r. unfold entry.
    destruct k;
      unfold _add_in_memory, _add_image_in_memory, _add_labels_in_memory,
        _add_points_in_memory, _add_polygons_in_memory, _add_shapes_in_memory,
        attr_contains, attr_delitem, attr_setitem, get_dims, validate, deref,
        bind, gets, ret, raise, modify; simpl;
      repeat (case_match; simpl in *; simplify_eq; try tauto);
      destruct k'; simpl; try tauto;
      destruct (decide (name = n)) as [->|Hne];
      rewrite ?get_set_eq, ?get_del_eq, ?get_set_ne, ?get_del_ne by done;
      intros; simplify_eq; try tauto;
      match goal with
      | H : ?f (self ?s) = Dict _ |- context [?f (self ?s)] => rewrite H; simpl; tauto
      end.
Qed.

Lemma reloaded_entry_keeps k name (read : M obj_id) :
  respects (keeps_old_or_new si) read →
  (∀ s r s', read s = (Ok r, s') →
     r = fresh (dom (heap s)) ∧ self s' = self s ∧ heap s ⊆ heap s') →
  respects (keeps_old_or_new si)
    (r <- read ;; _add_in_memory C k name r true).
Proof.
  intros Hread Hfresh s HI. unfold bind.
  specialize (Hread s HI).
  destruct (read s) as [[r|e] s1] eqn:E; simpl in *; [|exact Hread].
  destruct (Hfresh _ _ _ E) as (Hr & Hs & Hh).
  destruct (_add_in_memory_entries k name r true s1) as [Hh2 He2].
  destruct HI as [HI1 HI2]. split.
  - rewrite Hh2. destruct Hread as [? _]. done.
  - intros k' n r0 H0. destruct (He2 _ _ _ H0) as [Hold| ->].
    + apply HI2. unfold entry in *. by rewrite <- Hs.
    + right. rewrite Hr. intros Hin.
      apply (is_fresh (dom (heap s))). revert Hin. apply subseteq_dom. exact HI1.
Qed.

Ltac step :=
  first
    [ match goal with
      | |- respects _ (bind _ _) =>
          apply (respects_bind _ keeps_old_or_new_trans); [|intros ?]
      end
    | apply (respects_ret _ keeps_old_or_new_refl)
    | apply (respects_is_backed _ keeps_old_or_new_refl keeps_old_or_new_trans)
    | apply (respects_attr_getitem _ keeps_old_or_new_refl keeps_old_or_new_trans)
    | apply (respects_assert _ keeps_old_or_new_refl)
    | apply (respects__init_add_element _ keeps_old_or_new_refl keeps_old_or_new_trans);
        apply keeps_old_or_new_storing
    | apply (respects_write_element C _ keeps_old_or_new_refl keeps_old_or_new_trans);
        apply keeps_old_or_new_storing
    | apply (respects_write_labels C _ keeps_old_or_new_refl keeps_old_or_new_trans);
        apply keeps_old_or_new_storing ].

Ltac steps k :=
  repeat first
    [ apply (reloaded_entry_keeps k)
    | step
    | match goal with |- respects _ (if ?b then _ else _) => destruct b end ].

Lemma _read_multiscale_fresh p t name raster_type s r s' :
  _read_multiscale C p t name raster_type s = (Ok r, s') →
  r = fresh (dom (heap s)) ∧ self s' = self s ∧ heap s ⊆ heap s'.
Proof.
  intros E. apply _read_multiscale_Ok in E as (?&?&?&?&->&Hh&?&?).
  repeat split; try done. rewrite Hh. apply (heap_grows_alloc _ s).
Qed.

Lemma _read_points_fresh p s r s' :
  _read_points C p s = (Ok r, s') →
  r = fresh (dom (heap s)) ∧ self s' = self s ∧ heap s ⊆ heap s'.
Proof.
  intros E. apply _read_points_Ok in E as (?&?&->&Hh&?&?).
  repeat split; try done. rewrite Hh. apply (heap_grows_alloc _ s).
Qed.

Lemma add_image_persist_keeps name image overwrite :
  respects (keeps_old_or_new si) (add_image C name image overwrite false).
Proof.
  unfold add_image, write_image. steps KImages.
  - apply (respects__read_multiscale C _ keeps_old_or_new_refl keeps_old_or_new_trans).
    apply keeps_old_or_new_allocating.
  - apply _read_multiscale_fresh.
Qed.

Lemma add_labels_persist_keeps name labels_ overwrite :
  respects (keeps_old_or_new si) (add_labels C name labels_ overwrite false).
Proof.
  unfold add_labels. steps KLabels.
  - apply (respects__read_multiscale C _ keeps_old_or_new_refl keeps_old_or_new_trans).
    apply keeps_old_or_new_allocating.
  - apply _read_multiscale_fresh.
Qed.

Lemma add_points_persist_keeps name points_ overwrite :
  respects (keeps_old_or_new si) (add_points C name points_ overwrite false).
Proof.
  unfold add_points, write_points. steps KPoints.
  - apply (respects__read_points C _ keeps_old_or_new_refl keeps_old_or_new_trans).
    apply keeps_old_or_new_allocating.
  - apply _read_points_fresh.
Qed.

Lemma write_keeps file_path overwrite :
  respects (keeps_old_or_new si) (write C file_path overwrite).
Proof.
  apply (respects_write_with C _ keeps_old_or_new_refl keeps_old_or_new_trans).
  - intros p s. apply keeps_old_or_new_path.
  - intros. apply add_image_persist_keeps.
  - intros. apply add_labels_persist_keeps.
  - intros. apply add_points_persist_keeps.
  - apply keeps_old_or_new_storing.
Qed.

End OldOrNew.

(** After [write], returning or raising, every entry is the entry the
    container had under that name before, or a handle made by the call. *)
Lemma write_entries_old_or_new C file_path overwrite s :
  entries_old_or_new s (snd (write C file_path overwrite s)).
Proof. apply (write_keeps C s). split; [done|]. intros. by left. Qed.

(** ** Writing *)

Section Write.

Variable C : Collaborators.

Lemma same_polygons_shapes_table_refl s : same_polygons_shapes_table s s.
Proof. done. Qed.

Lemma same_polygons_shapes_table_trans s1 s2 s3 :
  same_polygons_shapes_table s1 s2 → same_polygons_shapes_table s2 s3 →
  same_polygons_shapes_table s1 s3.
Proof.
  unfold same_polygons_shapes_table. intros (? & ? & ?) (? & ? & ?).
  repeat split; congruence.
Qed.

Lemma heap_grows_refl s : heap_grows s s.
Proof. unfold heap_grows. reflexivity. Qed.

Lemma heap_grows_trans s1 s2 s3 : heap_grows s1 s2 → heap_grows s2 s3 → heap_grows s1 s3.
Proof. unfold heap_grows. intros ? ?. by etrans. Qed.

(** [write] reloads images, labels and points, and nothing else of the
    container. *)
Lemma write_polygons_shapes_table file_path overwrite s :
  same_polygons_shapes_table s (snd (write C file_path overwrite s)).
Proof.
  by apply (respects_write C same_polygons_shapes_table
              same_polygons_shapes_table_refl same_polygons_shapes_table_trans).
Qed.

(** No object is changed or dropped by [write]. *)
Lemma write_heap_grows file_path overwrite s :
  heap_grows s (snd (write C file_path overwrite s)).
Proof.
  apply (respects_write C heap_grows heap_grows_refl heap_grows_trans);
    try (intros ? ?; unfold heap_grows; simpl; reflexivity).
  intros o s0. apply heap_grows_alloc.
Qed.

(** The three ways [write] ends. *)
Lemma write_rejected file_path overwrite s e s0 :
  write_checks C file_path overwrite s = (Raise e, s0) →
  write C file_path overwrite s = (Raise e, s0) ∧ self s0 = self s.
Proof.
  intros H. split.
  - unfold write. by apply bind_eq_Raise.
  - pose proof (respects_write_checks C same_self same_self_refl_ same_self_trans_
                  file_path overwrite) as Hr.
    specialize (Hr ltac:(done) s). by rewrite H in Hr.
Qed.

Lemma write_elements_path root s :
  path (self (snd (write_elements C root s))) = path (self s).
Proof.
  by apply (respects_write_elements C same_path same_path_refl same_path_trans).
Qed.

Lemma write_passed file_path overwrite s root s0 :
  write_checks C file_path overwrite s = (Ok root, s0) →
  write C file_path overwrite s =
    match write_elements C root (with_self (set_path (Some file_path)) s0) with
    | (Ok _, s1) => (Ok tt, s1)
    | (Raise e, s1) => (Raise e, with_self (set_path None) s1)
    end.
Proof.
  intros H. unfold write. rewrite (bind_eq_Ok _ _ _ _ _ H).
  unfold bind, modify, try_except, raise. simpl.
  by destruct (write_elements C root _) as [[[]|e] s1].
Qed.

Lemma write_returns_backed file_path overwrite s s' :
  write C file_path overwrite s = (Ok tt, s') → path (self s') = Some file_path.
Proof.
  intros H.
  destruct (write_checks C file_path overwrite s) as [[root|e] s0] eqn:E.
  - rewrite (write_passed _ _ _ _ _ E) in H.
    pose proof (write_elements_path root (with_self (set_path (Some file_path)) s0)) as Hp.
    destruct (write_elements C root _) as [[[]|e] s1]; [|discriminate].
    injection H as <-. exact Hp.
  - apply write_rejected in E as [E _]. congruence.
Qed.

End Write.




(** ** Queries *)


Section Query.

Variable C : Collaborators.

Lemma same_but_points_refl s : same_but_points s s.
Proof. done. Qed.

Lemma same_but_points_trans s1 s2 s3 :
  same_but_points s1 s2 → same_but_points s2 s3 → same_but_points s1 s3.
Proof.
  unfold same_but_points. intros (?&?&?&?&?&?) (?&?&?&?&?&?).
  repeat split; congruence.
Qed.

Lemma same_fs_heap_grows_refl s : same_fs_heap_grows s s.
Proof. split; reflexivity. Qed.

Lemma same_fs_heap_grows_trans s1 s2 s3 :
  same_fs_heap_grows s1 s2 → same_fs_heap_grows s2 s3 → same_fs_heap_grows s1 s3.
Proof.
  unfold same_fs_heap_grows. intros [? ?] [? ?]. split; [congruence | by etrans].
Qed.

Lemma same_fs_heap_grows_self f s : same_fs_heap_grows s (with_self f s).
Proof. split; reflexivity. Qed.

Lemma source_unchanged_refl s : source_unchanged s s.
Proof. repeat split; reflexivity. Qed.

Lemma source_unchanged_trans s1 s2 s3 :
  source_unchanged s1 s2 → source_unchanged s2 s3 → source_unchanged s1 s3.
Proof.
  unfold source_unchanged. intros (?&?&?) (?&?&?).
  repeat split; [congruence | congruence | by etrans].
Qed.

Lemma source_unchanged_alloc : allocating source_unchanged.
Proof. intros o s. repeat split. apply heap_grows_alloc. Qed.

(** The constructor works on the new instance: the caller's container and
    the stores are out of its reach. *)
Lemma SpatialData__source images_ labels_ points_ polygons_ shapes_ table :
  respects source_unchanged
    (SpatialData_ C images_ labels_ points_ polygons_ shapes_ table).
Proof.
  intros s. unfold SpatialData_.
  pose proof (respects___init__ C same_fs_heap_grows same_fs_heap_grows_refl
                same_fs_heap_grows_trans images_ labels_ points_ polygons_ shapes_ table)
    as Hr.
  destruct (Hr ltac:(intros; apply same_fs_heap_grows_self)
               ltac:(intros; apply same_fs_heap_grows_self)
               ltac:(intros ? ?; apply same_fs_heap_grows_self)
               ltac:(intros ? ?; apply same_fs_heap_grows_self)
               ltac:(intros ? ?; apply same_fs_heap_grows_self)
               ltac:(intros ? ?; apply same_fs_heap_grows_self)
               ltac:(intros ? ?; apply same_fs_heap_grows_self)
               {| self := class_attributes; heap := heap s; fs := fs s |}) as [Hf Hh].
  simpl in Hf, Hh.
  destruct (fst (__init__ C _ _ _ _ _ _ _)); simpl; done.
Qed.

Lemma bounding_box_source request : respects source_unchanged (bounding_box C request).
Proof.
  unfold bounding_box.
  apply (respects_bind _ source_unchanged_trans); [by intros s|intros sd].
  apply (respects_bind _ source_unchanged_trans); [|intros pts; apply SpatialData__source].
  apply (respects__bounding_box_query_points_dict C source_unchanged
           source_unchanged_refl source_unchanged_trans).
  apply source_unchanged_alloc.
Qed.

Lemma __call___source request : respects source_unchanged (__call__ C request).
Proof.
  destruct request; simpl; [apply bounding_box_source | by intros s].
Qed.

(** With empty dictionaries for the other kinds and no table, the
    constructor fills the points alone. *)
Lemma SpatialData__points_only requested s sd s' :
  SpatialData_ C (Some []) (Some []) (Some requested) (Some []) (Some []) None s
    = (Ok sd, s') →
  path sd = None ∧ _images sd = Dict [] ∧ _labels sd = Dict [] ∧
  _polygons sd = Dict [] ∧ _shapes sd = Dict [] ∧ _table sd = None.
Proof.
  intros H. unfold SpatialData_, __init__ in H.
  set (loop := for_each requested _) in H.
  unfold bind, modify, ret in H. simpl in H.
  match type of H with context [loop ?s0] =>
    pose proof (respects_for_each same_but_points same_but_points_refl
                  same_but_points_trans requested
                  (fun kv => _add_points_in_memory C (fst kv) (snd kv) false)
                  ltac:(intros x; apply (respects__add_points_in_memory C same_but_points
                          same_but_points_refl same_but_points_trans); done) s0) as Hr;
    fold loop in Hr;
    destruct (loop s0) as [[[]|e] s1]
  end; simpl in *; [|discriminate].
  injection H as <- _.
  destruct Hr as (?&?&?&?&?&?). done.
Qed.

End Query.

Section Returns.

Variable C : Collaborators.

(** Reading the elements of a dictionary of live objects. *)
Lemma read_elements_Ok (d : list (string * obj_id)) s :
  Forall (fun kv => is_Some (heap s !! snd kv)) d →
  map_M (fun kv => o <- deref (snd kv) ;; ret (fst kv, o)) d s
    = (Ok (element_objects (heap s) d), s).
Proof.
  induction 1 as [|[k r] d [o Ho] _ IH]; simpl; [done|].
  unfold bind at 1 2. unfold deref at 1. unfold bind at 1, gets, ret at 1 2. simpl in *.
  rewrite Ho. simpl. unfold bind at 1. rewrite IH. done.
Qed.

(** Making the new elements: each is a live object afterwards. *)
Lemma new_elements_Ok (requested : list (string * PyObj)) s :
  ∃ refs s',
    map_M (fun ko => r <- alloc (snd ko) ;; ret (fst ko, r)) requested s = (Ok refs, s') ∧
    self s' = self s ∧ heap s ⊆ heap s' ∧
    refs.*1 = requested.*1 ∧
    Forall2 (fun kr ko => heap s' !! snd kr = Some (snd ko)) refs requested.
Proof.
  revert s. induction requested as [|[k o] requested IH]; intros s; simpl.
  - exists [], s. repeat split; done.
  - set (s1 := with_heap (insert (fresh (dom (heap s))) o) s).
    destruct (IH s1) as (refs & s' & E & Hs & Hh & Hn & Hl).
    exists ((k, fresh (dom (heap s))) :: refs), s'.
    split; [|split; [|split; [|split]]].
    + unfold bind at 1 2. unfold alloc at 1. unfold bind at 1 2, gets, modify, ret at 1 2.
      simpl. fold s1. unfold bind at 1. rewrite E. done.
    + by rewrite Hs.
    + etrans; [apply (heap_grows_alloc o s)|exact Hh].
    + rewrite !fmap_cons. simpl. by rewrite Hn.
    + constructor; [|exact Hl]. simpl.
      eapply lookup_weaken; [|exact Hh]. subst s1. simpl. apply lookup_insert_eq.
Qed.

Lemma new_elements_valid (h : gmap obj_id PyObj) (refs : list (string * obj_id)) (requested : list (string * PyObj)) :
  Forall2 (fun kr ko => h !! snd kr = Some (snd ko)) refs requested →
  Forall (fun ko => validates C Point_s (snd ko) = true) requested →
  Forall (fun kr => ∃ o, h !! snd kr = Some o ∧ validates C Point_s o = true) refs.
Proof.
  induction 1 as [|kr ko refs requested Hkr _ IH]; intros Hv; [done|].
  apply Forall_cons in Hv as [Hv Hval]. constructor; [|by apply IH].
  by exists (snd ko).
Qed.

(** Filling the points of a new container. *)
Lemma fill_points_Ok (refs : list (string * obj_id)) : ∀ s d,
  _points (self s) = Dict d →
  Forall (fun kr => PyDict.get (fst kr) d = None) refs →
  NoDup refs.*1 →
  Forall (fun kr => ∃ o, heap s !! snd kr = Some o ∧ validates C Point_s o = true) refs →
  ∃ s', for_each refs (fun kv => _add_points_in_memory C (fst kv) (snd kv) false) s
          = (Ok tt, s').
Proof.
  induction refs as [|[k r] refs IH]; intros s d Hd Hfree Hnd Hval; simpl.
  - by exists s.
  - apply Forall_cons in Hfree as [Hk Hfree]. apply Forall_cons in Hval as [(o & Ho & Hv) Hval].
    apply NoDup_cons in Hnd as [Hk' Hnd]. simpl in *.
    set (s1 := with_self (set_points (Dict (PyDict.set k r d))) s).
    assert (E : _add_points_in_memory C k r false s = (Ok tt, s1)).
    { unfold _add_points_in_memory, attr_contains, attr_setitem, validate, deref, bind,
        gets, ret, raise, modify, PyDict.contains. simpl.
      rewrite Hd. simpl. rewrite Hk, Ho. simpl. rewrite Hv. simpl. by rewrite Hd. }
    destruct (IH s1 (PyDict.set k r d)) as [s' E']; try done.
    + apply Forall_forall. intros [k0 r0] Hin. simpl.
      rewrite Forall_forall in Hfree. specialize (Hfree _ Hin). simpl in Hfree.
      rewrite get_set_ne; [done|]. intros ->. apply Hk'.
      apply list_elem_of_fmap. by exists (k0, r0).
    + exists s'. unfold bind. by rewrite E.
Qed.

(** A query returns whenever the points of the source are live objects and
    the elements [_bounding_box_query_points_dict] gives are valid points
    under distinct names. *)
Lemma bounding_box_returns request s requested :
  Forall (fun kv => is_Some (heap s !! snd kv)) (items (_points (self s))) →
  query_points C (element_objects (heap s) (items (_points (self s)))) request
    = Some requested →
  NoDup requested.*1 →
  Forall (fun ko => validates C Point_s (snd ko) = true) requested →
  is_ok (fst (bounding_box C request s)) = true.
Proof.
  intros Hlive Hq Hnd Hval.
  destruct (new_elements_Ok requested s) as (refs & s1 & E & Hs & Hh & Hn & Hl).
  assert (Eq : _bounding_box_query_points_dict C (_points (self s)) request s
               = (Ok refs, s1)).
  { unfold _bounding_box_query_points_dict. unfold bind at 1.
    rewrite (read_elements_Ok _ _ Hlive). by rewrite Hq. }
  set (s0 := {| self := mkSpatialData (Dict []) (Dict []) (Dict []) (Dict []) (Dict [])
                          None None;
                heap := heap s1; fs := fs s1 |}).
  assert (Hvalid : Forall (fun kr => ∃ o, heap s0 !! snd kr = Some o
                                     ∧ validates C Point_s o = true) refs).
  { apply (new_elements_valid _ _ _ Hl Hval). }
  assert (Hfree : Forall (fun kr : string * obj_id =>
                            PyDict.get (fst kr) ([] : list (string * obj_id)) = None) refs).
  { apply Forall_forall. by intros. }
  assert (Hnd' : NoDup refs.*1) by by rewrite Hn.
  destruct (fill_points_Ok refs s0 [] eq_refl Hfree Hnd' Hvalid) as [s' E'].
  unfold bounding_box. unfold bind at 1, gets at 1. unfold bind at 1. rewrite Eq.
  unfold SpatialData_, __init__.
  set (loop := for_each refs _) in *.
  unfold bind, modify, ret. simpl.
  match goal with |- context [loop ?x] => change x with s0 end.
  by rewrite E'.
Qed.

End Returns.

(** C6: a bounding-box query leaves the source as it was, whether it returns
    or raises: the container (collections, table and path) and the stores are
    the same and no object has been changed; the container it returns is a new
    one, unbacked, with points alone: its other collections are empty
    dictionaries of its own and it has no table; and it does return when the
    points of the source are live objects and the elements selected for the
    request are valid points under distinct names. *)
Theorem bounding_box_returns_new_unbacked_points (C : Collaborators) (request : BoundingBoxRequest) (s : State) :
  source_unchanged s (snd (bounding_box C request s)) ∧
  (∀ sd, fst (bounding_box C request s) = Ok sd →
     path sd = None ∧
     fst (is_backed {| self := sd; heap := heap s; fs := fs s |}) = Ok false ∧
     _images sd = Dict [] ∧ _labels sd = Dict [] ∧
     _polygons sd = Dict [] ∧ _shapes sd = Dict [] ∧ _table sd = None) ∧
  (∀ requested,
     Forall (fun kv => is_Some (heap s !! snd kv)) (items (_points (self s))) →
     query_points C (element_objects (heap s) (items (_points (self s)))) request
       = Some requested →
     NoDup requested.*1 →
     Forall (fun ko => validates C Point_s (snd ko) = true) requested →
     is_ok (fst (bounding_box C request s)) = true).
Proof.
  split; [apply bounding_box_source|]. split; [|apply bounding_box_returns].
  intros sd H.
  destruct (bounding_box C request s) as [r s'] eqn:E. simpl in H. subst r.
  unfold bounding_box in E.
  apply bind_Ok in E as (sd0 & s0 & _ & E).
  apply bind_Ok in E as (pts & s1 & _ & E).
  apply SpatialData__points_only in E as (Hp & ? & ? & ? & ? & ?).
  repeat split; try done.
  unfold is_backed, bind, gets, ret. simpl. by rewrite Hp.
Qed.

Lemma bounding_box_returns_new_unbacked_points_witness :
  fst (bounding_box Demo.collaborators Demo.box Demo.unbacked_points) = Ok Demo.queried ∧
  source_unchanged Demo.unbacked_points
    (snd (bounding_box Demo.collaborators Demo.box Demo.unbacked_points)) ∧
  _images Demo.queried = Dict [] ∧
  is_ok (fst (bounding_box Demo.collaborators Demo.box Demo.unbacked_points)) = true.
Proof.
  split; [vm_compute; reflexivity|].
  destruct (bounding_box_returns_new_unbacked_points Demo.collaborators Demo.box
              Demo.unbacked_points) as (H1 & H2 & H3).
  split; [exact H1|]. split.
  - destruct (H2 Demo.queried) as (_ & _ & H & _); [vm_compute; reflexivity | exact H].
  - apply (H3 [("p", mkObj PaTable Demo.xy (Some Identity) [[1; 1]; [5; 5]]%Z)]).
    + repeat constructor. by eexists.
    + vm_compute. reflexivity.
    + repeat constructor. set_solver.
    + repeat constructor.
Defined.

(** ** Staying backed *)

Lemma same_path_assignable k : assignable same_path (kind_attr k).
Proof. intros m s. by destruct k. Qed.

Lemma same_path_storing : storing same_path.
Proof. by intros f s. Qed.

Lemma same_path_allocating : allocating same_path.
Proof. by intros o s. Qed.

Lemma run_op_stays_backed C op s :
  path (self s) ≠ None → fails_midway C op s = false →
  path (self (run_op C op s)) ≠ None.
Proof.
  intros Hb Hf. destruct op as [k name element overwrite flag|element t|request|file_path overwrite];
    simpl in *.
  - pose proof (respects_add C same_path same_path_refl same_path_trans k name element
                  overwrite flag) as Hr.
    rewrite (Hr (same_path_assignable k) same_path_storing same_path_allocating s).
    exact Hb.
  - pose proof (respects_set_transformation C same_path same_path_refl same_path_trans
                  element t) as Hr.
    rewrite (Hr same_path_storing s). exact Hb.
  - destruct (__call___source C request s) as (-> & _). exact Hb.
  - destruct (write_checks C file_path overwrite s) as [[root|e] s0] eqn:E; simpl in Hf.
    + destruct (write C file_path overwrite s) as [[[]|e] s1] eqn:Ew; [|discriminate].
      simpl. by rewrite (write_returns_backed C _ _ _ _ Ew).
    + apply write_rejected in E as [Ew Hs]. rewrite Ew. simpl. by rewrite Hs.
Qed.

(** A [write] that raises from its [try] block leaves [path] unset. *)
Lemma run_op_fails_midway C op s :
  fails_midway C op s = true → path (self (run_op C op s)) = None.
Proof.
  destruct op as [| | |file_path overwrite]; simpl; try discriminate.
  intros H. apply andb_true_iff in H as [Hc Hw]. apply negb_true_iff in Hw.
  destruct (write_checks C file_path overwrite s) as [[root|e] s0] eqn:E; [|discriminate].
  rewrite (write_passed C _ _ _ _ _ E) in *.
  destruct (write_elements C root _) as [[[]|e] s1]; [discriminate|done].
Qed.

(** C5, amended: once a container is backed, it stays backed through every
    sequence of [add_<kind>], [set_transformation] and query calls, returning
    or raising, of [write] calls that return and of [write] calls rejected by
    the checks; the one transition back is a [write] that raises from its
    [try] block, which leaves [path] unset. *)
Theorem backed_stays_backed (C : Collaborators) (ops : list Op) (s : State) :
  path (self s) ≠ None →
  no_midway_failure C ops s = true →
  path (self (run_ops C ops s)) ≠ None ∧
  fst (is_backed (run_ops C ops s)) = Ok true ∧
  (∀ op, fails_midway C op (run_ops C ops s) = true →
     path (self (run_op C op (run_ops C ops s))) = None).
Proof.
  intros Hb Hn.
  assert (H : path (self (run_ops C ops s)) ≠ None).
  { revert s Hb Hn. induction ops as [|op ops IH]; intros s Hb Hn; simpl in *; [done|].
    apply andb_true_iff in Hn as [Hf Hn]. apply negb_true_iff in Hf.
    apply IH; [by apply run_op_stays_backed | done]. }
  split; [exact H|]. split; [|intros op; apply run_op_fails_midway].
  unfold is_backed, bind, gets, ret. simpl.
  by destruct (path (self (run_ops C ops s))).
Qed.

(** C5 as stated does not hold: a container backed by a [write] that
    returned, then given an image the writer fails on, is unbacked after a
    [write] to another location has raised from its [try] block. *)
Lemma failed_write_unbacks :
  fst (write Demo.collaborators "old.zarr" false Demo.unbacked_one_image) = Ok tt ∧
  fst (is_backed Demo.backed_by_write) = Ok true ∧
  fst (write Demo.collaborators "new.zarr" false
         (run_op Demo.collaborators (OpAdd KImages "broken" 1 false true)
            Demo.backed_by_write))
    = Raise IOError ∧
  path (self (run_ops Demo.collaborators Demo.failing_calls Demo.backed_by_write))
    = None ∧
  fst (is_backed (run_ops Demo.collaborators Demo.failing_calls Demo.backed_by_write))
    = Ok false.
Proof. repeat split; vm_compute; reflexivity. Qed.

Lemma backed_stays_backed_witness :
  path (self Demo.backed) ≠ None ∧
  no_midway_failure Demo.collaborators Demo.calls Demo.backed = true ∧
  fst (is_backed (run_ops Demo.collaborators Demo.calls Demo.backed)) = Ok true.
Proof.
  split; [discriminate|]. split; [vm_compute; reflexivity|].
  destruct (backed_stays_backed Demo.collaborators Demo.calls Demo.backed) as (_ & H & _);
    [discriminate | vm_compute; reflexivity | exact H].
Defined.

(** ** Transformations *)

(** [set_transformation] changes neither the container nor any object: its
    only effect is on the store of a backed container. *)
Lemma set_transformation_in_memory_unchanged C element t s :
  self (snd (set_transformation C element t s)) = self s ∧
  heap (snd (set_transformation C element t s)) = heap s.
Proof.
  apply (respects_set_transformation C same_self_heap same_self_heap_refl
           same_self_heap_trans element t same_self_heap_storing s).
Qed.

Lemma get_transformation_heap element s s' :
  heap s' = heap s →
  fst (get_transformation element s') = fst (get_transformation element s).
Proof.
  intros H. unfold get_transformation, _get_transform, deref, bind, gets, ret, raise.
  simpl. rewrite H. by destruct (heap s !! element).
Qed.

(** C2 fails on the code: [set_transformation_in_memory] has no body, so
    after [set_transformation(element, t)] the transformation
    [get_transformation(element)] returns is the one from before the call,
    for every element and container; on the points element of
    [Demo.unbacked_points], present in exactly one collection with the
    identity recorded, setting a scale returns and the identity is still what
    is observed. *)
Theorem set_transformation_is_not_observed :
  (∀ C element t s,
     fst (get_transformation element (snd (set_transformation C element t s)))
     = fst (get_transformation element s)) ∧
  entry KPoints "p" Demo.unbacked_points = Some 0 ∧
  set_transformation Demo.collaborators 0 (Scale [2; 2]%Z) Demo.unbacked_points
    = (Ok tt, Demo.unbacked_points) ∧
  fst (get_transformation 0
         (snd (set_transformation Demo.collaborators 0 (Scale [2; 2]%Z)
                 Demo.unbacked_points)))
    = Ok (Some Identity) ∧
  Some Identity ≠ Some (Scale [2; 2]%Z).
Proof.
  split; [|repeat split; try (vm_compute; reflexivity); discriminate].
  intros C element t s. apply get_transformation_heap.
  apply set_transformation_in_memory_unchanged.
Qed.

(** * Further properties of the operations *)

(** ** Finding an element by identity *)

Lemma scan_cons element element_type acc n v d :
  scan element element_type acc ((n, v) :: d)
  = scan element element_type
      (if Nat.eqb v element
       then ((fst (fst acc) ++ [v])%list, element_type, n) else acc) d.
Proof. reflexivity. Qed.

Lemma scan_found element element_type acc d :
  fst (fst (scan element element_type acc d))
  = (fst (fst acc) ++ filter (fun v => v = element) (map snd d))%list.
Proof.
  revert acc. induction d as [|[n v] d IH]; intros acc.
  - simpl. by rewrite app_nil_r.
  - rewrite scan_cons, IH. simpl.
    destruct (Nat.eqb v element) eqn:E.
    + apply Nat.eqb_eq in E. subst v. simpl.
      rewrite filter_cons_True by done. by rewrite <- app_assoc.
    + apply Nat.eqb_neq in E. by rewrite filter_cons_False.
Qed.

Lemma scan_absent element element_type acc d :
  element ∉ map snd d → scan element element_type acc d = acc.
Proof.
  revert acc. induction d as [|[n v] d IH]; intros acc Hn; [done|].
  rewrite scan_cons. simpl in Hn.
  apply not_elem_of_cons in Hn as [Hne Hn].
  destruct (Nat.eqb v element) eqn:E; [apply Nat.eqb_eq in E; congruence|].
  by apply IH.
Qed.

Lemma scan_last element element_type acc d name :
  (name, element) ∈ d →
  length (filter (fun v => v = element) (map snd d)) = 1 →
  snd (fst (scan element element_type acc d)) = element_type ∧
  snd (scan element element_type acc d) = name.
Proof.
  revert acc. induction d as [|[n v] d IH]; intros acc Hin Hone.
  - by apply elem_of_nil in Hin.
  - rewrite scan_cons. simpl in Hone.
    destruct (Nat.eqb v element) eqn:E.
    + apply Nat.eqb_eq in E. subst v. rewrite filter_cons_True in Hone by done.
      simpl in Hone.
      assert (Hno : element ∉ map snd d).
      { destruct (filter (fun v => v = element) (map snd d)) eqn:Ef; [|discriminate].
        by apply (filter_nil_not_elem_of _ _ _ Ef). }
      rewrite (scan_absent _ _ _ _ Hno). simpl.
      apply elem_of_cons in Hin as [Heq|Hin]; [by injection Heq as ->|].
      exfalso. apply Hno. apply list_elem_of_fmap. by exists (name, element).
    + apply Nat.eqb_neq in E. rewrite filter_cons_False in Hone by done.
      apply elem_of_cons in Hin as [Heq|Hin]; [injection Heq as -> ->; done|].
      by apply IH.
Qed.

Lemma find_element_scans sd element :
  find_element sd element
  = scan element "shapes"
      (scan element "polygons"
         (scan element "points"
            (scan element "labels"
               (scan element "images" ([], "", "") (items (_images sd)))
               (items (_labels sd)))
            (items (_points sd)))
         (items (_polygons sd)))
      (items (_shapes sd)).
Proof. reflexivity. Qed.

Lemma find_element_found sd element :
  fst (fst (find_element sd element))
  = filter (fun v => v = element) (elements_of sd).
Proof.
  rewrite find_element_scans, !scan_found. unfold elements_of. simpl.
  rewrite app_nil_r, !filter_app. by rewrite <- !app_assoc.
Qed.

(** X1: [set_transformation] looks the element up by identity before anything
    else: an element that is in no collection raises the not-found error and
    one that is in the collections more than once raises the ambiguity error,
    on a backed container as on an unbacked one, and neither the container nor
    the objects nor the stores are touched. *)
Theorem set_transformation_lookup_errors (C : Collaborators) (element : obj_id) (t : BaseTransformation) (s : State) :
  occurrences element (self s) ≠ 1 →
  set_transformation C element t s =
    (Raise (if Nat.eqb (occurrences element (self s)) 0
            then ElementNotFound else AmbiguousElement), s).
Proof.
  intros Hn. unfold occurrences in *. rewrite <- find_element_found in *.
  unfold set_transformation, set_transformation_in_memory.
  unfold bind at 1, ret at 1. unfold bind at 1, gets at 1. unfold bind at 1.
  destruct (length (fst (fst (find_element (self s) element)))) as [|[|n]];
    simpl; [done|done|done].
Qed.

(** ** The group of an element *)

Lemma members_create f (p t : string) (n : string) :
  members (<[p := <[t := (∅ : gmap string ZNode)]> (root_of f p)]> f) p t !! n = None.
Proof.
  unfold members at 1, root_of at 1.
  rewrite lookup_insert_eq. simpl. rewrite lookup_insert_eq. done.
Qed.

Lemma _get_group_for_element_Ok k name p s :
  path (self s) = Some p →
  is_Some (fs s !! p) →
  ∃ s', _get_group_for_element name (kind_name k) s
          = (Ok (Leaf p (kind_name k) name), s') ∧
    self s' = self s ∧ heap s' = heap s ∧
    members (fs s') p (kind_name k) !! name
      = Some (default EmptyGroup (members (fs s) p (kind_name k) !! name)) ∧
    (∀ n, n ≠ name →
       members (fs s') p (kind_name k) !! n = members (fs s) p (kind_name k) !! n) ∧
    (is_Some (members (fs s) p (kind_name k) !! name) → s' = s).
Proof.
  intros Hp [root Hroot].
  unfold _get_group_for_element, open_root, require_group, group_getitem, create_group,
    group_contains, assert_, bind, gets, ret, raise, modify.
  rewrite Hp. simpl. rewrite Hroot.
  replace (in_element_types (kind_name k)) with true by by destruct k.
  simpl.
  assert (Hr : root_of (fs s) p = root) by (unfold root_of; by rewrite Hroot).
  destruct (root !! kind_name k) as [g|] eqn:Hg.
  - rewrite Hr, Hg. rewrite bool_decide_true by by eexists. simpl.
    rewrite Hr, Hg. rewrite bool_decide_true by by eexists. simpl.
    assert (Hm : members (fs s) p (kind_name k) = g).
    { unfold members. by rewrite Hr, Hg. }
    rewrite Hm.
    destruct (g !! name) as [node|] eqn:Hn.
    + rewrite bool_decide_true by by eexists. simpl. rewrite Hm, Hn.
      rewrite bool_decide_true by by eexists. simpl.
      eexists. split; [reflexivity|]. repeat split; try done; rewrite ?Hm; try done.
    + rewrite bool_decide_false by (by intros [? ?]). simpl. rewrite Hm, Hn.
      rewrite bool_decide_false by (by intros [? ?]). simpl.
      eexists. split; [reflexivity|]. simpl. rewrite Hr.
      repeat split.
      * unfold members, root_of. rewrite lookup_insert_eq. simpl.
        rewrite lookup_insert_eq. simpl. by rewrite lookup_insert_eq.
      * intros n Hne. unfold members at 1, root_of at 1. rewrite lookup_insert_eq. simpl.
        rewrite lookup_insert_eq. simpl. rewrite lookup_insert_ne by congruence.
        by rewrite Hm.
      * by intros [? ?].
  - rewrite Hr, Hg. rewrite bool_decide_false by (by intros [? ?]). simpl.
    rewrite Hr, Hg. rewrite bool_decide_false by (by intros [? ?]). simpl.
    assert (Hm : members (fs s) p (kind_name k) = ∅).
    { unfold members. by rewrite Hr, Hg. }
    rewrite Hm, lookup_empty. simpl.
    rewrite ?Hr, ?members_create.
    replace (<[p := <[kind_name k := (∅ : gmap string ZNode)]> root]> (fs s))
      with (<[p := <[kind_name k := (∅ : gmap string ZNode)]> (root_of (fs s) p)]> (fs s))
      by by rewrite Hr.
    rewrite !members_create. rewrite bool_decide_false by (by intros [? ?]). simpl.
    rewrite !members_create. rewrite bool_decide_false by (by intros [? ?]). simpl.
    eexists. split; [reflexivity|]. simpl. repeat split.
    + unfold members at 1, root_of at 1. rewrite lookup_insert_eq. simpl.
      rewrite lookup_insert_eq. simpl. by rewrite lookup_insert_eq.
    + intros n Hne. unfold members at 1, root_of at 1. rewrite lookup_insert_eq. simpl.
      rewrite lookup_insert_eq. simpl. rewrite lookup_insert_ne by congruence.
      by rewrite members_create.
    + by intros [? ?].
Qed.

Lemma count_zero_absent (element : obj_id) (l : list obj_id) :
  length (filter (fun v => v = element) l) = 0 → element ∉ l.
Proof.
  intros H. apply nil_length_inv in H. by apply (filter_nil_not_elem_of _ _ _ H).
Qed.

Lemma count_pos_present (element : obj_id) (l : list obj_id) :
  element ∈ l → 0 < length (filter (fun v => v = element) l).
Proof.
  intros H. assert (Hf : element ∈ filter (fun v => v = element) l).
  { by apply list_elem_of_filter. }
  destruct (filter _ l); [by apply elem_of_nil in Hf | simpl; lia].
Qed.

Lemma find_element_where sd element k name :
  (name, element) ∈ items (attr_get (kind_attr k) sd) →
  occurrences element sd = 1 →
  snd (fst (find_element sd element)) = kind_name k ∧
  snd (find_element sd element) = name.
Proof.
  intros Hin Hone. unfold occurrences, elements_of in Hone. simpl in Hone.
  rewrite app_nil_r, !filter_app, !length_app in Hone.
  assert (Hk : 0 < length (filter (fun v => v = element)
                             (map snd (items (attr_get (kind_attr k) sd))))).
  { apply count_pos_present. apply list_elem_of_fmap. by exists (name, element). }
  rewrite find_element_scans.
  destruct k; simpl in *.
  - rewrite (scan_absent _ "shapes"), (scan_absent _ "polygons"),
      (scan_absent _ "points"), (scan_absent _ "labels")
      by (apply count_zero_absent; lia).
    apply scan_last; [done | lia].
  - rewrite (scan_absent _ "shapes"), (scan_absent _ "polygons"),
      (scan_absent _ "points") by (apply count_zero_absent; lia).
    apply scan_last; [done | lia].
  - rewrite (scan_absent _ "shapes"), (scan_absent _ "polygons")
      by (apply count_zero_absent; lia).
    apply scan_last; [done | lia].
  - rewrite (scan_absent _ "shapes") by (apply count_zero_absent; lia).
    apply scan_last; [done | lia].
  - apply scan_last; [done | lia].
Qed.


Lemma members_store_exists (f : gmap string Store) (p t n : string) :
  is_Some (members f p t !! n) → is_Some (f !! p).
Proof.
  unfold members, root_of. destruct (f !! p) as [root|]; [by eexists|].
  simpl. rewrite lookup_empty. simpl. rewrite lookup_empty. by intros [? ?].
Qed.


Lemma set_transformation_lookup_errors_witness :
  occurrences 5 (self Demo.unbacked_points) ≠ 1 ∧
  set_transformation Demo.collaborators 5 Identity Demo.unbacked_points
    = (Raise ElementNotFound, Demo.unbacked_points).
Proof.
  split; [discriminate|].
  apply (set_transformation_lookup_errors Demo.collaborators 5 Identity
           Demo.unbacked_points). discriminate.
Defined.



(** ** Adding in memory *)

Lemma _add_in_memory_outcome C k name element overwrite s :
  match fst (_add_in_memory C k name element overwrite s) with
  | Ok _ =>
      snd (_add_in_memory C k name element overwrite s) = added k name element s
  | Raise DuplicateName =>
      snd (_add_in_memory C k name element overwrite s) = s ∧
      overwrite = false ∧ entry k name s ≠ None
  | Raise _ =>
      snd (_add_in_memory C k name element overwrite s) = cleared k name s
  end.
Proof.
  unfold added, cleared, entry.
  destruct k;
    unfold _add_in_memory, _add_image_in_memory, _add_labels_in_memory,
      _add_points_in_memory, _add_polygons_in_memory, _add_shapes_in_memory,
      attr_contains, attr_delitem, attr_setitem, get_dims, validate, deref,
      bind, gets, ret, raise, modify; simpl;
    repeat (case_match; simpl in *; simplify_eq; try done);
    repeat match goal with
    | H : ?f (self ?s) = _ |- context [?f (self ?s)] => rewrite H; simpl
    | H : PyDict.contains _ _ = _ |- _ => rewrite H; simpl
    | H : negb ?b = _ |- _ => destruct b; simpl in *; simplify_eq
    end;
    rewrite ?set_del; try done.
  all: match goal with
       | H : PyDict.contains _ _ = true |- _ ∧ _ =>
           split; [done|split; [done|]]; by apply not_eq_None_Some, contains_true
       | H : PyDict.contains _ (items ?m) = false, E : ?m = Dict _ |- _ =>
           rewrite E in H; simpl in H; apply contains_false in H;
           by rewrite (set_absent _ _ _ H), (del_absent _ _ H)
       end.
Qed.

(** X4: when [_add_<kind>_in_memory] returns, for any of the five kinds, the
    collection is the old one without the entry of the name, followed by the
    new entry: the name maps to the element, every other name maps to what it
    did, and the name is the last key of the dictionary (an overwritten key
    moves to the end); nothing else of the state changes. *)
Theorem _add_in_memory_sets_last C k name element overwrite s s' :
  _add_in_memory C k name element overwrite s = (Ok tt, s') →
  s' = added k name element s ∧
  entry k name s' = Some element ∧
  (∀ n, n ≠ name → entry k n s' = entry k n s) ∧
  last (items (attr_get (kind_attr k) (self s'))) = Some (name, element).
Proof.
  intros H. pose proof (_add_in_memory_outcome C k name element overwrite s) as O.
  rewrite H in O. simpl in O. subst s'. split; [done|].
  split; [apply entry_added_eq|]. split; [intros n Hn; by apply entry_added_ne|].
  unfold added. destruct k; simpl; by rewrite last_snoc.
Qed.

Lemma members_create_ne f (p t t' n : string) :
  root_of f p !! t = None →
  members (<[p := <[t := (∅ : gmap string ZNode)]> (root_of f p)]> f) p t' !! n
    = members f p t' !! n.
Proof.
  intros Hn. unfold members at 1, root_of at 1.
  rewrite lookup_insert_eq. simpl.
  destruct (decide (t = t')) as [<-|Hne].
  - rewrite lookup_insert_eq. simpl. unfold members. by rewrite Hn.
  - by rewrite lookup_insert_ne.
Qed.

Lemma members_put_ne f (p t name t' n' : string) (node : ZNode) :
  t' ≠ t ∨ n' ≠ name →
  members (<[p := <[t := <[name := node]> (members f p t)]> (root_of f p)]> f) p t' !! n'
    = members f p t' !! n'.
Proof.
  intros Hne. unfold members at 1, root_of at 1.
  rewrite lookup_insert_eq. simpl.
  destruct (decide (t = t')) as [<-|Ht].
  - rewrite lookup_insert_eq. simpl. destruct Hne as [?|?]; [done|].
    by rewrite lookup_insert_ne.
  - by rewrite lookup_insert_ne.
Qed.

Lemma not_is_Some_None {A} (o : option A) : bool_decide (is_Some o) = false → o = None.
Proof. destruct o; [|done]. rewrite bool_decide_eq_false. intros []. by eexists. Qed.

Lemma _init_add_element_keeps k name s g s' p :
  path (self s) = Some p →
  _init_add_element name (kind_name k) false s = (Ok g, s') →
  ∀ t n, members (fs s') p t !! n = members (fs s) p t !! n.
Proof.
  intros Hp H t n.
  unfold _init_add_element, open_root, create_group, group_getitem, group_delitem,
    group_contains, local, assert_, bind, gets, ret, raise, modify in H.
  rewrite Hp in H.
  destruct k; simpl in H;
    repeat (case_match; simpl in *; simplify_eq); try reflexivity.
  all: apply members_create_ne; by apply not_is_Some_None.
Qed.

Lemma write_element_puts C element_type element p t name s s' :
  write_element C element_type element (Sub p t) name s = (Ok tt, s') →
  ∃ o node, heap s !! element = Some o ∧ encode C element_type name o = Some node ∧
    self s' = self s ∧ heap s' = heap s ∧
    members (fs s') p t !! name = Some node ∧
    (∀ t' n', t' ≠ t ∨ n' ≠ name →
       members (fs s') p t' !! n' = members (fs s) p t' !! n').
Proof.
  unfold write_element, put_node, deref, bind, gets, ret, raise, modify.
  simpl. intros H.
  destruct (heap s !! element) as [o|] eqn:Ho; simpl in H; [|discriminate].
  destruct (encode C element_type name o) as [node|] eqn:Hn; simpl in H; [|discriminate].
  injection H as <-. exists o, node. simpl.
  repeat split; try done; [apply members_put|].
  intros t' n' Hne. by apply members_put_ne.
Qed.

Lemma write_labels_puts C labels_ p name s s' :
  write_labels C labels_ (Root p) name s = (Ok tt, s') →
  ∃ o node, heap s !! labels_ = Some o ∧ encode C "labels" name o = Some node ∧
    self s' = self s ∧ heap s' = heap s ∧
    members (fs s') p "labels" !! name = Some node ∧
    (∀ t' n', t' ≠ "labels" ∨ n' ≠ name →
       members (fs s') p t' !! n' = members (fs s) p t' !! n').
Proof.
  unfold write_labels. intros H. inv_bind H as a s0 E.
  assert (a = Sub p "labels" ∧ self s0 = self s ∧ heap s0 = heap s ∧
          ∀ t n, members (fs s0) p t !! n = members (fs s) p t !! n)
    as (-> & Hs & Hh & Hf).
  { unfold require_group, create_group, group_getitem, group_contains, bind, gets,
      ret, raise, modify in E. simpl in E.
    repeat (case_match; simpl in *; simplify_eq); repeat split; try done.
    intros t n. apply members_create_ne. by apply not_is_Some_None. }
  apply write_element_puts in H as (o & node & ? & ? & ? & ? & ? & Hf').
  exists o, node. repeat split; try congruence.
  intros t' n' Hne. by rewrite Hf', Hf.
Qed.

Lemma ret_Ok {A} (a b : A) s s' : ret a s = (Ok b, s') → b = a ∧ s' = s.
Proof. unfold ret. intros H. by simplify_eq. Qed.

Lemma add_stored C k name element p s s' :
  path (self s) = Some p →
  add C k name element false false s = (Ok tt, s') →
  stored C k name p s s'.
Proof.
  intros Hpath H. unfold stored.
  destruct k; unfold add, add_image, add_labels, add_points, add_polygons, add_shapes in H.
  all: inv_bind H as u s1 E; apply ret_Ok in E as [-> ->].
  all: inv_bind H as b s2 E; apply is_backed_Ok in E as [-> ->].
  all: rewrite Hpath in H.
  all: inv_bind H as g s2 E.
  - pose proof (_init_add_element_keeps KImages _ _ _ _ p Hpath E) as Hk2.
    apply (_init_add_element_Ok KImages _ _ _ _ _ p) in E as (Hs2 & Hh2 & ->); [|done].
    inv_bind H as r s3 E. apply attr_getitem_Ok in E as [-> Hget].
    rewrite Hs2 in Hget.
    inv_bind H as u s3 E. destruct u.
    apply write_element_puts in E as (o & node & Ho & Hn & Hs3 & Hh3 & Hm3 & Hk3).
    inv_bind H as u s4 E. injection E as _ <-.
    inv_bind H as r' s4 E.
    apply _read_multiscale_Ok in E as (node' & o' & Hm4 & Hd & Hr & Hh4 & Hs4 & Hf4).
    pose proof (_add_in_memory_outcome C KImages name r' true s4) as O.
    change (_add_image_in_memory C) with (_add_in_memory C KImages) in H.
    rewrite H in O. simpl in O. subst s'. simpl in *.
    rewrite Hm3 in Hm4. injection Hm4 as <-.
    exists r, o, node. rewrite Hf4, Hm3. simpl.
    split; [done|]. split; [congruence|]. split; [done|]. split; [done|].
    split; [intros t n Hne; by rewrite Hk3, Hk2|].
    exists o'. split; [done|]. unfold add_entry. simpl.
    rewrite Hs4, Hs3, Hs2, Hh4, Hh3, Hh2, Hr, Hh3, Hh2. done.
  - pose proof (_init_add_element_keeps KLabels _ _ _ _ p Hpath E) as Hk2.
    apply (_init_add_element_Ok KLabels _ _ _ _ _ p) in E as (Hs2 & Hh2 & ->); [|done].
    inv_bind H as r s3 E. apply attr_getitem_Ok in E as [-> Hget].
    rewrite Hs2 in Hget.
    inv_bind H as u s3 E. destruct u.
    apply write_labels_puts in E as (o & node & Ho & Hn & Hs3 & Hh3 & Hm3 & Hk3).
    inv_bind H as u s4 E. injection E as _ <-.
    inv_bind H as r' s4 E.
    apply _read_multiscale_Ok in E as (node' & o' & Hm4 & Hd & Hr & Hh4 & Hs4 & Hf4).
    pose proof (_add_in_memory_outcome C KLabels name r' true s4) as O.
    change (_add_labels_in_memory C) with (_add_in_memory C KLabels) in H.
    rewrite H in O. simpl in O. subst s'. simpl in *.
    rewrite Hm3 in Hm4. injection Hm4 as <-.
    exists r, o, node. rewrite Hf4, Hm3. simpl.
    split; [done|]. split; [congruence|]. split; [done|]. split; [done|].
    split; [intros t n Hne; by rewrite Hk3, Hk2|].
    exists o'. split; [done|]. unfold add_entry. simpl.
    rewrite Hs4, Hs3, Hs2, Hh4, Hh3, Hh2, Hr, Hh3, Hh2. done.
  - pose proof (_init_add_element_keeps KPoints _ _ _ _ p Hpath E) as Hk2.
    apply (_init_add_element_Ok KPoints _ _ _ _ _ p) in E as (Hs2 & Hh2 & ->); [|done].
    inv_bind H as r s3 E. apply attr_getitem_Ok in E as [-> Hget].
    rewrite Hs2 in Hget.
    inv_bind H as u s3 E. destruct u.
    apply write_element_puts in E as (o & node & Ho & Hn & Hs3 & Hh3 & Hm3 & Hk3).
    inv_bind H as r' s4 E.
    apply _read_points_Ok in E as (o' & Hd & Hr & Hh4 & Hs4 & Hf4).
    pose proof (_add_in_memory_outcome C KPoints name r' true s4) as O.
    change (_add_points_in_memory C) with (_add_in_memory C KPoints) in H.
    rewrite H in O. simpl in O. subst s'. simpl in *.
    exists r, o, node. rewrite Hf4, Hm3. simpl.
    split; [done|]. split; [congruence|]. split; [done|]. split; [done|].
    split; [intros t n Hne; by rewrite Hk3, Hk2|].
    exists o'. split; [done|]. unfold add_entry. simpl.
    rewrite Hs4, Hs3, Hs2, Hh4, Hh3, Hh2, Hr, Hh3, Hh2. done.
  - pose proof (_init_add_element_keeps KPolygons _ _ _ _ p Hpath E) as Hk2.
    apply (_init_add_element_Ok KPolygons _ _ _ _ _ p) in E as (Hs2 & Hh2 & ->); [|done].
    inv_bind H as r s3 E. apply attr_getitem_Ok in E as [-> Hget].
    rewrite Hs2 in Hget.
    apply write_element_puts in H as (o & node & Ho & Hn & Hs3 & Hh3 & Hm3 & Hk3).
    exists r, o, node. simpl in *.
    split; [done|]. split; [congruence|]. split; [done|]. split; [done|].
    split; [intros t n Hne; by rewrite Hk3, Hk2|].
    split; congruence.
  - pose proof (_init_add_element_keeps KShapes _ _ _ _ p Hpath E) as Hk2.
    apply (_init_add_element_Ok KShapes _ _ _ _ _ p) in E as (Hs2 & Hh2 & ->); [|done].
    inv_bind H as r s3 E. apply attr_getitem_Ok in E as [-> Hget].
    rewrite Hs2 in Hget.
    apply write_element_puts in H as (o & node & Ho & Hn & Hs3 & Hh3 & Hm3 & Hk3).
    exists r, o, node. simpl in *.
    split; [done|]. split; [congruence|]. split; [done|]. split; [done|].
    split; [intros t n Hne; by rewrite Hk3, Hk2|].
    split; congruence.
Qed.

Lemma written_lift C k p (h0 h : gmap obj_id PyObj) s1 s2 old new :
  h0 ⊆ h → heap s1 ⊆ heap s2 →
  members (fs s2) p (kind_name k) !! fst old = members (fs s1) p (kind_name k) !! fst old →
  written C k p h s1 old new → written C k p h0 s2 old new.
Proof.
  intros Hh0 Hh Hm (Hn & o & node & Ho & He & Hs & Hk).
  split; [done|]. exists o, node.
  split; [by eapply lookup_weaken|]. split; [done|]. split; [congruence|].
  assert (Hd : ∀ r, r ∉ dom h → r ∉ dom h0).
  { intros r Hr Hr0. apply Hr. apply elem_of_dom. apply elem_of_dom in Hr0 as [x Hx].
    exists x. by eapply lookup_weaken. }
  destruct k; try done.
  - destruct Hk as (? & o' & ? & ?). split; [auto|]. exists o'.
    split; [done|]. by eapply lookup_weaken.
  - destruct Hk as (? & o' & ? & ?). split; [auto|]. exists o'.
    split; [done|]. by eapply lookup_weaken.
  - destruct Hk as (? & [o' ?]). split; [auto|]. exists o'. by eapply lookup_weaken.
Qed.

Lemma attr_set_get k sd : attr_set (kind_attr k) (attr_get (kind_attr k) sd) sd = sd.
Proof. by destruct k, sd. Qed.

Lemma path_attr_set k m sd : path (attr_set (kind_attr k) m sd) = path sd.
Proof. by destruct k. Qed.

Lemma get_head_absent {V} k (d : list (string * V)) :
  k ∉ map fst d → PyDict.get k d = None.
Proof.
  induction d as [|[k' v'] d IH]; simpl; [done|].
  intros Hn. apply not_elem_of_cons in Hn as [Hne Hn].
  apply String.eqb_neq in Hne. rewrite Hne. auto.
Qed.

Lemma get_skip {V} k (pre d : list (string * V)) :
  k ∉ map fst pre → PyDict.get k (pre ++ d) = PyDict.get k d.
Proof. intros H. by rewrite get_app_absent, get_head_absent. Qed.

Section WriteLoop.

Variable C : Collaborators.
Variables (k : Kind) (p : string).

Lemma write_one_stored el s s' :
  path (self s) = Some p →
  (write_one C k) el s = (Ok tt, s') → stored C k el p s s'.
Proof.
  intros Hp H. unfold write_one in H. inv_bind H as r s1 E.
  apply attr_getitem_Ok in E as [-> _]. by eapply add_stored.
Qed.

(** The loop over a collection that is reloaded: the entries still to do are
    at the front, the handles made so far at the back. *)
Lemma write_loop_reloading :
  reloads k = true →
  ∀ rest done s s',
  items (attr_get (kind_attr k) (self s)) = (rest ++ done)%list →
  NoDup (map fst (rest ++ done)) →
  path (self s) = Some p →
  for_each (map fst rest) (write_one C k) s = (Ok tt, s') →
  ∃ new,
    items (attr_get (kind_attr k) (self s')) = (done ++ new)%list ∧
    Forall2 (written C k p (heap s) s') rest new ∧
    self s' = attr_set (kind_attr k) (attr_get (kind_attr k) (self s')) (self s) ∧
    heap s ⊆ heap s' ∧
    (∀ t n, t ≠ kind_name k ∨ n ∉ map fst rest →
       members (fs s') p t !! n = members (fs s) p t !! n).
Proof.
  intros Hk. induction rest as [|[n1 r1] rest IH]; intros done s s' Hi Hnd Hp H.
  - simpl in H. injection H as <-. exists []. rewrite app_nil_r.
    split; [done|]. split; [constructor|]. split; [by rewrite attr_set_get|]. done.
  - simpl in H. inv_bind H as u s1 E. destruct u.
    apply write_one_stored in E as (r0 & o & node & He & Ho & Hn & Hm & Hf & Hr); [|done].
    unfold entry in He. rewrite Hi in He. simpl in He. rewrite String.eqb_refl in He.
    injection He as <-.
    simpl in Hnd. apply NoDup_cons in Hnd as [Hn1 Hnd].
    assert (∃ o', reloaded C k (fs s1) p n1 = Some o' ∧
              self s1 = add_entry k n1 (fresh (dom (heap s))) (self s) ∧
              heap s1 = <[fresh (dom (heap s)) := o']> (heap s)) as (o' & Hd & Hs1 & Hh1).
    { by destruct k. }
    clear Hr. set (r' := fresh (dom (heap s))) in *.
    assert (Hfresh : heap s !! r' = None) by apply not_elem_of_dom, is_fresh.
    assert (Hsub : heap s ⊆ heap s1) by (rewrite Hh1; by apply insert_subseteq).
    assert (Hi1 : items (attr_get (kind_attr k) (self s1))
                  = (rest ++ (done ++ [(n1, r')]))%list).
    { rewrite Hs1. unfold add_entry. rewrite attr_get_set, Hi. simpl.
      rewrite String.eqb_refl, del_absent, app_assoc; [done|].
      by apply get_head_absent. }
    destruct (IH (done ++ [(n1, r')])%list s1 s' Hi1) as (new & Hi' & Hw & Hs' & Hh' & Hf').
    { rewrite app_assoc, map_app. simpl.
      apply NoDup_app. split; [done|]. split; [|apply NoDup_singleton].
      intros x Hx ->%list_elem_of_singleton. done. }
    { by rewrite Hs1; unfold add_entry; rewrite path_attr_set. }
    { done. }
    exists ((n1, r') :: new). split; [by rewrite Hi', <- app_assoc|].
    assert (Hn1' : n1 ∉ map fst rest).
    { intros Hx. apply Hn1. rewrite map_app. apply elem_of_app. by left. }
    split; [constructor|].
    + split; [done|]. exists o, node. simpl.
      split; [eapply lookup_weaken; [|exact Hh']; by eapply lookup_weaken|].
      split; [done|]. split; [rewrite Hf'; [done|by right]|].
      assert (Hnew : heap s' !! r' = Some o').
      { eapply lookup_weaken; [|exact Hh']. rewrite Hh1. apply lookup_insert_eq. }
      assert (Hnot : r' ∉ dom (heap s)) by apply is_fresh.
      destruct k; try done; simpl in Hd, Hm.
      all: rewrite Hm in Hd; simpl in Hd; eauto.
    + eapply Forall2_impl; [exact Hw|]. intros old new'. simpl.
      intros Hx. eapply written_lift; [exact Hsub| |reflexivity|exact Hx]. done.
    + split; [|split].
      * etrans; [exact Hs'|]. rewrite Hs1. unfold add_entry. apply attr_set_set.
      * by etrans.
      * intros t n Hne. rewrite Hf', Hf; [done| |].
        -- destruct Hne as [?|Hne]; [by left|right].
           intros ->. apply Hne. simpl. apply list_elem_of_here.
        -- destruct Hne as [?|Hne]; [by left|right].
           intros Hx. apply Hne. simpl. by apply list_elem_of_further.
Qed.

(** The loop over the polygons or the shapes: nothing is reloaded. *)
Lemma write_loop_kept :
  reloads k = false →
  ∀ rest pre s s',
  items (attr_get (kind_attr k) (self s)) = (pre ++ rest)%list →
  NoDup (map fst (pre ++ rest)) →
  path (self s) = Some p →
  for_each (map fst rest) (write_one C k) s = (Ok tt, s') →
  Forall2 (written C k p (heap s) s') rest rest ∧
  self s' = self s ∧ heap s' = heap s ∧
  (∀ t n, t ≠ kind_name k ∨ n ∉ map fst rest →
     members (fs s') p t !! n = members (fs s) p t !! n).
Proof.
  intros Hk. induction rest as [|[n1 r1] rest IH]; intros pre s s' Hi Hnd Hp H.
  - simpl in H. injection H as <-. split; [constructor|]. done.
  - simpl in H. inv_bind H as u s1 E. destruct u.
    apply write_one_stored in E as (r0 & o & node & He & Ho & Hn & Hm & Hf & Hr); [|done].
    assert ((n1 ∉ map fst pre) ∧ (n1 ∉ map fst rest)) as [Hn1 Hn1'].
    { rewrite map_app in Hnd. apply NoDup_app in Hnd as (_ & Hd & Hr').
      simpl in Hr'. apply NoDup_cons in Hr' as [? _]. split; [|done].
      intros Hx. apply (Hd _ Hx). simpl. apply list_elem_of_here. }
    unfold entry in He. rewrite Hi, get_skip in He by done. simpl in He.
    rewrite String.eqb_refl in He. injection He as <-.
    assert (self s1 = self s ∧ heap s1 = heap s) as [Hs1 Hh1] by by destruct k.
    clear Hr.
    destruct (IH (pre ++ [(n1, r1)])%list s1 s') as (Hw & Hs' & Hh' & Hf').
    { by rewrite Hs1, Hi, <- app_assoc. }
    { by rewrite <- app_assoc. }
    { by rewrite Hs1. }
    { done. }
    rewrite Hh1 in Hw.
    split; [constructor; [|done]|].
    + split; [done|]. exists o, node. simpl.
      split; [congruence|]. split; [done|]. split; [rewrite Hf'; [done|by right]|].
      by destruct k.
    + split; [congruence|]. split; [congruence|].
      intros t n Hne. rewrite Hf', Hf; [done| |].
      * destruct Hne as [?|Hne]; [by left|right].
        intros ->. apply Hne. simpl. apply list_elem_of_here.
      * destruct Hne as [?|Hne]; [by left|right].
        intros Hx. apply Hne. simpl. by apply list_elem_of_further.
Qed.

Lemma create_group_Ok t s g s' :
  create_group (Root p) t s = (Ok g, s') →
  g = Sub p t ∧ self s' = self s ∧ heap s' = heap s ∧
  ∀ t' n, members (fs s') p t' !! n = members (fs s) p t' !! n.
Proof.
  unfold create_group, group_contains, bind, gets, ret, raise, modify. simpl.
  intros H. repeat (case_match; simpl in *; simplify_eq).
  repeat split; try done. intros t' n. apply members_create_ne.
  by apply not_is_Some_None.
Qed.

Lemma write_collection_written s s' :
  path (self s) = Some p →
  NoDup (PyDict.keys (items (attr_get (kind_attr k) (self s)))) →
  write_collection (Root p) (kind_name k) (kind_attr k) (add C k) s = (Ok tt, s') →
  collection_written C k p s s'.
Proof.
  intros Hp Hnd H. unfold write_collection in H.
  rewrite (bind_eq_Ok _ _ _ _ _ (eq_refl : attr_len (kind_attr k) s = (Ok _, s))) in H.
  destruct (Nat.ltb 0 _) eqn:Hlen.
  - inv_bind H as g s1 E. apply create_group_Ok in E as (-> & Hs1 & Hh1 & Hf1).
    rewrite (bind_eq_Ok _ _ _ _ _ (eq_refl : attr_keys (kind_attr k) s1 = (Ok _, s1))) in H.
    rewrite Hs1 in H.
    change (for_each (PyDict.keys (items (attr_get (kind_attr k) (self s)))) (write_one C k) s1
            = (Ok tt, s')) in H.
    unfold PyDict.keys in *.
    destruct (reloads k) eqn:Hk.
    + destruct (write_loop_reloading Hk (items (attr_get (kind_attr k) (self s))) [] s1 s')
        as (new & Hi & Hw & Hs' & Hh' & Hf'); rewrite ?app_nil_r; try done;
        try congruence.
      unfold collection_written. simpl in Hi. rewrite Hi. rewrite Hh1, Hs1 in *.
      split; [done|]. split; [done|]. split; [done|].
      intros t n Hne. rewrite Hf', Hf1; [done|by left].
    + destruct (write_loop_kept Hk (items (attr_get (kind_attr k) (self s))) [] s1 s')
        as (Hw & Hs' & Hh' & Hf'); simpl; try done; try congruence.
      unfold collection_written. rewrite Hs', Hs1, Hh1 in *. rewrite attr_set_get.
      split; [done|]. split; [done|]. split; [by rewrite Hh'|].
      intros t n Hne. rewrite Hf', Hf1; [done|by left].
  - injection H as <-. apply Nat.ltb_ge in Hlen.
    assert (E : items (attr_get (kind_attr k) (self s)) = []).
    { destruct (items _); [done|simpl in Hlen; lia]. }
    unfold collection_written. rewrite E, attr_set_get. split; [constructor|]. done.
Qed.

End WriteLoop.

Lemma Forall2_written_lift C k p sa s s' sb l l' :
  heap sa ⊆ heap s → heap s' ⊆ heap sb →
  (∀ n, members (fs sb) p (kind_name k) !! n = members (fs s') p (kind_name k) !! n) →
  Forall2 (written C k p (heap s) s') l l' →
  Forall2 (written C k p (heap sa) sb) l l'.
Proof.
  intros Ha Hb Hm Hw. eapply Forall2_impl; [exact Hw|].
  intros old new Hx. by eapply written_lift.
Qed.

Lemma write_checks_Ok C file_path overwrite s root s0 :
  write_checks C file_path overwrite s = (Ok root, s0) →
  root = Root file_path ∧
  s0 = with_fs (fun f => <[file_path := group_w C (f !! file_path)]> f) s ∧
  path (self s) ≠ Some file_path ∧
  (overwrite = false → fs s !! file_path = None).
Proof.
  unfold write_checks, is_backed, store_exists, open_w, bind, gets, ret, raise, modify.
  simpl. intros H.
  repeat (case_match; simpl in *; simplify_eq); repeat split; try done;
    try congruence.
  all: repeat match goal with
       | H : bool_decide _ = false |- _ => apply bool_decide_eq_false in H
       | H : bool_decide _ = true |- _ => apply bool_decide_eq_true in H
       end; try done; try congruence.
  all: intros ->; simpl in *; try done.
  all: by apply eq_None_not_Some.
Qed.

Lemma write_elements_written C p s s' :
  path (self s) = Some p →
  (∀ k, NoDup (PyDict.keys (items (attr_get (kind_attr k) (self s))))) →
  write_elements C (Root p) s = (Ok tt, s') →
  path (self s') = Some p ∧
  _table (self s') = _table (self s) ∧
  heap s ⊆ heap s' ∧
  (∀ k, Forall2 (written C k p (heap s) s')
          (items (attr_get (kind_attr k) (self s)))
          (items (attr_get (kind_attr k) (self s')))) ∧
  table_written C p s s'.
Proof.
  intros Hp Hnd H. unfold write_elements in H.
  inv_bind H as u s1 E. destruct u.
  apply (write_collection_written C KImages p) in E as (Hw1 & Hs1 & Hh1 & Hf1);
    [|done|apply (Hnd KImages)].
  remember (attr_get (kind_attr KImages) (self s1)) as m1 eqn:Hm1. clear Hm1.
  inv_bind H as u s2 E. destruct u.
  apply (write_collection_written C KLabels p) in E as (Hw2 & Hs2 & Hh2 & Hf2);
    [|by rewrite Hs1|rewrite Hs1; apply (Hnd KLabels)].
  remember (attr_get (kind_attr KLabels) (self s2)) as m2 eqn:Hm2. clear Hm2.
  inv_bind H as u s3 E. destruct u.
  apply (write_collection_written C KPoints p) in E as (Hw3 & Hs3 & Hh3 & Hf3);
    [|by rewrite Hs2, Hs1|rewrite Hs2, Hs1; apply (Hnd KPoints)].
  remember (attr_get (kind_attr KPoints) (self s3)) as m3 eqn:Hm3. clear Hm3.
  inv_bind H as u s4 E. destruct u.
  apply (write_collection_written C KPolygons p) in E as (Hw4 & Hs4 & Hh4 & Hf4);
    [|by rewrite Hs3, Hs2, Hs1|rewrite Hs3, Hs2, Hs1; apply (Hnd KPolygons)].
  remember (attr_get (kind_attr KPolygons) (self s4)) as m4 eqn:Hm4. clear Hm4.
  inv_bind H as u s5 E. destruct u.
  apply (write_collection_written C KShapes p) in E as (Hw5 & Hs5 & Hh5 & Hf5);
    [|by rewrite Hs4, Hs3, Hs2, Hs1|rewrite Hs4, Hs3, Hs2, Hs1; apply (Hnd KShapes)].
  remember (attr_get (kind_attr KShapes) (self s5)) as m5 eqn:Hm5. clear Hm5.
  rewrite (bind_eq_Ok _ _ _ _ _ (eq_refl : gets self s5 = (Ok _, s5))) in H.
  assert (Ht5 : _table (self s5) = _table (self s))
    by by rewrite Hs5, Hs4, Hs3, Hs2, Hs1.
  rewrite ?Hs1 in Hw2. rewrite ?Hs2, ?Hs1 in Hw3. rewrite ?Hs3, ?Hs2, ?Hs1 in Hw4.
  rewrite ?Hs4, ?Hs3, ?Hs2, ?Hs1 in Hw5.
  simpl in Hw1, Hw2, Hw3, Hw4, Hw5.
  assert (∃ s6, s' = s6 ∧ self s6 = self s5 ∧ heap s6 = heap s5 ∧
            (∀ t n, t ≠ "table" → members (fs s6) p t !! n = members (fs s5) p t !! n) ∧
            table_written C p s s6) as (s6 & -> & Hs6 & Hh6 & Hf6 & Ht6).
  { unfold table_written. rewrite Ht5 in H.
    destruct (_table (self s)) as [table|].
    - inv_bind H as g s6 E. apply create_group_Ok in E as (-> & Hs6 & Hh6 & Hf6).
      apply write_element_puts in H as (o & node & Ho & Hn & Hs7 & Hh7 & Hm7 & Hf7).
      exists s'. split; [done|]. split; [congruence|]. split; [congruence|].
      split; [intros t n Hne; rewrite Hf7, Hf6; [done|by left]|].
      exists o, node. split; [congruence|]. done.
    - apply ret_Ok in H as [_ ->]. exists s5. done. }
  assert (Hself : self s6 = attr_set (kind_attr KShapes) m5
            (attr_set (kind_attr KPolygons) m4 (attr_set (kind_attr KPoints) m3
            (attr_set (kind_attr KLabels) m2 (attr_set (kind_attr KImages) m1 (self s))))))
    by by rewrite Hs6, Hs5, Hs4, Hs3, Hs2, Hs1.
  assert (H56 : heap s5 ⊆ heap s6) by by rewrite Hh6.
  assert (H46 : heap s4 ⊆ heap s6) by by etrans.
  assert (H36 : heap s3 ⊆ heap s6) by by etrans.
  assert (H26 : heap s2 ⊆ heap s6) by by etrans.
  assert (H16 : heap s1 ⊆ heap s6) by by etrans.
  assert (H06 : heap s ⊆ heap s6) by by etrans.
  assert (H02 : heap s ⊆ heap s2) by by transitivity (heap s1).
  assert (H03 : heap s ⊆ heap s3) by by transitivity (heap s2).
  assert (H04 : heap s ⊆ heap s4) by by transitivity (heap s3).
  split; [by rewrite Hself|]. split; [by rewrite Hself|].
  split; [done|]. split; [|done].
  assert (Hne : ∀ k k', k ≠ k' → kind_name k ≠ kind_name k') by by intros [] [].
  assert (Hnt : ∀ k, kind_name k ≠ "table") by by intros [].
  intros k. rewrite Hself.
  destruct k; simpl.
  - apply (Forall2_written_lift C KImages p s s s1 s6); [done|done| |done].
    intros n. rewrite Hf6, Hf5, Hf4, Hf3, Hf2; auto.
  - apply (Forall2_written_lift C KLabels p s s1 s2 s6); [done|done| |done].
    intros n. rewrite Hf6, Hf5, Hf4, Hf3; auto.
  - apply (Forall2_written_lift C KPoints p s s2 s3 s6); [done|done| |done].
    intros n. rewrite Hf6, Hf5, Hf4; auto.
  - apply (Forall2_written_lift C KPolygons p s s3 s4 s6); [done|done| |done].
    intros n. rewrite Hf6, Hf5; auto.
  - apply (Forall2_written_lift C KShapes p s s4 s5 s6); [done|done| |done].
    intros n. rewrite Hf6; auto.
Qed.

(** X5: [_add_<kind>_in_memory] raises in two ways only. The duplicate-name
    error comes without [overwrite] for a name that has an entry, and nothing
    has changed. Any other error is a type error, the unsupported-shape error
    or a schema violation, raised after the name check: under [overwrite] the
    old entry of the name has been deleted by then and is not put back, so
    the name is left without an entry; the other names keep theirs. *)
Theorem _add_in_memory_raises (C : Collaborators) (k : Kind) (name : string) (element : obj_id) (overwrite : bool) (e : Error) (s s' : State) :
  _add_in_memory C k name element overwrite s = (Raise e, s') →
  (e = DuplicateName ∧ overwrite = false ∧ is_Some (entry k name s) ∧ s' = s) ∨
  (e ∈ [TypeError; UnsupportedShape; SchemaViolation] ∧
   (overwrite = true ∨ entry k name s = None) ∧
   s' = cleared k name s ∧ entry k name s' = None ∧
   (∀ n, n ≠ name → entry k n s' = entry k n s)).
Proof.
  intros H.
  pose proof (_add_in_memory_outcome C k name element overwrite s) as O.
  rewrite H in O. simpl in O.
  destruct (decide (e = DuplicateName)) as [->|Hne].
  - left. destruct O as (-> & -> & Hn). split; [done|]. split; [done|].
    split; [|done]. by apply not_eq_None_Some.
  - right.
    assert (Hs : s' = cleared k name s) by by destruct e.
    clear O.
    assert (He : e ∈ [TypeError; UnsupportedShape; SchemaViolation] ∧
                 (overwrite = true ∨ entry k name s = None)).
    { unfold entry. destruct k; unfold_in_memory H; simpl in H;
        repeat (case_match; simpl in *; simplify_eq);
        (split; [set_solver|]);
        repeat match goal with
        | H : negb ?b = false |- _ => destruct b; simpl in *; simplify_eq
        | H : PyDict.contains _ _ = false |- _ => apply contains_false in H
        end; auto. }
    destruct He as [He Ho]. split; [done|]. split; [done|]. split; [done|].
    subst s'. split; [apply cleared_entry|].
    intros n Hn. unfold cleared, entry.
    destruct (PyDict.contains name _); [|done].
    destruct k; simpl; by apply get_del_ne.
Qed.

(** X6: when [write] returns, on a container whose dictionaries have
    distinct keys, [path] is the location, the table is the same, no object
    has changed, and every collection has the same names in the same order
    as before. For each entry the payload of its object is in the store
    under the kind's group and the name; the entries of the polygons and of
    the shapes are the same objects, those of the images, labels and points
    are handles made by the call, and the handle of an image or of labels is
    on the object decoded from what was stored. The payload of a table is in
    the store under [table]. *)
Theorem write_persists_and_reloads (C : Collaborators) (file_path : string) (overwrite : bool) (s s' : State) :
  (∀ k, NoDup (PyDict.keys (items (attr_get (kind_attr k) (self s))))) →
  write C file_path overwrite s = (Ok tt, s') →
  path (self s') = Some file_path ∧
  _table (self s') = _table (self s) ∧
  heap s ⊆ heap s' ∧
  (∀ k, Forall2 (written C k file_path (heap s) s')
          (items (attr_get (kind_attr k) (self s)))
          (items (attr_get (kind_attr k) (self s')))) ∧
  table_written C file_path s s'.
Proof.
  intros Hnd H.
  destruct (write_checks C file_path overwrite s) as [[root|e] s0] eqn:E.
  - rewrite (write_passed _ _ _ _ _ _ E) in H.
    apply write_checks_Ok in E as (-> & -> & _ & _).
    destruct (write_elements C _ _) as [[[]|e] s1] eqn:E1; [|discriminate].
    injection H as <-.
    apply (write_elements_written C file_path) in E1 as (H1 & H2 & H3 & H4 & H5);
      [|reflexivity|intros k; specialize (Hnd k); by destruct k].
    split; [done|]. split; [done|]. split; [done|]. split; [|done].
    intros k. specialize (H4 k). by destruct k.
  - apply write_rejected in E as [E _]. congruence.
Qed.

Lemma write_persists_and_reloads_witness :
  let s' := snd (write Demo.collaborators "new.zarr" false Example.mixed) in
  path (self s') = Some "new.zarr" ∧
  items (_images (self s')) = [("a", 5); ("b", 6)] ∧
  items (_points (self s')) = [("p", 7)] ∧
  items (_polygons (self s')) = [("g", 3)] ∧
  Forall2 (written Demo.collaborators KImages "new.zarr" (heap Example.mixed) s')
    [("a", 0); ("b", 1)] [("a", 5); ("b", 6)].
Proof.
  intros s'.
  destruct (write_persists_and_reloads Demo.collaborators "new.zarr" false
              Example.mixed s') as (H1 & _ & _ & H2 & _).
  - intros k. destruct k; apply (bool_decide_unpack _); vm_compute; exact I.
  - vm_compute. reflexivity.
  - split; [exact H1|]. split; [vm_compute; reflexivity|].
    split; [vm_compute; reflexivity|]. split; [vm_compute; reflexivity|].
    exact (H2 KImages).
Defined.

(** X7: writing to the location the container is backed by raises the
    self-overwrite error, with [overwrite] set as well as unset, and nothing
    changes. *)
Theorem write_to_own_store_fails (C : Collaborators) (file_path : string) (overwrite : bool) (s : State) :
  path (self s) = Some file_path →
  write C file_path overwrite s = (Raise SelfOverwrite, s).
Proof.
  intros Hp. unfold write. apply bind_eq_Raise.
  unfold write_checks, is_backed, bind, gets, ret, raise. simpl.
  rewrite Hp. simpl. by rewrite bool_decide_true.
Qed.

Lemma write_to_own_store_fails_witness :
  path (self Demo.backed) = Some "store.zarr" ∧
  write Demo.collaborators "store.zarr" true Demo.backed = (Raise SelfOverwrite, Demo.backed).
Proof.
  split; [reflexivity|].
  apply (write_to_own_store_fails Demo.collaborators "store.zarr" true Demo.backed).
  reflexivity.
Defined.

(** X8: [write] of a container with no element and no table, to a location
    that is not its backing store and that is free or may be overwritten,
    returns; the state is the same but for [path], now the location, and the
    store opened for writing at the location: no group is made in it. *)
Theorem write_empty_container (C : Collaborators) (file_path : string) (overwrite : bool) (s : State) :
  (∀ k, items (attr_get (kind_attr k) (self s)) = []) →
  _table (self s) = None →
  path (self s) ≠ Some file_path →
  overwrite = true ∨ fs s !! file_path = None →
  write C file_path overwrite s =
    (Ok tt, with_self (set_path (Some file_path))
              (with_fs (insert file_path (group_w C (fs s !! file_path))) s)).
Proof.
  intros He Ht Hp Ho.
  assert (E : write_checks C file_path overwrite s =
              (Ok (Root file_path),
               with_fs (insert file_path (group_w C (fs s !! file_path))) s)).
  { unfold write_checks, is_backed, store_exists, open_w, bind, gets, ret, raise, modify.
    simpl.
    assert (Hex : negb overwrite && bool_decide (is_Some (fs s !! file_path)) = false).
    { destruct overwrite; [done|]. destruct Ho as [?|Hn]; [done|].
      by rewrite Hn. }
    destruct (path (self s)) as [p|] eqn:Hpath; simpl.
    - rewrite bool_decide_false by congruence. simpl.
      destruct overwrite; simpl in *; [done|]. by rewrite Hex.
    - destruct overwrite; simpl in *; [done|]. by rewrite Hex. }
  rewrite (write_passed _ _ _ _ _ _ E).
  pose proof (He KImages) as H1. pose proof (He KLabels) as H2.
  pose proof (He KPoints) as H3. pose proof (He KPolygons) as H4.
  pose proof (He KShapes) as H5. simpl in H1, H2, H3, H4, H5.
  unfold write_elements, write_collection, attr_len, bind, gets, ret. simpl.
  rewrite H1. simpl. rewrite H2. simpl. rewrite H3. simpl. rewrite H4. simpl.
  rewrite H5. simpl. by rewrite Ht.
Qed.

Lemma write_empty_container_witness :
  write Demo.collaborators "new.zarr" false Demo.unbacked_empty =
    (Ok tt, mkState (set_path (Some "new.zarr") Demo.empty_container)
              {[ 0 := Demo.image0 ]} {[ "new.zarr" := ∅; "store.zarr" := ∅ ]}).
Proof.
  rewrite (write_empty_container Demo.collaborators "new.zarr" false Demo.unbacked_empty).
  - vm_compute. reflexivity.
  - intros k. destruct k; reflexivity.
  - reflexivity.
  - discriminate.
  - right. vm_compute. reflexivity.
Defined.

Lemma members_delete f (p t name t' n' : string) :
  members (<[p := <[t := delete name (members f p t)]> (root_of f p)]> f) p t' !! n'
    = if bool_decide (t' = t ∧ n' = name) then None else members f p t' !! n'.
Proof.
  unfold members at 1, root_of at 1.
  rewrite lookup_insert_eq. simpl.
  destruct (decide (t = t')) as [<-|Ht].
  - rewrite lookup_insert_eq. simpl.
    destruct (decide (n' = name)) as [->|Hn].
    + rewrite bool_decide_true by done. apply lookup_delete_eq.
    + rewrite bool_decide_false by (by intros [_ ?]). by rewrite lookup_delete_ne.
  - rewrite lookup_insert_ne by done.
    rewrite bool_decide_false by (intros [? _]; congruence). done.
Qed.

Lemma members_absent f (p t n : string) :
  root_of f p !! t = None → members f p t !! n = None.
Proof. intros H. unfold members. by rewrite H. Qed.

Lemma root_of_insert f (p : string) (g : Store) : root_of (<[p := g]> f) p = g.
Proof. unfold root_of. by rewrite lookup_insert_eq. Qed.

Lemma is_Some_true {A} (o : option A) : bool_decide (is_Some o) = true → is_Some o.
Proof. apply bool_decide_eq_true. Qed.

Lemma _init_add_element_result (k : Kind) (name : string) (overwrite : bool) (p : string) (root : Store) (s : State) :
  path (self s) = Some p →
  fs s !! p = Some root →
  (k = KLabels → is_Some (root !! "labels")) →
  let r := _init_add_element name (kind_name k) overwrite s in
  self (snd r) = self s ∧ heap (snd r) = heap s ∧
  (∀ t n, t ≠ kind_name k ∨ n ≠ name →
     members (fs (snd r)) p t !! n = members (fs s) p t !! n) ∧
  if negb overwrite && bool_decide (is_Some (members (fs s) p (kind_name k) !! name))
  then r = (Raise ElementExists, s)
  else fst r = Ok (element_type_group k p) ∧
       is_Some (root_of (fs (snd r)) p !! kind_name k) ∧
       members (fs (snd r)) p (kind_name k) !! name
         = if overwrite then None else members (fs s) p (kind_name k) !! name.
Proof.
  intros Hp Hroot Hl r. subst r.
  unfold _init_add_element, open_root, create_group, group_getitem, group_delitem,
    group_contains, local, assert_, bind, gets, ret, raise, modify.
  rewrite Hp. simpl. rewrite Hroot.
  destruct k, overwrite; simpl.
  all: repeat match goal with
       | |- context [bool_decide ?P] =>
           let E := fresh "E" in destruct (bool_decide P) eqn:E; simpl; rewrite ?E; simpl
       end.
  all: try (specialize (Hl eq_refl)).
  all: repeat match goal with
       | H : bool_decide _ = true |- _ => apply bool_decide_eq_true in H
       | H : bool_decide _ = false |- _ => apply not_is_Some_None in H
       end.
  all: try match goal with
         | H : is_Some (?r !! ?t), H' : root_of (fs ?s) ?p !! ?t = None,
           Hr : fs ?s !! ?p = Some ?r |- _ =>
             unfold root_of in H'; rewrite Hr in H'; simpl in H';
             rewrite H' in H; by destruct H
         end.
  all: rewrite ?members_create in *.
  all: try match goal with H : is_Some None |- _ => by destruct H end.
  all: try match goal with H : is_Some ?x, H' : ?x = None |- _ =>
         rewrite H' in H; by destruct H end.
  all: try match goal with
         | H : is_Some (members ?f ?p ?t !! ?n), H' : root_of ?f ?p !! ?t = None |- _ =>
             rewrite (members_absent f p t n H') in H; by destruct H
         end.
  all: repeat split; try done.
  all: rewrite ?root_of_insert, ?lookup_insert_eq; try done.
  all: try (intros t n Hne; rewrite ?members_delete;
            rewrite ?bool_decide_false by (intros [? ?]; destruct Hne; done);
            rewrite ?members_create_ne by done; done).
  all: try (rewrite members_delete, bool_decide_true by done; done).
  all: try (symmetry; by apply not_is_Some_None || by apply members_absent).
Qed.

Lemma attr_getitem_eq a name r s :
  PyDict.get name (items (attr_get a (self s))) = Some r →
  attr_getitem a name s = (Ok r, s).
Proof. intros H. unfold attr_getitem, bind, gets, ret. simpl. by rewrite H. Qed.

Lemma root_of_lookup f (p : string) (root : Store) : f !! p = Some root → root_of f p = root.
Proof. intros H. unfold root_of. by rewrite H. Qed.

Lemma members_group_exists f (p t n : string) :
  is_Some (members f p t !! n) → is_Some (root_of f p !! t).
Proof.
  unfold members. destruct (root_of f p !! t); [by eexists|].
  simpl. rewrite lookup_empty. by intros [? ?].
Qed.

Lemma labels_overwrite_unbound (name p : string) (root : Store) (overwrite : bool) (s : State) :
  path (self s) = Some p →
  fs s !! p = Some root →
  root !! "labels" = None →
  _init_add_element name "labels" overwrite s
    = (if overwrite then Raise UnboundLocalError else Ok (Root p), s).
Proof.
  intros Hp Hroot Hl.
  unfold _init_add_element, open_root, create_group, group_getitem, group_delitem,
    group_contains, local, assert_, bind, gets, ret, raise, modify.
  rewrite Hp. simpl. unfold root_of. rewrite Hroot. simpl.
  destruct overwrite; simpl; rewrite Hroot; simpl; rewrite Hl; done.
Qed.

Lemma add_eq C k name element overwrite s s1 :
  _add_in_memory C k name element overwrite s = (Ok tt, s1) →
  add C k name element overwrite true s =
    match path (self s1) with
    | None => (Ok tt, s1)
    | Some _ =>
        match k with
        | KImages =>
            (elem_group <- _init_add_element name "images" overwrite ;;
             image <- attr_getitem images name ;;
             write_image C image elem_group name ;;
             assert_ (String.eqb (group_path elem_group) "images") ;;
             image <- _read_multiscale C (store_path elem_group) "images" name raster_image ;;
             _add_image_in_memory C name image true) s1
        | KLabels =>
            (elem_group <- _init_add_element name "labels" overwrite ;;
             labels_ <- attr_getitem labels name ;;
             write_labels C labels_ elem_group name ;;
             assert_ (String.eqb (group_path elem_group) "") ;;
             labels_ <- _read_multiscale C (store_path elem_group) "labels" name raster_labels ;;
             _add_labels_in_memory C name labels_ true) s1
        | KPoints =>
            (elem_group <- _init_add_element name "points" overwrite ;;
             points_ <- attr_getitem points name ;;
             write_points C points_ elem_group name ;;
             points_ <- _read_points C (store_path elem_group) ;;
             _add_points_in_memory C name points_ true) s1
        | KPolygons =>
            (elem_group <- _init_add_element name "polygons" overwrite ;;
             polygons_ <- attr_getitem polygons name ;;
             write_polygons C polygons_ elem_group name) s1
        | KShapes =>
            (elem_group <- _init_add_element name "shapes" overwrite ;;
             shapes_ <- attr_getitem shapes name ;;
             write_shapes C shapes_ elem_group name) s1
        end
    end.
Proof.
  intros H.
  destruct k; simpl in *; unfold add_image, add_labels, add_points, add_polygons, add_shapes;
    rewrite (bind_eq_Ok _ _ _ _ _ H);
    rewrite (bind_eq_Ok _ _ _ _ _ (eq_refl : is_backed s1 = (Ok _, s1)));
    by destruct (path (self s1)).
Qed.

(** X10: on a backed container whose store has no [labels] group,
    [_init_add_element] for labels returns the root without [overwrite] but
    reads an unassigned local with [overwrite]: [add_labels] with [overwrite]
    then raises after its in-memory step, so the labels are in the container
    and not in the store. *)
Theorem add_labels_overwrite_unbound (C : Collaborators) (name p : string) (root : Store) (element : obj_id) (s s1 : State) :
  path (self s) = Some p →
  fs s !! p = Some root →
  root !! "labels" = None →
  _add_labels_in_memory C name element true s = (Ok tt, s1) →
  _init_add_element name "labels" true s = (Raise UnboundLocalError, s) ∧
  _init_add_element name "labels" false s = (Ok (Root p), s) ∧
  add_labels C name element true true s = (Raise UnboundLocalError, s1) ∧
  entry KLabels name s1 = Some element ∧ fs s1 = fs s.
Proof.
  intros Hp Hroot Hl H.
  split; [exact (labels_overwrite_unbound name p root true s Hp Hroot Hl)|].
  split; [exact (labels_overwrite_unbound name p root false s Hp Hroot Hl)|].
  pose proof (_add_in_memory_Ok C KLabels _ _ _ _ _ H) as (He & Hh & Hf & Hp1 & _).
  split; [|done].
  change (add C KLabels name element true true s = (Raise UnboundLocalError, s1)).
  rewrite (add_eq C KLabels _ _ _ _ _ H). rewrite Hp1, Hp.
  apply bind_eq_Raise.
  apply (labels_overwrite_unbound name p root true s1); congruence.
Qed.

(** X11: a backed [add_<kind>] without [overwrite], under a name that is
    free in the container but taken in the kind's group of the store, raises
    the element-exists error after the in-memory step: the element stays in
    the container, and the store is as it was. *)
Theorem backed_add_existing_in_store (C : Collaborators) (k : Kind) (name p : string) (element : obj_id) (node : ZNode) (s s1 : State) :
  path (self s) = Some p →
  members (fs s) p (kind_name k) !! name = Some node →
  _add_in_memory C k name element false s = (Ok tt, s1) →
  add C k name element false true s = (Raise ElementExists, s1) ∧
  entry k name s1 = Some element ∧ fs s1 = fs s.
Proof.
  intros Hp Hm H.
  pose proof (_add_in_memory_Ok C k _ _ _ _ _ H) as (He & Hh & Hf & Hp1 & _).
  split; [|done].
  assert (Hex : is_Some (members (fs s) p (kind_name k) !! name)) by by eexists.
  destruct (members_store_exists _ _ _ _ Hex) as [root Hroot].
  pose proof (members_group_exists _ _ _ _ Hex) as Hg.
  rewrite (root_of_lookup _ _ _ Hroot) in Hg.
  assert (E : _init_add_element name (kind_name k) false s1 = (Raise ElementExists, s1)).
  { destruct (_init_add_element_result k name false p root s1) as (_ & _ & _ & Hr);
      [congruence|congruence|by intros ->|].
    rewrite Hf, Hm in Hr. simpl in Hr. done. }
  rewrite (add_eq C k _ _ _ _ _ H). rewrite Hp1, Hp.
  destruct k; by apply bind_eq_Raise.
Qed.

Lemma require_group_exists (p t : string) s :
  is_Some (root_of (fs s) p !! t) →
  require_group (Root p) t s = (Ok (Sub p t), s).
Proof.
  intros H. unfold require_group, group_getitem, group_contains, bind, gets, ret.
  simpl. by rewrite !bool_decide_true.
Qed.

Lemma write_element_fails C element_type element g name o s :
  heap s !! element = Some o →
  encode C element_type name o = None →
  write_element C element_type element g name s = (Raise IOError, s).
Proof.
  intros Ho He. unfold write_element, deref, bind, gets, ret, raise. simpl.
  by rewrite Ho, He.
Qed.


(** X9: [_init_add_element] for a simple name, on a backed container whose
    store exists (and, for labels, has a [labels] group). Without [overwrite], a name the kind's
    group already has raises the element-exists error and nothing changes.
    Otherwise it returns the kind's group, or the root for labels; the kind's
    group exists afterwards, the name has no member in it under [overwrite]
    (the old one is deleted) and what it had before otherwise; the container,
    the objects and every other member of the store are the same. *)
Theorem _init_add_element_outcome (k : Kind) (name : string) (overwrite : bool) (p : string) (root : Store) (s : State) :
  simple_name name = true →
  path (self s) = Some p →
  fs s !! p = Some root →
  (k = KLabels → is_Some (root !! "labels")) →
  let r := _init_add_element name (kind_name k) overwrite s in
  self (snd r) = self s ∧ heap (snd r) = heap s ∧
  (∀ t n, t ≠ kind_name k ∨ n ≠ name →
     members (fs (snd r)) p t !! n = members (fs s) p t !! n) ∧
  if negb overwrite && bool_decide (is_Some (members (fs s) p (kind_name k) !! name))
  then r = (Raise ElementExists, s)
  else fst r = Ok (element_type_group k p) ∧
       is_Some (root_of (fs (snd r)) p !! kind_name k) ∧
       members (fs (snd r)) p (kind_name k) !! name
         = if overwrite then None else members (fs s) p (kind_name k) !! name.
Proof. intros _. exact (_init_add_element_result k name overwrite p root s). Qed.

Lemma _add_in_memory_accepts C k name element o d s :
  attr_get (kind_attr k) (self s) = Dict d →
  PyDict.get name d = None →
  heap s !! element = Some o →
  accepts C k o = true →
  _add_in_memory C k name element false s
    = (Ok tt, with_self (attr_set (kind_attr k) (Dict (d ++ [(name, element)])%list)) s).
Proof.
  intros Hd Hn Ho Ha.
  pose proof (_add_in_memory_outcome C k name element false s) as O.
  assert (E : fst (_add_in_memory C k name element false s) = Ok tt).
  { apply contains_false in Hn. unfold accepts in Ha.
    destruct (Nat.eqb (length (dims o)) 2) eqn:E2;
      destruct (Nat.eqb (length (dims o)) 3) eqn:E3;
      destruct (Nat.eqb (length (dims o)) 4) eqn:E4;
      destruct k; simpl in *; try discriminate;
      unfold _add_image_in_memory, _add_labels_in_memory, _add_points_in_memory,
        _add_polygons_in_memory, _add_shapes_in_memory,
        attr_contains, attr_delitem, attr_setitem, get_dims, validate, deref,
        bind, gets, ret, raise, modify; simpl; rewrite Hd; simpl; rewrite Hn; simpl;
      rewrite ?Ho; simpl; rewrite ?E2, ?E3, ?E4; simpl; rewrite ?Ho; simpl;
      rewrite ?Ha; simpl; rewrite ?Hd; done. }
  destruct (_add_in_memory C k name element false s) as [[[]|e] s'];
    simpl in *; [|discriminate].
  subst s'. unfold added. rewrite Hd. simpl. by rewrite del_absent.
Qed.

Lemma fill_collection C k : ∀ l pre s,
  attr_get (kind_attr k) (self s) = Dict pre →
  NoDup (map fst (pre ++ l)) →
  Forall (fun kv => ∃ o, heap s !! snd kv = Some o ∧ accepts C k o = true) l →
  for_each l (fun kv => _add_in_memory C k (fst kv) (snd kv) false) s
    = (Ok tt, with_self (attr_set (kind_attr k) (Dict (pre ++ l)%list)) s).
Proof.
  induction l as [|[n r] l IH]; intros pre s Hd Hnd Hv; simpl.
  - rewrite app_nil_r, <- Hd. unfold ret, with_self. f_equal.
    rewrite attr_set_get. by destruct s.
  - apply Forall_cons in Hv as [(o & Ho & Ha) Hv]. simpl in *.
    assert (Hn : PyDict.get n pre = None).
    { apply get_head_absent. rewrite map_app in Hnd. apply NoDup_app in Hnd as (_ & Hd' & _).
      intros Hx. apply (Hd' _ Hx). simpl. apply list_elem_of_here. }
    rewrite (bind_eq_Ok _ _ _ _ _ (_add_in_memory_accepts C k n r o pre s Hd Hn Ho Ha)).
    rewrite (IH (pre ++ [(n, r)])%list).
    + rewrite <- app_assoc. simpl. unfold with_self. simpl. by rewrite attr_set_set.
    + simpl. by rewrite attr_get_set.
    + by rewrite <- app_assoc.
    + done.
Qed.

Lemma init_block C k (a : option (list (string * obj_id))) s :
  acceptable C k (heap s) a →
  match a with
  | Some l =>
      modify (with_self (attr_set (kind_attr k) (Dict []))) ;;
      for_each l (fun kv => _add_in_memory C k (fst kv) (snd kv) false)
  | None => ret tt
  end s = (Ok tt, match a with
                | Some l => with_self (attr_set (kind_attr k) (Dict l)) s
                | None => s
                end).
Proof.
  intros [Hnd Hv]. destruct a as [l|]; [|done]. simpl in *.
  rewrite (bind_eq_Ok (modify (with_self (attr_set (kind_attr k) (Dict [])))) _ s tt _
             eq_refl).
  rewrite (fill_collection C k l []); simpl; try done.
  - unfold with_self. simpl. by rewrite attr_set_set.
  - by rewrite attr_get_set.
Qed.

(** X13: the constructor, given dictionaries with distinct names whose
    elements their schemas accept and a table its schema accepts, returns a
    container whose collections are the dictionaries it was given, in their
    order, with the class attribute left for an argument that is [None],
    whose table is the given one and whose [path] is unset; the caller's
    state is unchanged. *)
Theorem constructor_keeps_elements (C : Collaborators) (images_ labels_ points_ polygons_ shapes_ : option (list (string * obj_id))) (table : option obj_id) (s : State) :
  acceptable C KImages (heap s) images_ →
  acceptable C KLabels (heap s) labels_ →
  acceptable C KPoints (heap s) points_ →
  acceptable C KPolygons (heap s) polygons_ →
  acceptable C KShapes (heap s) shapes_ →
  (∀ t, table = Some t → ∃ o, heap s !! t = Some o ∧ validates C Table_s o = true) →
  SpatialData_ C images_ labels_ points_ polygons_ shapes_ table s
    = (Ok (mkSpatialData (collection_of images_) (collection_of labels_)
             (collection_of points_) (collection_of polygons_)
             (collection_of shapes_) table None), s).
Proof.
  intros Hi Hl Hpt Hpg Hsh Ht.
  unfold SpatialData_, __init__.
  set (s0 := {| self := class_attributes; heap := heap s; fs := fs s |}).
  rewrite (bind_eq_Ok (modify (with_self (set_path None))) _ s0 tt _ eq_refl).
  cbv beta.
  erewrite bind_eq_Ok by (apply (init_block C KImages images_); exact Hi).
  cbv beta.
  erewrite bind_eq_Ok
    by (apply (init_block C KLabels labels_); destruct images_; exact Hl).
  cbv beta.
  erewrite bind_eq_Ok
    by (apply (init_block C KPolygons polygons_); destruct images_, labels_; exact Hpg).
  cbv beta.
  erewrite bind_eq_Ok
    by (apply (init_block C KShapes shapes_);
        destruct images_, labels_, polygons_; exact Hsh).
  cbv beta.
  erewrite bind_eq_Ok
    by (apply (init_block C KPoints points_);
        destruct images_, labels_, polygons_, shapes_; exact Hpt).
  cbv beta.
  destruct table as [t|].
  - destruct (Ht t eq_refl) as (o & Ho & Hv).
    unfold validate, deref, bind, gets, ret, raise, modify.
    destruct images_, labels_, polygons_, shapes_, points_; simpl;
      rewrite Ho; simpl; rewrite Hv; simpl; by destruct s.
  - unfold ret. destruct images_, labels_, polygons_, shapes_, points_; simpl;
      by destruct s.
Qed.

Lemma constructor_keeps_elements_witness :
  SpatialData_ Demo.collaborators (Some [("a", 0); ("b", 1)]) None (Some [("p", 2)])
    (Some [("g", 3)]) (Some []) (Some 4) Example.mixed
  = (Ok (mkSpatialData (Dict [("a", 0); ("b", 1)]) MappingProxyType_empty
           (Dict [("p", 2)]) (Dict [("g", 3)]) (Dict []) (Some 4) None),
     Example.mixed).
Proof.
  apply (constructor_keeps_elements Demo.collaborators (Some [("a", 0); ("b", 1)]) None
           (Some [("p", 2)]) (Some [("g", 3)]) (Some []) (Some 4) Example.mixed).
  all: try (split; [apply (bool_decide_unpack _); vm_compute; exact I|]).
  all: try (repeat constructor; eexists; split; vm_compute; reflexivity).
  intros t [= <-]. eexists. split; vm_compute; reflexivity.
Defined.

Lemma get_Some_elem {V} k (v : V) (d : list (string * V)) :
  PyDict.get k d = Some v → (k, v) ∈ d.
Proof.
  induction d as [|[k' v'] d IH]; simpl; [done|].
  destruct (String.eqb k k') eqn:E.
  - apply String.eqb_eq in E as ->. intros [= ->]. apply list_elem_of_here.
  - intros H. apply list_elem_of_further. auto.
Qed.

Lemma entry_elements k name element s :
  entry k name s = Some element → element ∈ elements_of (self s).
Proof.
  intros H. apply get_Some_elem in H.
  unfold elements_of. apply list_elem_of_In, in_flat_map.
  exists (kind_attr k). split.
  - destruct k; simpl; auto 10.
  - apply list_elem_of_In, list_elem_of_fmap. by exists (name, element).
Qed.

(** X14: an element that [_add_<kind>_in_memory] has just added to an
    unbacked container is among the elements [_gen_elements] yields, and
    [set_transformation] finds it: it returns, or raises the ambiguity error
    when the same object is in the collections more than once; it never
    raises the not-found error. *)
Theorem added_element_is_found (C : Collaborators) (k : Kind) (name : string) (element : obj_id) (overwrite : bool) (t : BaseTransformation) (s s' : State) :
  _add_in_memory C k name element overwrite s = (Ok tt, s') →
  path (self s) = None →
  _gen_elements s' = (Ok (elements_of (self s')), s') ∧
  element ∈ elements_of (self s') ∧
  set_transformation C element t s'
    = (if Nat.eqb (occurrences element (self s')) 1 then Ok tt
       else Raise AmbiguousElement, s').
Proof.
  intros H Hp.
  pose proof (_add_in_memory_Ok C k _ _ _ _ _ H) as (He & _ & _ & Hp' & _).
  pose proof (entry_elements _ _ _ _ He) as Hin.
  split; [done|]. split; [done|].
  assert (Hpos : occurrences element (self s') ≠ 0).
  { unfold occurrences. intros E0. apply length_zero_iff_nil in E0.
    eapply (filter_nil_not_elem_of _ _ element) in E0; done. }
  unfold occurrences in *. rewrite <- find_element_found in *.
  unfold set_transformation, set_transformation_in_memory.
  unfold bind at 1, ret at 1. unfold bind at 1, gets at 1. unfold bind at 1.
  destruct (length (fst (fst (find_element (self s') element)))) as [|[|n]];
    simpl; [done| |done].
  by rewrite Hp', Hp.
Qed.

Lemma added_element_is_found_witness :
  let s' := snd (_add_in_memory Demo.collaborators KImages "a" 0 false Demo.unbacked_empty) in
  _gen_elements s' = (Ok [0], s') ∧
  set_transformation Demo.collaborators 0 (Scale [2; 2]%Z) s' = (Ok tt, s').
Proof.
  intros s'.
  destruct (added_element_is_found Demo.collaborators KImages "a" 0 false
              (Scale [2; 2]%Z) Demo.unbacked_empty s') as (H1 & _ & H2).
  - vm_compute. reflexivity.
  - reflexivity.
  - split; [exact H1 | exact H2].
Defined.

(** X15: [_non_empty_elements] returns, and lists the name of a collection
    exactly when the collection has an entry, and [table] exactly when there
    is a table with at least one row: an empty dictionary, the class
    attribute and a table without rows are not listed. *)
Theorem _non_empty_elements_lists (s : State) :
  (∀ t, _table (self s) = Some t → is_Some (heap s !! t)) →
  ∃ l, _non_empty_elements s = (Ok l, s) ∧
    (∀ k, kind_name k ∈ l ↔ items (attr_get (kind_attr k) (self s)) ≠ []) ∧
    ("table" ∈ l ↔
       ∃ t o, _table (self s) = Some t ∧ heap s !! t = Some o ∧ rows o ≠ []).
Proof.
  intros Ht.
  set (L := [("images", images); ("labels", labels); ("points", points);
             ("polygons", polygons); ("shapes", shapes)]).
  set (l1 := map fst (filter (fun element : string * Attr =>
                 0 < length (items (attr_get (snd element) (self s)))) L)).
  assert (H1 : ∀ k, kind_name k ∈ l1 ↔ items (attr_get (kind_attr k) (self s)) ≠ []).
  { intros k. unfold l1. split.
    - intros (y & Hy & Hin)%list_elem_of_fmap.
      apply list_elem_of_filter in Hin as [HP Hin]. unfold L in Hin.
      repeat (apply elem_of_cons in Hin as [->|Hin]);
        try (by apply elem_of_nil in Hin);
        simpl in *; destruct k; try discriminate; simpl;
        intros E; rewrite E in HP; simpl in HP; lia.
    - intros Hne. apply list_elem_of_fmap. exists (kind_name k, kind_attr k).
      split; [done|]. apply list_elem_of_filter. split.
      + simpl. destruct (items _); [done|simpl; lia].
      + unfold L. destruct k; set_solver. }
  assert (H2 : "table" ∉ l1).
  { unfold l1. intros (y & Hy & Hin)%list_elem_of_fmap.
    apply list_elem_of_filter in Hin as [_ Hin]. unfold L in Hin.
    repeat (apply elem_of_cons in Hin as [->|Hin]);
      try (by apply elem_of_nil in Hin); discriminate. }
  assert (H3 : ∀ k, kind_name k ≠ "table") by by intros [].
  unfold _non_empty_elements, deref, bind, gets, ret, raise. simpl.
  fold L. fold l1.
  destruct (_table (self s)) as [t|] eqn:Et.
  - destruct (Ht t eq_refl) as [o Ho]. rewrite Ho. simpl.
    destruct (rows o) as [|row rws] eqn:Er; simpl.
    + eexists. split; [done|]. rewrite app_nil_r. split; [done|].
      split; [done|]. intros (t' & o' & [= <-] & Ho' & Hr). congruence.
    + eexists. split; [done|]. split.
      * intros k. rewrite elem_of_app, H1. split; [|by left].
        intros [?|Hx]; [done|]. apply list_elem_of_singleton in Hx. by apply H3 in Hx.
      * split; [|intros _; apply elem_of_app; right; apply list_elem_of_here].
        intros _. exists t, o. rewrite Er. done.
  - eexists. split; [done|]. rewrite app_nil_r. split; [done|].
    split; [done|]. by intros (t' & o' & [=] & _).
Qed.

Lemma _non_empty_elements_lists_witness :
  _non_empty_elements Example.mixed
    = (Ok ["images"; "points"; "polygons"; "table"], Example.mixed) ∧
  ("labels" ∈ ["images"; "points"; "polygons"; "table"]
     ↔ items (_labels (self Example.mixed)) ≠ []).
Proof.
  destruct (_non_empty_elements_lists Example.mixed) as (l & H1 & H2 & _).
  - intros t [= <-]. by eexists.
  - assert (E : _non_empty_elements Example.mixed
               = (Ok ["images"; "points"; "polygons"; "table"], Example.mixed))
      by (vm_compute; reflexivity).
    split; [exact E|]. rewrite E in H1. injection H1 as <-. exact (H2 KLabels).
Defined.

Lemma _add_in_memory_sets_last_witness :
  let s' := snd (_add_in_memory Demo.collaborators KImages "a" 1 true Demo.unbacked_two_images) in
  items (_images (self s')) = [("broken", 1); ("a", 1)] ∧
  entry KImages "a" s' = Some 1 ∧ entry KImages "broken" s' = Some 1.
Proof.
  intros s'.
  destruct (_add_in_memory_sets_last Demo.collaborators KImages "a" 1 true
              Demo.unbacked_two_images s') as (H1 & H2 & H3 & _).
  - vm_compute. reflexivity.
  - split; [by rewrite H1|]. split; [exact H2|]. by rewrite H3.
Defined.

Lemma _add_in_memory_raises_witness :
  _add_in_memory Demo.collaborators KImages "a" 2 true Example.mixed
    = (Raise UnsupportedShape, cleared KImages "a" Example.mixed) ∧
  entry KImages "a" Example.mixed = Some 0 ∧
  entry KImages "a" (cleared KImages "a" Example.mixed) = None ∧
  entry KImages "b" (cleared KImages "a" Example.mixed) = Some 1.
Proof.
  assert (E : _add_in_memory Demo.collaborators KImages "a" 2 true Example.mixed
              = (Raise UnsupportedShape, cleared KImages "a" Example.mixed))
    by (vm_compute; reflexivity).
  split; [exact E|]. split; [reflexivity|].
  destruct (_add_in_memory_raises Demo.collaborators KImages "a" 2 true
              UnsupportedShape Example.mixed _ E) as [(? & _)|(_ & _ & _ & H1 & H2)];
    [discriminate|].
  split; [exact H1|]. by rewrite H2.
Defined.

Lemma _init_add_element_outcome_witness :
  _init_add_element "a" "images" false Example.stale_store
    = (Raise ElementExists, Example.stale_store) ∧
  fst (_init_add_element "a" "images" true Example.stale_store) = Ok (Sub "store.zarr" "images") ∧
  members (fs (snd (_init_add_element "a" "images" true Example.stale_store)))
    "store.zarr" "images" !! "a" = None.
Proof.
  split.
  - destruct (_init_add_element_outcome KImages "a" false "store.zarr"
                {[ "images" := {[ "a" := Written Demo.image0 ]} ]} Example.stale_store)
      as (_ & _ & _ & H); [reflexivity|reflexivity|reflexivity|discriminate|].
    exact H.
  - destruct (_init_add_element_outcome KImages "a" true "store.zarr"
                {[ "images" := {[ "a" := Written Demo.image0 ]} ]} Example.stale_store)
      as (_ & _ & _ & H1 & _ & H2); [reflexivity|reflexivity|reflexivity|discriminate|].
    split; [exact H1 | exact H2].
Defined.

Lemma add_labels_overwrite_unbound_witness :
  add_labels Demo.collaborators "l" 1 true true Demo.backed
    = (Raise UnboundLocalError,
       snd (_add_labels_in_memory Demo.collaborators "l" 1 true Demo.backed)) ∧
  entry KLabels "l" (snd (_add_labels_in_memory Demo.collaborators "l" 1 true Demo.backed))
    = Some 1.
Proof.
  destruct (add_labels_overwrite_unbound Demo.collaborators "l" "store.zarr" ∅ 1
              Demo.backed
              (snd (_add_labels_in_memory Demo.collaborators "l" 1 true Demo.backed)))
    as (_ & _ & H1 & H2 & _).
  - reflexivity.
  - reflexivity.
  - reflexivity.
  - vm_compute. reflexivity.
  - split; [exact H1 | exact H2].
Defined.

Lemma backed_add_existing_in_store_witness :
  let s1 := snd (_add_in_memory Demo.collaborators KImages "a" 1 false Example.stale_store) in
  add Demo.collaborators KImages "a" 1 false true Example.stale_store
    = (Raise ElementExists, s1) ∧
  entry KImages "a" Example.stale_store = None ∧ entry KImages "a" s1 = Some 1.
Proof.
  intros s1.
  destruct (backed_add_existing_in_store Demo.collaborators KImages "a" "store.zarr" 1
              (Written Demo.image0) Example.stale_store s1) as (H1 & H2 & _).
  - reflexivity.
  - vm_compute. reflexivity.
  - vm_compute. reflexivity.
  - split; [exact H1|]. split; [reflexivity | exact H2].
Defined.


Section OtherStores.

Variable C : Collaborators.
Variable q : string.

Local Abbreviation J := (store_untouched q).

Lemma J_refl s : J s s.
Proof. done. Qed.

Lemma J_trans s1 s2 s3 : J s1 s2 → J s2 s3 → J s1 s3.
Proof. intros [] []. split; congruence. Qed.

Lemma J_assignable k : assignable J (kind_attr k).
Proof. intros m s. split; [done|]. by destruct k. Qed.

Lemma J_allocating : allocating J.
Proof. done. Qed.

Lemma J_bind {A B} (m : M A) (k : A -> M B) s :
  J s (snd (m s)) →
  (∀ a s1, m s = (Ok a, s1) → J s s1 → J s1 (snd (k a s1))) →
  J s (snd (bind m k s)).
Proof.
  intros Hm Hk. unfold bind. destruct (m s) as [[a|e] s1] eqn:E; simpl in *; [|done].
  eapply J_trans; [exact Hm|]. by apply Hk.
Qed.

Lemma J_for_each {A} (l : list A) (body : A -> M unit) :
  (∀ x s, path (self s) ≠ Some q → J s (snd (body x s))) →
  ∀ s, path (self s) ≠ Some q → J s (snd (for_each l body s)).
Proof.
  intros Hb. induction l as [|x l IH]; intros s Hp; simpl; [done|].
  apply J_bind; [by apply Hb|]. intros _ s1 _ [_ Hp1]. apply IH. congruence.
Qed.

Lemma J_insert (st : string) (h : gmap string Store -> Store) s :
  st ≠ q → J s (with_fs (fun f => <[st := h f]> f) s).
Proof. intros Hne. split; [|done]. simpl. by rewrite lookup_insert_ne. Qed.

Ltac case_present :=
  match goal with |- context [bool_decide ?P] => destruct (bool_decide P) end.

Lemma J_create_group g key s : store_path g ≠ q → J s (snd (create_group g key s)).
Proof.
  intros Hne. unfold create_group, group_contains, bind, gets, ret, raise, modify.
  destruct g as [store|store group|store group nm]; simpl in *;
    try done; case_present; simpl; try done.
  - by apply (J_insert store (fun f => <[key := ∅]> (root_of f store))).
  - by apply (J_insert store
                (fun f => <[group := <[key := EmptyGroup]> (members f store group)]>
                            (root_of f store))).
Qed.

Lemma J_require_group g key s : store_path g ≠ q → J s (snd (require_group g key s)).
Proof.
  intros Hne. unfold require_group.
  apply J_bind; [apply respects_group_contains; first [exact J_refl | exact J_trans]|].
  intros b s1 _ _.
  destruct b; [apply respects_group_getitem; first [exact J_refl | exact J_trans]|].
  by apply J_create_group.
Qed.

Lemma J_group_delitem g key s : store_path g ≠ q → J s (snd (group_delitem g key s)).
Proof.
  intros Hne. unfold group_delitem, group_contains, bind, gets, ret, raise, modify.
  destruct g as [store|store group|store group nm]; simpl in *;
    try done; case_present; simpl; try done.
  - by apply (J_insert store (fun f => delete key (root_of f store))).
  - by apply (J_insert store
                (fun f => <[group := delete key (members f store group)]>
                            (root_of f store))).
Qed.

Lemma J_put_node g key n s : store_path g ≠ q → J s (snd (put_node g key n s)).
Proof.
  intros Hne. unfold put_node, modify, raise.
  destruct g as [store|store group|store group nm]; simpl in *; try done.
  by apply (J_insert store
              (fun f => <[group := <[key := n]> (members f store group)]>
                          (root_of f store))).
Qed.

Lemma J_write_element element_type element g name s :
  store_path g ≠ q → J s (snd (write_element C element_type element g name s)).
Proof.
  intros Hne. unfold write_element.
  apply J_bind; [apply respects_deref; first [exact J_refl | exact J_trans]|].
  intros o s1 _ _. destruct (encode C element_type name o); [|done].
  by apply J_put_node.
Qed.

Lemma J_init name t overwrite s :
  path (self s) ≠ Some q → J s (snd (_init_add_element name t overwrite s)).
Proof.
  intros Hp.
  unfold _init_add_element, open_root, create_group, group_getitem, group_delitem,
    group_contains, local, assert_, bind, gets, ret, raise, modify.
  destruct (path (self s)) as [p|] eqn:E; [|done]. simpl.
  assert (Hne : p ≠ q) by congruence.
  repeat (case_match; simpl in *; simplify_eq); try done.
  all: split; [simpl; rewrite ?lookup_insert_ne by done; done|done].
Qed.

Lemma init_store name t overwrite s g s' :
  _init_add_element name t overwrite s = (Ok g, s') →
  path (self s) = Some (store_path g).
Proof.
  unfold _init_add_element, open_root, create_group, group_getitem, group_delitem,
    group_contains, local, assert_, bind, gets, ret, raise, modify.
  destruct (path (self s)) as [p|] eqn:E; [|done]. simpl.
  intros H. repeat (case_match; simpl in *; simplify_eq); done.
Qed.

Lemma require_group_store g key s g' s' :
  require_group g key s = (Ok g', s') → store_path g' = store_path g.
Proof.
  unfold require_group, create_group, group_getitem, group_contains, bind, gets, ret,
    raise, modify.
  intros H. destruct g; simpl in *; repeat (case_match; simpl in *; simplify_eq); done.
Qed.

Lemma J_write_labels labels_ g name s :
  store_path g ≠ q → J s (snd (write_labels C labels_ g name s)).
Proof.
  intros Hne. unfold write_labels.
  apply J_bind; [by apply J_require_group|].
  intros g' s1 E _. apply J_write_element.
  by rewrite (require_group_store _ _ _ _ _ E).
Qed.

Ltac reads := first [exact J_refl | exact J_trans | apply J_assignable
                     | exact J_allocating].

Lemma J_in_memory k name element overwrite s :
  J s (snd (_add_in_memory C k name element overwrite s)).
Proof.
  destruct k; simpl.
  - apply (respects__add_image_in_memory C J J_refl J_trans). apply (J_assignable KImages).
  - apply (respects__add_labels_in_memory C J J_refl J_trans). apply (J_assignable KLabels).
  - apply (respects__add_points_in_memory C J J_refl J_trans). apply (J_assignable KPoints).
  - apply (respects__add_polygons_in_memory C J J_refl J_trans).
    apply (J_assignable KPolygons).
  - apply (respects__add_shapes_in_memory C J J_refl J_trans). apply (J_assignable KShapes).
Qed.

Lemma J_first_in_memory k name element overwrite (b : bool) s :
  J s (snd ((if b then _add_in_memory C k name element overwrite else ret tt) s)).
Proof. destruct b; [apply J_in_memory|done]. Qed.

Lemma J_add k name element overwrite _add_in_memory_ s :
  path (self s) ≠ Some q →
  J s (snd (add C k name element overwrite _add_in_memory_ s)).
Proof.
  intros Hp.
  destruct k; unfold add, add_image, add_labels, add_points, add_polygons, add_shapes,
    write_image, write_points, write_polygons, write_shapes.
  all: apply J_bind;
    [first [apply (J_first_in_memory KImages) | apply (J_first_in_memory KLabels)
           | apply (J_first_in_memory KPoints) | apply (J_first_in_memory KPolygons)
           | apply (J_first_in_memory KShapes)]|].
  all: intros _ s1 _ [_ Hp1].
  all: apply J_bind; [apply respects_is_backed; reads|].
  all: intros b s2 Eb _; apply is_backed_Ok in Eb as [-> _].
  all: destruct b; [|done].
  all: apply J_bind; [apply J_init; congruence|].
  all: intros g s2 Eg [_ Hp2]; apply init_store in Eg.
  all: assert (Hg : store_path g ≠ q) by congruence.
  all: apply J_bind; [apply respects_attr_getitem; reads|].
  all: intros r s3 _ _.
  - apply J_bind; [by apply J_write_element|]. intros _ s4 _ _.
    apply J_bind; [apply respects_assert; reads|]. intros _ s5 _ _.
    apply J_bind; [apply (respects__read_multiscale C J J_refl J_trans); reads|].
    intros r' s6 _ _. apply (J_in_memory KImages).
  - apply J_bind; [by apply J_write_labels|]. intros _ s4 _ _.
    apply J_bind; [apply respects_assert; reads|]. intros _ s5 _ _.
    apply J_bind; [apply (respects__read_multiscale C J J_refl J_trans); reads|].
    intros r' s6 _ _. apply (J_in_memory KLabels).
  - apply J_bind; [by apply J_write_element|]. intros _ s4 _ _.
    apply J_bind; [apply (respects__read_points C J J_refl J_trans); reads|].
    intros r' s6 _ _. apply (J_in_memory KPoints).
  - by apply J_write_element.
  - by apply J_write_element.
Qed.

Lemma J_get_group name t s :
  path (self s) ≠ Some q → J s (snd (_get_group_for_element name t s)).
Proof.
  intros Hp.
  unfold _get_group_for_element, open_root, require_group, create_group, group_getitem,
    group_contains, assert_, bind, gets, ret, raise, modify.
  destruct (path (self s)) as [p|] eqn:E; [|done]. simpl.
  assert (Hne : p ≠ q) by congruence.
  repeat (case_match; simpl in *; simplify_eq); try done.
  all: split; [simpl; rewrite ?lookup_insert_ne by done; done|done].
Qed.

Lemma get_group_store name t s g s' :
  _get_group_for_element name t s = (Ok g, s') →
  path (self s) = Some (store_path g).
Proof.
  unfold _get_group_for_element, open_root, require_group, create_group, group_getitem,
    group_contains, assert_, bind, gets, ret, raise, modify.
  destruct (path (self s)) as [p|] eqn:E; [|done]. simpl.
  intros H. repeat (case_match; simpl in *; simplify_eq); done.
Qed.

Lemma J_overwrite raster g axes_ t s :
  store_path g ≠ q →
  J s (snd (_overwrite_coordinate_transformations C raster g axes_ t s)).
Proof.
  intros Hne. unfold _overwrite_coordinate_transformations.
  destruct g as [store|store group|store group nm]; try done.
  apply J_bind; [apply respects_gets; reads|]. intros f s1 _ _.
  destruct (members f store group !! nm) as [node|]; [|done].
  destruct (rewrite_transformations C raster axes_ t node); [|done].
  by apply J_put_node.
Qed.

Lemma J_set_transformation element t s :
  path (self s) ≠ Some q → J s (snd (set_transformation C element t s)).
Proof.
  intros Hp. unfold set_transformation, set_transformation_in_memory.
  apply J_bind; [done|]. intros u sa Eu _. apply ret_Ok in Eu as [-> ->].
  apply J_bind; [done|]. intros sd sb Es _. unfold gets in Es.
  injection Es as <- <-. cbv zeta.
  apply J_bind.
  { destruct (Nat.eqb _ 0); [exact (J_refl _)|].
    destruct (Nat.ltb 1 _); exact (J_refl _). }
  intros _ sc _ [_ Hp1].
  destruct (path (self s)) as [p|] eqn:E; [|exact (J_refl _)].
  apply J_bind; [apply J_get_group; congruence|].
  intros g sd Eg [_ Hp2]. apply get_group_store in Eg.
  assert (Hg : store_path g ≠ q) by congruence.
  apply J_bind; [apply respects_get_dims; reads|]. intros axes_ s3 _ _.
  apply J_bind; [apply respects_deref; reads|]. intros o s4 _ _.
  destruct (py_class o); try exact (J_refl _); by apply J_overwrite.
Qed.

Lemma create_group_store g key s g' s' :
  create_group g key s = (Ok g', s') → store_path g' = store_path g.
Proof.
  unfold create_group, group_contains, bind, gets, ret, raise, modify.
  intros H. destruct g; simpl in *; repeat (case_match; simpl in *; simplify_eq); done.
Qed.

Lemma J_write_collection root t a (add_ : string -> obj_id -> bool -> bool -> M unit) s :
  store_path root ≠ q →
  (∀ el element s0, path (self s0) ≠ Some q → J s0 (snd (add_ el element false false s0))) →
  path (self s) ≠ Some q →
  J s (snd (write_collection root t a add_ s)).
Proof.
  intros Hr Hadd Hp. unfold write_collection.
  apply J_bind; [apply respects_attr_len; reads|]. intros n s1 _ [_ Hp1].
  destruct (Nat.ltb 0 n); [|done].
  apply J_bind; [by apply J_create_group|]. intros g s2 _ [_ Hp2].
  apply J_bind; [apply respects_attr_keys; reads|]. intros keys s3 _ [_ Hp3].
  apply J_for_each; [|congruence].
  intros el s0 Hp0.
  apply J_bind; [apply respects_attr_getitem; reads|]. intros element s4 _ [_ Hp4].
  apply Hadd. congruence.
Qed.

Lemma J_write_elements root s :
  store_path root ≠ q → path (self s) ≠ Some q →
  J s (snd (write_elements C root s)).
Proof.
  intros Hr Hp. unfold write_elements.
  apply J_bind; [apply J_write_collection; [done| |done]; intros el element s0 Hs0; exact (J_add KImages el element false false s0 Hs0)|].
  intros _ s1 _ [_ Hp1].
  apply J_bind; [apply J_write_collection; [done| |congruence];
                 intros el element s0 Hs0;
                 exact (J_add KLabels el element false false s0 Hs0)|].
  intros _ s2 _ [_ Hp2].
  apply J_bind; [apply J_write_collection; [done| |congruence];
                 intros el element s0 Hs0;
                 exact (J_add KPoints el element false false s0 Hs0)|].
  intros _ s3 _ [_ Hp3].
  apply J_bind; [apply J_write_collection; [done| |congruence];
                 intros el element s0 Hs0;
                 exact (J_add KPolygons el element false false s0 Hs0)|].
  intros _ s4 _ [_ Hp4].
  apply J_bind; [apply J_write_collection; [done| |congruence];
                 intros el element s0 Hs0;
                 exact (J_add KShapes el element false false s0 Hs0)|].
  intros _ s5 _ [_ Hp5].
  apply J_bind; [done|]. intros sd s6 Es _. unfold gets in Es.
  injection Es as <- <-.
  destruct (_table (self s5)) as [table|]; [|exact (J_refl _)].
  apply J_bind; [by apply J_create_group|]. intros g s7 Eg _.
  apply J_write_element. by rewrite (create_group_store _ _ _ _ _ Eg).
Qed.

Lemma write_other_stores file_path overwrite s :
  q ≠ file_path →
  fs (snd (write C file_path overwrite s)) !! q = fs s !! q.
Proof.
  intros Hne.
  destruct (write_checks C file_path overwrite s) as [[root|e] s0] eqn:E.
  - rewrite (write_passed _ _ _ _ _ _ E).
    apply write_checks_Ok in E as (-> & -> & _ & _).
    set (sA := with_self _ _).
    destruct (J_write_elements (Root file_path) sA) as [Hf _]; [done| |].
    { simpl. congruence. }
    destruct (write_elements C (Root file_path) sA) as [[[]|e] s1]; simpl in *;
      rewrite Hf; by rewrite lookup_insert_ne.
  - destruct (write_rejected _ _ _ _ _ _ E) as [-> _]. simpl.
    revert E.
    unfold write_checks, is_backed, store_exists, open_w, bind, gets, ret, raise, modify.
    simpl. intros E. repeat (case_match; simpl in *; simplify_eq); done.
Qed.

End OtherStores.

(** X16: whatever they do and however they end, [add_<kind>],
    [set_transformation] and [_get_group_for_element] leave every store other
    than the one the container is backed by as it was. *)
Theorem only_backing_store_is_touched (C : Collaborators) (q : string) (s : State) :
  path (self s) ≠ Some q →
  (∀ k name element overwrite _add_in_memory_,
     fs (snd (add C k name element overwrite _add_in_memory_ s)) !! q = fs s !! q) ∧
  (∀ element t, fs (snd (set_transformation C element t s)) !! q = fs s !! q) ∧
  (∀ name element_type,
     fs (snd (_get_group_for_element name element_type s)) !! q = fs s !! q).
Proof.
  intros Hp. split; [|split].
  - intros k name element overwrite b. by apply (J_add C q).
  - intros element t. by apply (J_set_transformation C q).
  - intros name t. by apply (J_get_group q).
Qed.

(** X17: however it ends, [write] leaves every store other than its target
    as it was, also the store the container was backed by before. *)
Theorem write_touches_only_target (C : Collaborators) (file_path q : string) (overwrite : bool) (s : State) :
  q ≠ file_path →
  fs (snd (write C file_path overwrite s)) !! q = fs s !! q.
Proof. apply write_other_stores. Qed.

Lemma only_backing_store_is_touched_witness :
  fs (snd (add Demo.collaborators KImages "a" 1 false true Example.two_stores))
    !! "other.zarr" = Some {[ "images" := {[ "a" := Written Demo.image0 ]} ]} ∧
  members (fs (snd (add Demo.collaborators KImages "a" 1 false true Example.two_stores)))
    "store.zarr" "images" !! "a" = Some (Written Demo.image0).
Proof.
  destruct (only_backing_store_is_touched Demo.collaborators "other.zarr"
              Example.two_stores) as (H & _ & _).
  - discriminate.
  - split; [by rewrite H|]. vm_compute. reflexivity.
Defined.

Lemma write_touches_only_target_witness :
  path (self Demo.backed_by_write) = Some "old.zarr" ∧
  fs (snd (write Demo.collaborators "new.zarr" false Demo.backed_by_write)) !! "old.zarr"
    = fs Demo.backed_by_write !! "old.zarr".
Proof.
  split; [vm_compute; reflexivity|].
  apply (write_touches_only_target Demo.collaborators "new.zarr" "old.zarr" false
           Demo.backed_by_write).
  discriminate.
Defined.

(** X18: a backed [add_<kind>] called without the in-memory step and without
    [overwrite], as [write] calls it, does not use the element it is given:
    when it returns, it has written the payload of the entry the collection
    already has under the name to the kind's group of the store, has left
    every other member of the store as it was, and has replaced the entry by
    a reloaded handle for images, labels and points only. *)
Theorem add_persists_stored_entry (C : Collaborators) (k : Kind) (name p : string) (element other : obj_id) (s s' : State) :
  path (self s) = Some p →
  add C k name element false false s = (Ok tt, s') →
  stored C k name p s s' ∧
  add C k name other false false s = (Ok tt, s').
Proof.
  intros Hp H. split; [by eapply add_stored|].
  rewrite <- H. by destruct k.
Qed.

Lemma add_persists_stored_entry_witness :
  let s := snd (_add_in_memory Demo.collaborators KPolygons "g" 0 false Demo.backed) in
  let s' := snd (add Demo.collaborators KPolygons "g" 7 false false s) in
  fst (add Demo.collaborators KPolygons "g" 7 false false s) = Ok tt ∧
  stored Demo.collaborators KPolygons "g" "store.zarr" s s' ∧
  members (fs s') "store.zarr" "polygons" !! "g" = Some (Written Demo.frame0).
Proof.
  intros s s'.
  destruct (add_persists_stored_entry Demo.collaborators KPolygons "g" "store.zarr" 7 0
              s s') as [H _].
  - reflexivity.
  - vm_compute. reflexivity.
  - split; [vm_compute; reflexivity|]. split; [exact H|]. vm_compute. reflexivity.
Defined.
